(** * HydraExpress: the lifecycle orchestrator of [src/index.js]

    A shallow embedding of the [HydraExpress] / [IHydraExpress] classes:
    configuration validation, the startup promise chain, the cleanup
    handler and its timers, route registration, the terminal error
    handler and the configuration accessor.

    JavaScript objects live in a heap and are handled through references,
    so that aliasing between a configuration and its copies is visible.
    The discovery client (hydra), express, plugins and user callbacks are
    black boxes: the model records every call made to them in a trace and
    takes what they answer from a [collab] record. *)

From Stdlib Require Import String ZArith List Bool Lia Ascii DecimalString.
From stdpp Require Import base numbers list strings.
Import ListNotations.
Local Open Scope string_scope.
Local Open Scope list_scope.

Infix "+++" := String.append (at level 60, right associativity) : string_scope.

(** ** JavaScript values and the heap *)

Abbreviation loc := nat (only parsing).

Inductive value : Type :=
| VUndef
| VNull
| VBool (b : bool)
| VNum (n : Z)
| VStr (s : string)
| VFun (f : nat)
| VRef (l : loc).

#[global] Instance value_eq_dec : EqDecision value.
Proof. solve_decision. Defined.

(** A plain object keeps its own enumerable properties in insertion order
    (the order [Object.keys] reports); an array keeps its elements. *)
Inductive object : Type :=
| Obj (props : list (string * value))
| Arr (elems : list value).

Abbreviation heap := (list object) (only parsing).

Inductive jserror : Type := JsError (name message : string).

#[global] Instance jserror_eq_dec : EqDecision jserror.
Proof. solve_decision. Defined.

Definition err_name (e : jserror) : string := let 'JsError n _ := e in n.
Definition err_message (e : jserror) : string := let 'JsError _ m := e in m.

Definition Error (msg : string) : jserror := JsError "Error" msg.
Definition TypeError (msg : string) : jserror := JsError "TypeError" msg.
Definition ReferenceError (msg : string) : jserror := JsError "ReferenceError" msg.
Definition RangeError (msg : string) : jserror := JsError "RangeError" msg.

Inductive result (A : Type) : Type :=
| Ok (a : A)
| Throw (e : jserror).
Arguments Ok {A} a.
Arguments Throw {A} e.

(** [!!v] is [negb (truthy v)]. *)
Definition truthy (v : value) : bool :=
  match v with
  | VUndef | VNull => false
  | VBool b => b
  | VNum n => negb (n =? 0)%Z
  | VStr s => negb (String.eqb s "")
  | VFun _ | VRef _ => true
  end.

(** [a || b] *)
Definition js_or (a b : value) : value := if truthy a then a else b.

Definition typeof (v : value) : string :=
  match v with
  | VUndef => "undefined"
  | VNull => "object"
  | VBool _ => "boolean"
  | VNum _ => "number"
  | VStr _ => "string"
  | VFun _ => "function"
  | VRef _ => "object"
  end.

(** [a === b]; numbers are integers here, so there is no NaN. *)
Definition strict_eq (a b : value) : bool := bool_decide (a = b).

Definition is_undefined (v : value) : bool := strict_eq v VUndef.

Fixpoint assoc (k : string) (ps : list (string * value)) : option value :=
  match ps with
  | [] => None
  | (k', v) :: ps' => if String.eqb k k' then Some v else assoc k ps'
  end.

Fixpoint assoc_set (k : string) (v : value) (ps : list (string * value))
  : list (string * value) :=
  match ps with
  | [] => [(k, v)]
  | (k', v') :: ps' =>
      if String.eqb k k' then (k, v) :: ps' else (k', v') :: assoc_set k v ps'
  end.

(** Array and string indices as property keys: "0", "1", ... *)
Definition index_key (i : nat) : string := NilZero.string_of_uint (Nat.to_uint i).

Definition key_index (n : nat) (k : string) : option nat :=
  find (fun i => String.eqb (index_key i) k) (seq 0 n).

Definition char_at (s : string) (i : nat) : value :=
  match String.get i s with
  | Some c => VStr (String c EmptyString)
  | None => VUndef
  end.

Definition describe (v : value) : string :=
  match v with VNull => "null" | _ => "undefined" end.

(** [v[k]] / [v.k]: reading off [undefined] or [null] throws; a primitive
    has no own properties beyond a string's indices and length (prototype
    methods are not properties of the model). *)
Definition get_prop (h : heap) (v : value) (k : string) : result value :=
  match v with
  | VUndef | VNull =>
      Throw (TypeError ("Cannot read properties of " +++ describe v
                        +++ " (reading '" +++ k +++ "')"))
  | VRef l =>
      match h !! l with
      | Some (Obj ps) => Ok (default VUndef (assoc k ps))
      | Some (Arr es) =>
          if String.eqb k "length" then Ok (VNum (Z.of_nat (length es)))
          else match key_index (length es) k with
               | Some i => Ok (default VUndef (es !! i))
               | None => Ok VUndef
               end
      | None => Ok VUndef
      end
  | VStr s =>
      if String.eqb k "length" then Ok (VNum (Z.of_nat (String.length s)))
      else match key_index (String.length s) k with
           | Some i => Ok (char_at s i)
           | None => Ok VUndef
           end
  | VBool _ | VNum _ | VFun _ => Ok VUndef
  end.

(** [v.k = x] under 'use strict': assigning on [undefined], [null] or a
    primitive throws; an array takes in-range index writes only. *)
Definition set_prop (h : heap) (v : value) (k : string) (x : value) : result heap :=
  match v with
  | VRef l =>
      match h !! l with
      | Some (Obj ps) => Ok (<[l := Obj (assoc_set k x ps)]> h)
      | Some (Arr es) =>
          match key_index (length es) k with
          | Some i => Ok (<[l := Arr (<[i := x]> es)]> h)
          | None => Ok h
          end
      | None => Ok h
      end
  | VFun _ => Ok h
  | VUndef | VNull =>
      Throw (TypeError ("Cannot set properties of " +++ describe v
                        +++ " (setting '" +++ k +++ "')"))
  | VBool _ | VNum _ | VStr _ =>
      Throw (TypeError ("Cannot create property '" +++ k +++ "'"))
  end.

(** Own enumerable properties, as [Object.keys] and [Object.assign] see them. *)
Definition own_props (h : heap) (v : value) : list (string * value) :=
  match v with
  | VRef l =>
      match h !! l with
      | Some (Obj ps) => ps
      | Some (Arr es) => imap (fun i x => (index_key i, x)) es
      | None => []
      end
  | VStr s => map (fun i => (index_key i, char_at s i)) (seq 0 (String.length s))
  | _ => []
  end.

(** [Object.keys(v)]: the keys in the order the object holds them, which is
    the order JavaScript lists keys in as long as none of them is
    integer-like (those it lists first, in ascending order). *)
Definition object_keys (h : heap) (v : value) : result (list string) :=
  match v with
  | VUndef | VNull => Throw (TypeError "Cannot convert undefined or null to object")
  | _ => Ok (map fst (own_props h v))
  end.

(** [Object.assign({}, s1, ..., sn)]: a fresh object receiving the own
    properties of each source in turn; the property values are shared. *)
Definition assign_props (ps src : list (string * value)) : list (string * value) :=
  fold_left (fun acc kv => assoc_set (fst kv) (snd kv) acc) src ps.

Definition object_assign_fresh (h : heap) (sources : list value) : heap * value :=
  let ps := fold_left (fun acc s => assign_props acc (own_props h s)) sources [] in
  (h ++ [Obj ps], VRef (length h)).

(** Template-literal conversion of a value; a reference renders as a plain
    object does (an array would be joined, a regular expression printed). *)
Definition to_string (v : value) : string :=
  match v with
  | VUndef => "undefined"
  | VNull => "null"
  | VBool true => "true"
  | VBool false => "false"
  | VNum n => NilZero.string_of_int (Z.to_int n)
  | VStr s => s
  | VFun _ => "function"
  | VRef _ => "[object Object]"
  end.

(** ** Collaborators, promises and the process *)

(** What a promise-returning collaborator call comes to. *)
Inductive outcome : Type :=
| Fulfils (v : value)
| Rejects (e : jserror)
| Pends.

(** A plugin method returns a promise (or value), or throws on the spot. *)
Inductive pcall : Type :=
| PReturns (o : outcome)
| PRaises (e : jserror).

Record plugin : Type := Plugin {
  plugin_id : nat;
  setHydraExpress : pcall;
  setConfig : pcall;
  onServiceReady : pcall
}.

Inductive pstate : Type :=
| Pending
| Fulfilled (v : value)
| Rejected (e : jserror).

Abbreviation pid := nat (only parsing).

(** The handle [http.createServer(app)] returns. *)
Inductive server : Type := HttpServer.

(** Callbacks waiting in the event loop. *)
Inductive task : Type :=
| TDrain (p : pid)      (* the 1000 ms callback of [_shutdown] *)
| TClosed (p : pid)     (* the callback handed to [server.close] *)
| TWatchdog             (* the 30000 ms callback of the cleanup handler *)
| TListening.           (* the callback handed to [server.listen] *)

Inductive hydra_call : Type :=
| HGetConfigHelper
| HConfigHelperInit (path : string)
| HOnLog
| HInit (config : value) (testMode : bool)
| HRegisterService
| HRegisterRoutes (routes : list string)
| HSendToHealthLog (level message : string) (suppress : bool)
| HShutdown
| HGetServiceName
| HGetInstanceVersion.

Inductive middleware : Type :=
| MwProcessId
| MwHelmet
| MwHidePoweredBy
| MwHsts (maxAge : Z)
| MwCors (configured : bool)
| MwCorsOptions (configured : bool)
| MwBodyJson (configured : bool)
| MwBodyUrlencoded (configured : bool)
| MwStatic (appPath : string)
| MwRouter (base : string) (router : value)
| MwCatchAll
| MwNotFound
| MwErrorHandler.

Inductive event : Type :=
| EHydra (c : hydra_call)
| EAppUse (m : middleware)
| EAppSet (key : string) (v : value)
| EPlugin (id : nat) (method : string)
| ECallback (f : value)
| EReadyResolve (v : value)
| EReadyReject (e : jserror)
| EResolve (p : pid) (v : value)
| EReject (p : pid) (e : jserror)
| EEmit (name : string)
| EOn (name : string)
| ESetTimeout (ms : Z)
| ECreateServer
| EListen (port : value)
| EClose
| ELog (level : string) (entry : list (string * value))
| EExit
| EUncaught (e : jserror).

(** Answers of the black boxes. *)
Record collab : Type := Collab {
  hydra_init : value -> bool -> outcome;
  hydra_registerService : outcome;
  hydra_shutdown : outcome;
  configHelper_init : string -> outcome;
  callback_raises : nat -> option jserror;
  path_join : string -> string -> string
}.

(** The instance fields of the exported singleton, with the process state
    the module touches: 'cleanup' listeners (one [cleanupDone] flag per
    installed closure), pending callbacks, promises handed out. *)
Record world : Type := World {
  w_heap : heap;
  this_config : value;
  this_server : option server;
  this_testMode : bool;
  this_registeredPlugins : list plugin;
  this_ready : pstate;
  this_registerRoutesCallback : value;
  this_registerMiddlewareCallback : value;
  cleanup_listeners : list bool;
  timers : list (Z * task);
  now : Z;
  exited : bool;
  promises : list pstate;
  trace : list event
}.

(** [constructor()] in a fresh process. *)
Definition new_instance (h : heap) : world :=
  {| w_heap := h;
     this_config := VNull;
     this_server := None;
     this_testMode := false;
     this_registeredPlugins := [];
     this_ready := Pending;
     this_registerRoutesCallback := VUndef;
     this_registerMiddlewareCallback := VUndef;
     cleanup_listeners := [];
     timers := [];
     now := 0;
     exited := false;
     promises := [];
     trace := [] |}.

Definition set_heap (x : heap) (w : world) : world :=
  World x (this_config w) (this_server w) (this_testMode w)
    (this_registeredPlugins w) (this_ready w) (this_registerRoutesCallback w)
    (this_registerMiddlewareCallback w) (cleanup_listeners w) (timers w) (now w)
    (exited w) (promises w) (trace w).

Definition set_config (x : value) (w : world) : world :=
  World (w_heap w) x (this_server w) (this_testMode w)
    (this_registeredPlugins w) (this_ready w) (this_registerRoutesCallback w)
    (this_registerMiddlewareCallback w) (cleanup_listeners w) (timers w) (now w)
    (exited w) (promises w) (trace w).

Definition set_server (x : option server) (w : world) : world :=
  World (w_heap w) (this_config w) x (this_testMode w)
    (this_registeredPlugins w) (this_ready w) (this_registerRoutesCallback w)
    (this_registerMiddlewareCallback w) (cleanup_listeners w) (timers w) (now w)
    (exited w) (promises w) (trace w).

Definition set_testMode (x : bool) (w : world) : world :=
  World (w_heap w) (this_config w) (this_server w) x
    (this_registeredPlugins w) (this_ready w) (this_registerRoutesCallback w)
    (this_registerMiddlewareCallback w) (cleanup_listeners w) (timers w) (now w)
    (exited w) (promises w) (trace w).

Definition set_registeredPlugins (x : list plugin) (w : world) : world :=
  World (w_heap w) (this_config w) (this_server w) (this_testMode w)
    x (this_ready w) (this_registerRoutesCallback w)
    (this_registerMiddlewareCallback w) (cleanup_listeners w) (timers w) (now w)
    (exited w) (promises w) (trace w).

Definition set_ready (x : pstate) (w : world) : world :=
  World (w_heap w) (this_config w) (this_server w) (this_testMode w)
    (this_registeredPlugins w) x (this_registerRoutesCallback w)
    (this_registerMiddlewareCallback w) (cleanup_listeners w) (timers w) (now w)
    (exited w) (promises w) (trace w).

Definition set_callbacks (routes mw : value) (w : world) : world :=
  World (w_heap w) (this_config w) (this_server w) (this_testMode w)
    (this_registeredPlugins w) (this_ready w) routes mw
    (cleanup_listeners w) (timers w) (now w) (exited w) (promises w) (trace w).

Definition set_cleanup_listeners (x : list bool) (w : world) : world :=
  World (w_heap w) (this_config w) (this_server w) (this_testMode w)
    (this_registeredPlugins w) (this_ready w) (this_registerRoutesCallback w)
    (this_registerMiddlewareCallback w) x (timers w) (now w)
    (exited w) (promises w) (trace w).

Definition set_timers (x : list (Z * task)) (w : world) : world :=
  World (w_heap w) (this_config w) (this_server w) (this_testMode w)
    (this_registeredPlugins w) (this_ready w) (this_registerRoutesCallback w)
    (this_registerMiddlewareCallback w) (cleanup_listeners w) x (now w)
    (exited w) (promises w) (trace w).

Definition set_now (x : Z) (w : world) : world :=
  World (w_heap w) (this_config w) (this_server w) (this_testMode w)
    (this_registeredPlugins w) (this_ready w) (this_registerRoutesCallback w)
    (this_registerMiddlewareCallback w) (cleanup_listeners w) (timers w) x
    (exited w) (promises w) (trace w).

Definition set_exited (x : bool) (w : world) : world :=
  World (w_heap w) (this_config w) (this_server w) (this_testMode w)
    (this_registeredPlugins w) (this_ready w) (this_registerRoutesCallback w)
    (this_registerMiddlewareCallback w) (cleanup_listeners w) (timers w) (now w)
    x (promises w) (trace w).

Definition set_promises (x : list pstate) (w : world) : world :=
  World (w_heap w) (this_config w) (this_server w) (this_testMode w)
    (this_registeredPlugins w) (this_ready w) (this_registerRoutesCallback w)
    (this_registerMiddlewareCallback w) (cleanup_listeners w) (timers w) (now w)
    (exited w) x (trace w).

Definition set_trace (x : list event) (w : world) : world :=
  World (w_heap w) (this_config w) (this_server w) (this_testMode w)
    (this_registeredPlugins w) (this_ready w) (this_registerRoutesCallback w)
    (this_registerMiddlewareCallback w) (cleanup_listeners w) (timers w) (now w)
    (exited w) (promises w) x.

Definition emit (e : event) (w : world) : world := set_trace (trace w ++ [e]) w.

(** *** Synchronous code: state with exceptions *)

Definition M (A : Type) : Type := world -> result A * world.

Definition ret {A} (a : A) : M A := fun w => (Ok a, w).
Definition throw {A} (e : jserror) : M A := fun w => (Throw e, w).
Definition bind {A B} (m : M A) (k : A -> M B) : M B :=
  fun w => match m w with
           | (Ok a, w') => k a w'
           | (Throw e, w') => (Throw e, w')
           end.
Definition lift {A} (r : result A) : M A := fun w => (r, w).
Definition act (f : world -> world) : M unit := fun w => (Ok tt, f w).
Definition read {A} (f : world -> A) : M A := fun w => (Ok (f w), w).

Declare Scope js_scope.
Delimit Scope js_scope with js.
Notation "'let*' x ':=' m 'in' k" := (bind m (fun x => k))
  (at level 10, x name, m at level 100, k at level 200,
   format "'[v' 'let*'  x  ':='  m  'in' '/' k ']'") : js_scope.
Local Open Scope js_scope.

(** [this.config.k] and friends, against the current heap. *)
Definition prop (v : value) (k : string) : M value :=
  fun w => (get_prop (w_heap w) v k, w).

Definition assign (v : value) (k : string) (x : value) : M unit :=
  fun w => match set_prop (w_heap w) v k x with
           | Ok h => (Ok tt, set_heap h w)
           | Throw e => (Throw e, w)
           end.

(** *** Promises *)

Definition new_promise (w : world) : pid * world :=
  (length (promises w), set_promises (promises w ++ [Pending]) w).

(** Only a pending promise changes state. *)
Definition settle (p : pid) (s : pstate) (w : world) : world :=
  match promises w !! p with
  | Some Pending => set_promises (<[p := s]> (promises w)) w
  | _ => w
  end.

Definition resolve (p : pid) (v : value) (w : world) : world :=
  settle p (Fulfilled v) (emit (EResolve p v) w).

Definition reject (p : pid) (e : jserror) (w : world) : world :=
  settle p (Rejected e) (emit (EReject p e) w).

(** [this.ready] is a [Q.defer()]: [resolve] and [reject] on it are
    ignored once it is settled. *)
Definition ready_settle (s : pstate) (w : world) : world :=
  match this_ready w with
  | Pending => set_ready s w
  | _ => w
  end.

Definition ready_resolve (v : value) (w : world) : world :=
  ready_settle (Fulfilled v) (emit (EReadyResolve v) w).

Definition ready_reject (e : jserror) (w : world) : world :=
  ready_settle (Rejected e) (emit (EReadyReject e) w).

(** [Q.all(proms)] over promises that are settled or never will be:
    rejected by the first rejection, else pending if one pends. *)
Fixpoint q_all (proms : list outcome) : outcome :=
  match proms with
  | [] => Fulfils VUndef
  | Rejects e :: _ => Rejects e
  | Fulfils _ :: rest => q_all rest
  | Pends :: rest =>
      match q_all rest with
      | Rejects e => Rejects e
      | _ => Pends
      end
  end.

(** *** Timers and queued callbacks *)

Definition setTimeout (t : task) (ms : Z) (w : world) : world :=
  emit (ESetTimeout ms) (set_timers (timers w ++ [(now w + ms, t)%Z]) w).

(** A callback queued for the current instant; it takes its turn after the
    callbacks that are already due. *)
Definition enqueue (t : task) (w : world) : world :=
  set_timers (timers w ++ [(now w, t)]) w.

(** The callback due first, earlier registrations winning ties. *)
Fixpoint pick (ts : list (Z * task)) : option ((Z * task) * list (Z * task)) :=
  match ts with
  | [] => None
  | x :: r =>
      match pick r with
      | None => Some (x, [])
      | Some (y, r') => if (fst y <? fst x)%Z then Some (y, x :: r') else Some (x, r)
      end
  end.

(** ** [HydraExpress] *)

(** *** [validateConfig] *)

(** The literal [requiredMembers]: a required key carries a string or an
    object of required sub-keys. *)
Inductive schema : Type :=
| SStr (s : string)
| SObj (keys : list string).

Definition typeof_schema (s : schema) : string :=
  match s with SStr _ => "string" | SObj _ => "object" end.

Definition schema_keys (s : schema) : list string :=
  match s with SStr _ => [] | SObj ks => ks end.

Definition requiredMembers : list (string * schema) :=
  [ ("hydra", SObj ["serviceName"; "serviceDescription"]);
    ("registerRoutesCallback", SStr "") ].

(** The inner [forEach] over the sub-keys of one required object. *)
Fixpoint validate_members (h : heap) (config : value) (key : string)
    (keys2 : list string) (missingFields : list string) : result (list string) :=
  match keys2 with
  | [] => Ok missingFields
  | key2 :: rest =>
      match get_prop h config key with
      | Throw e => Throw e
      | Ok sub =>
          match get_prop h sub key2 with
          | Throw e => Throw e
          | Ok v =>
              validate_members h config key rest
                (if is_undefined v then missingFields ++ [key +++ "." +++ key2]
                 else missingFields)
          end
      end
  end.

(** The outer [forEach] over the required keys. *)
Fixpoint validate_keys (h : heap) (config : value)
    (members : list (string * schema)) (missingFields : list string)
  : result (list string) :=
  match members with
  | [] => Ok missingFields
  | (key, sch) :: rest =>
      let type := typeof_schema sch in
      if String.eqb type "string" then
        match get_prop h config key with
        | Throw e => Throw e
        | Ok v =>
            validate_keys h config rest
              (if is_undefined v then missingFields ++ [key] else missingFields)
        end
      else if String.eqb type "object" then
        match get_prop h config key with
        | Throw e => Throw e
        | Ok v =>
            if is_undefined v then validate_keys h config rest (missingFields ++ [key])
            else
              match validate_members h config key (schema_keys sch) missingFields with
              | Throw e => Throw e
              | Ok missingFields' => validate_keys h config rest missingFields'
              end
        end
      else validate_keys h config rest missingFields
  end.

Definition validateConfig (h : heap) (config : value) : result (list string) :=
  validate_keys h config requiredMembers [].

(** *** [log] *)

(** [log(type, message)] for a string message: the application logger, and
    for 'fatal' and 'error' the health log, always at level 'fatal'. *)
Definition log (type message : string) (w : world) : world :=
  let entry := [("event", VStr type); ("message", VStr message)] in
  if String.eqb type "fatal" then
    emit (EHydra (HSendToHealthLog "fatal" message true)) (emit (ELog "fatal" entry) w)
  else if String.eqb type "error" then
    emit (EHydra (HSendToHealthLog "fatal" message true)) (emit (ELog "error" entry) w)
  else if String.eqb type "debug" then emit (ELog "debug" entry) w
  else emit (ELog "info" entry) w.

(** *** [_shutdown], the cleanup handler and the event loop *)

Definition _shutdown (w : world) : pid * world :=
  let '(p, w) := new_promise w in
  (p, setTimeout (TDrain p) 1000 w).

(** One 'cleanup' listener, closed over its own [cleanupDone]. *)
Definition cleanup_handler (cleanupDone : bool) (w : world) : bool * world :=
  if negb cleanupDone then
    let '(_, w) := _shutdown w in
    (true, setTimeout TWatchdog 30000 w)
  else (cleanupDone, w).

Fixpoint run_cleanup_listeners (flags : list bool) (w : world) : list bool * world :=
  match flags with
  | [] => ([], w)
  | cleanupDone :: rest =>
      let '(cleanupDone', w) := cleanup_handler cleanupDone w in
      let '(rest', w) := run_cleanup_listeners rest w in
      (cleanupDone' :: rest', w)
  end.

(** [process.emit('cleanup')]: the listeners run on the spot, in the order
    they were installed. *)
Definition process_emit_cleanup (w : world) : world :=
  let w := emit (EEmit "cleanup") w in
  let '(flags, w) := run_cleanup_listeners (cleanup_listeners w) w in
  set_cleanup_listeners flags w.

(** [f && f()] for a user callback stored as [name]. *)
Definition call_if_set (c : collab) (name : string) (f : value) : M unit :=
  if truthy f then
    match f with
    | VFun id =>
        let* _ := act (emit (ECallback f)) in
        match callback_raises c id with
        | Some e => throw e
        | None => ret tt
        end
    | _ => throw (TypeError (name +++ " is not a function"))
    end
  else ret tt.

(** The callback of [server.listen]: user routes, then the catch-all, the
    not-found handler and the terminal error handler, in that order. *)
Definition listening_callback (c : collab) : M unit :=
  let* f := read this_registerRoutesCallback in
  let* _ := call_if_set c "this.registerRoutesCallback" f in
  let* _ := act (emit (EAppUse MwCatchAll)) in
  let* _ := act (emit (EAppUse MwNotFound)) in
  act (emit (EAppUse MwErrorHandler)).

(** A callback run by the event loop; what it throws is uncaught. *)
Definition uncaught (m : M unit) (w : world) : world :=
  match m w with
  | (Ok _, w') => w'
  | (Throw e, w') => emit (EUncaught e) w'
  end.

(** The 1000 ms callback: [this.server.close(cb)]. The listener is taken to
    finish closing at once, so [cb] is queued for the current instant. *)
Definition drain (p : pid) : M unit :=
  let* srv := read this_server in
  match srv with
  | None => throw (TypeError "Cannot read properties of null (reading 'close')")
  | Some _ =>
      let* _ := act (emit EClose) in
      act (enqueue (TClosed p))
  end.

(** The callback of [server.close]. *)
Definition closed (c : collab) (p : pid) (w : world) : world :=
  let w := log "error" "Service is shutting down." w in
  let w := emit (EHydra HShutdown) w in
  match hydra_shutdown c with
  | Fulfils v => resolve p v w
  | Rejects e => reject p e w
  | Pends => w
  end.

Definition run_task (c : collab) (t : task) (w : world) : world :=
  match t with
  | TDrain p => uncaught (drain p) w
  | TClosed p => closed c p w
  | TWatchdog => set_exited true (emit EExit w)
  | TListening => uncaught (listening_callback c) w
  end.

(** One turn of the event loop: the callback due first runs, unless the
    process has exited. *)
Definition tick (c : collab) (w : world) : world :=
  if exited w then w
  else match pick (timers w) with
       | None => w
       | Some ((due, t), rest) =>
           run_task c t (set_now (Z.max (now w) due) (set_timers rest w))
       end.

(** *** [initService] *)

Definition ninetyDaysInMilliseconds : Z := 7776000000.

Definition initService (c : collab) : M unit :=
  let* _ := act (emit (EAppUse MwProcessId)) in
  (* let cleanupDone = false; process.on('cleanup', ...) *)
  let* _ := act (fun w =>
      emit (EOn "cleanup") (set_cleanup_listeners (cleanup_listeners w ++ [false]) w)) in
  let* _ := act (emit (EAppUse MwHelmet)) in
  let* _ := act (emit (EHydra HGetServiceName)) in
  let* _ := act (emit (EHydra HGetInstanceVersion)) in
  let* _ := act (emit (EAppUse MwHidePoweredBy)) in
  let* _ := act (emit (EAppUse (MwHsts ninetyDaysInMilliseconds))) in
  let* config := read this_config in
  let* cors := prop config "cors" in
  let* _ := act (emit (EAppUse (MwCors (truthy cors)))) in
  let* _ := act (emit (EAppUse (MwCorsOptions (truthy cors)))) in
  let* bodyParser := prop config "bodyParser" in
  let* _ := act (emit (EAppUse (MwBodyJson (truthy bodyParser)))) in
  let* _ := act (emit (EAppUse (MwBodyUrlencoded (truthy bodyParser)))) in
  let* mw := read this_registerMiddlewareCallback in
  let* _ := call_if_set c "this.registerMiddlewareCallback" mw in
  let* publicFolder := prop config "publicFolder" in
  let* appPath :=
    if truthy publicFolder then
      match publicFolder with
      | VStr s => ret (path_join c "./" s)
      | _ => throw (TypeError "The 'path' argument must be of type string")
      end
    else ret (path_join c "./" "public") in
  let* _ := assign config "appPath" (VStr appPath) in
  let* appPath' := prop config "appPath" in
  let* _ := act (emit (EAppUse (MwStatic (to_string appPath')))) in
  let* servicePort := prop config "servicePort" in
  let* _ := act (emit (EAppSet "port" servicePort)) in
  let* _ := act (fun w => set_server (Some HttpServer) (emit ECreateServer w)) in
  let* hy := prop config "hydra" in
  let* port := prop hy "servicePort" in
  let* _ := act (emit (EListen port)) in
  act (enqueue TListening).

(** *** [start]: the promise chain *)

(** A link of a promise chain either hands a value on, fails, or never
    settles. *)
Inductive res (A : Type) : Type :=
| Done (a : A)
| Failed (e : jserror)
| Stuck.
Arguments Done {A} a.
Arguments Failed {A} e.
Arguments Stuck {A}.

Definition P (A : Type) : Type := world -> res A * world.

(** [.then(k)] *)
Definition and_then {A B} (m : P A) (k : A -> P B) : P B :=
  fun w => match m w with
           | (Done a, w') => k a w'
           | (Failed e, w') => (Failed e, w')
           | (Stuck, w') => (Stuck, w')
           end.

Definition await (o : outcome) : P value :=
  fun w => match o with
           | Fulfils v => (Done v, w)
           | Rejects e => (Failed e, w)
           | Pends => (Stuck, w)
           end.

(** Synchronous code inside a [then] callback: a throw rejects the link. *)
Definition sync {A} (m : M A) : P A :=
  fun w => match m w with
           | (Ok a, w') => (Done a, w')
           | (Throw e, w') => (Failed e, w')
           end.

Notation "'then*' x ':=' m 'in' k" := (and_then m (fun x => k))
  (at level 10, x name, m at level 100, k at level 200,
   format "'[v' 'then*'  x  ':='  m  'in' '/' k ']'") : js_scope.

(** [this.registeredPlugins.forEach(plugin => proms.push(plugin.m(..)))] *)
Fixpoint call_plugins (method : string) (sel : plugin -> pcall)
    (plugins : list plugin) (proms : list outcome) : M (list outcome) :=
  match plugins with
  | [] => ret proms
  | plugin :: rest =>
      let* _ := act (emit (EPlugin (plugin_id plugin) method)) in
      match sel plugin with
      | PReturns o => call_plugins method sel rest (proms ++ [o])
      | PRaises e => throw e
      end
  end.

(** The four [then] callbacks of [start], up to the last one, run as one
    step: a link that is pending stays so. The callback of [server.listen]
    that [initService] queues is run by the event loop ([tick]); in Node it
    fires while the chain is still in flight, so statements about the
    outcome of a run take the route callback to return. *)
Definition phases (c : collab) : P value :=
  then* config := (fun w =>
      await (hydra_init c (this_config w) (this_testMode w))
            (emit (EHydra (HInit (this_config w) (this_testMode w))) w)) in
  then* proms := sync (
      let* _ := act (set_config config) in
      let* plugins := read this_registeredPlugins in
      call_plugins "setConfig" setConfig plugins []) in
  then* _ := await (q_all proms) in
  then* serviceInfo := (fun w =>
      await (hydra_registerService c) (emit (EHydra HRegisterService) w)) in
  then* proms := sync (
      let* _ := initService c in
      let* plugins := read this_registeredPlugins in
      call_plugins "onServiceReady" onServiceReady plugins []) in
  then* _ := await (q_all proms) in
  (fun w => (Done serviceInfo, w)).

Definition start (c : collab) (p : pid) (w : world) : world :=
  match phases c w with
  | (Done serviceInfo, w') =>
      (* resolve(serviceInfo); this.ready.resolve(); *)
      ready_resolve VUndef (resolve p serviceInfo w')
  | (Failed err, w') =>
      (* this.ready.reject(err); process.emit('cleanup'); reject(err); *)
      reject p err (process_emit_cleanup (ready_reject err w'))
  | (Stuck, w') => w'
  end.

(** *** [_init] *)

(** [config.hydra.k = config.hydra.k || d] *)
Definition default_hydra_field (config : value) (k : string) (d : value) : M unit :=
  let* hy := prop config "hydra" in
  let* hy' := prop config "hydra" in
  let* x := prop hy' k in
  assign hy k (js_or x d).

(** The three defaults [_init] writes into the hydra block. *)
Definition apply_defaults (config : value) : M unit :=
  let* _ := default_hydra_field config "serviceIP" (VStr "") in
  let* _ := default_hydra_field config "servicePort" (VNum 0) in
  default_hydra_field config "serviceType" (VStr "").

(** The branch of [_init] taken by a configuration that passed every
    check: capture it and listen to hydra's log events ... *)
Definition capture (config : value) : M unit :=
  let* version := prop config "version" in
  let* hy := prop config "hydra" in
  let* _ := assign hy "serviceVersion" version in
  let* _ := act (set_config config) in
  let* this_cfg := read this_config in
  let* this_cfg' := read this_config in
  let* environment := prop this_cfg' "environment" in
  let* _ := assign this_cfg "environment" (js_or environment (VStr "development")) in
  let* routes := prop config "registerRoutesCallback" in
  let* mw := prop config "registerMiddlewareCallback" in
  let* _ := act (set_callbacks routes mw) in
  act (emit (EHydra HOnLog)).

(** ... then start. *)
Definition capture_and_start (c : collab) (config : value) (p : pid) : M unit :=
  let* _ := capture config in
  act (start c p).

(** The checks of [_init] that follow the defaults. *)
Definition init_checked (c : collab) (config : value) (p : pid) : M unit :=
  let* missingFields := (fun w => (validateConfig (w_heap w) config, w)) in
  if negb (Nat.eqb (length missingFields) 0) then
    act (reject p (Error ("Config missing fields: "
                            +++ String.concat " " missingFields)))
  else
    let* routes := prop config "registerRoutesCallback" in
    if negb (truthy routes) then
      act (reject p (Error "Config missing registerRoutesCallback parameter"))
    else capture_and_start c config p.

(** The executor handed to [new Promise] by [_init]. *)
Definition init_executor (c : collab) (config : value) (p : pid) : M unit :=
  let* hy := prop config "hydra" in
  if negb (truthy hy) then act (reject p (Error "Config missing hydra block"))
  else
    let* hy' := prop config "hydra" in
    let* redis := prop hy' "redis" in
    if negb (truthy redis) then act (reject p (Error "Config missing redis block"))
    else
      let* _ := apply_defaults config in
      init_checked c config p.

(** [_init(config)]: a throw inside the executor rejects the promise. *)
Definition _init (c : collab) (config : value) (w : world) : pid * world :=
  let '(p, w) := new_promise w in
  match init_executor c config p w with
  | (Ok _, w') => (p, w')
  | (Throw e, w') => (p, reject p e w')
  end.

(** ** [IHydraExpress] *)

(** The [inner] object [init] builds from its positional arguments. *)
Definition init_inner (version registerRoutesCallback registerMiddlewareCallback : value)
  : list (string * value) :=
  let is_fn := String.eqb (typeof version) "function" in
  let routes := if is_fn then version else registerRoutesCallback in
  let mw := if is_fn then registerRoutesCallback else registerMiddlewareCallback in
  (if is_fn then [] else if truthy version then [("version", version)] else [])
  ++ (if truthy routes then [("registerRoutesCallback", routes)] else [])
  ++ (if truthy mw then [("registerMiddlewareCallback", mw)] else []).

(** [Object.assign({}, config, inner)] *)
Definition merged_props (h : heap) (config : value) (inner : list (string * value))
  : list (string * value) :=
  assign_props (assign_props [] (own_props h config)) inner.

(** [init] on anything but a string. *)
Definition init_object (c : collab)
    (config version registerRoutesCallback registerMiddlewareCallback : value)
  : M pid :=
  let inner := init_inner version registerRoutesCallback registerMiddlewareCallback in
  let* testMode := prop config "testMode" in
  let* _ := if strict_eq testMode (VBool true) then act (set_testMode true) else ret tt in
  fun w =>
    let merged := VRef (length (w_heap w)) in
    let w := set_heap (w_heap w ++ [Obj (merged_props (w_heap w) config inner)]) w in
    let '(p, w) := _init c merged w in
    (Ok p, w).

(** [init(config, version, registerRoutesCallback, registerMiddlewareCallback)].
    A string is a path for hydra's config helper, whose [getObject()]
    hands back a loaded object; whatever fails on that route is reported
    as a load failure. *)
Definition init (c : collab)
    (config version registerRoutesCallback registerMiddlewareCallback : value)
  : M pid :=
  match config with
  | VStr path =>
      let* _ := act (emit (EHydra HGetConfigHelper)) in
      let* _ := act (emit (EHydra (HConfigHelperInit path))) in
      fun w =>
        let '(outer, w) := new_promise w in
        let failure := Error ("Unable to load config from " +++ path) in
        match configHelper_init c path with
        | Pends => (Ok outer, w)
        | Rejects _ => (Ok outer, reject outer failure w)
        | Fulfils loaded =>
            match loaded with
            | VRef _ =>
                match init_object c loaded version registerRoutesCallback
                        registerMiddlewareCallback w with
                | (Throw _, w') => (Ok outer, reject outer failure w')
                | (Ok p, w') =>
                    match promises w' !! p with
                    | Some (Fulfilled v) => (Ok outer, resolve outer v w')
                    | Some (Rejected _) => (Ok outer, reject outer failure w')
                    | _ => (Ok outer, w')
                    end
                end
            | _ => (Ok outer, reject outer failure w)
            end
        end
  | _ => init_object c config version registerRoutesCallback registerMiddlewareCallback
  end.

Definition shutdown (w : world) : pid * world := _shutdown w.

(** *** [getRuntimeConfig] *)

(** [Object.assign({}, this.config)] *)
Definition getRuntimeConfig (w : world) : value * world :=
  let '(h, copy) := object_assign_fresh (w_heap w) [this_config w] in
  (copy, set_heap h w).

(** *** [use] and [_registerPlugin] *)

Definition _registerPlugin (plugin : plugin) : M outcome :=
  let* _ := act (fun w =>
      set_registeredPlugins (this_registeredPlugins w ++ [plugin]) w) in
  let* _ := act (emit (EPlugin (plugin_id plugin) "setHydraExpress")) in
  match setHydraExpress plugin with
  | PReturns o => ret o
  | PRaises e => throw e
  end.

(** The identifiers bound at the top of [src/index.js], and the globals of
    a Node module the file refers to. *)
Definition module_scope : list string :=
  [ "debug"; "Q"; "hydra"; "Utils"; "ServerResponse"; "serverResponse";
    "bodyParser"; "cors"; "express"; "helmet"; "http"; "path"; "app";
    "defaultLogger"; "HydraExpress"; "IHydraExpress";
    "require"; "module"; "process"; "console"; "Object"; "Promise"; "Error";
    "setTimeout"; "__dirname" ].

Definition bound (scope : list string) (x : string) : bool :=
  existsb (String.eqb x) scope.

(** [_.each(plugins, plugin => proms.push(this._registerPlugin(plugin)))] *)
Fixpoint each_register (plugins : list plugin) (proms : list outcome)
  : M (list outcome) :=
  match plugins with
  | [] => ret proms
  | plugin :: rest =>
      let* o := _registerPlugin plugin in
      each_register rest (proms ++ [o])
  end.

(** [use(...plugins)] evaluated where [scope] holds the bound identifiers:
    reading an unbound [_] throws before anything else happens. *)
Definition use_in (scope : list string) (plugins : list plugin) : M outcome :=
  if bound scope "_" then
    let* proms := each_register plugins [] in
    ret (q_all proms)
  else throw (ReferenceError "_ is not defined").

Definition use (plugins : list plugin) : M outcome := use_in module_scope plugins.

(** *** [_registerRoutes] and [registerRoutes] *)

(** [x.forEach]: only an array has it. *)
Definition for_each_elems (x : value) : M (list value) :=
  match x with
  | VUndef | VNull =>
      throw (TypeError ("Cannot read properties of " +++ describe x
                        +++ " (reading 'forEach')"))
  | VRef l =>
      fun w => match w_heap w !! l with
               | Some (Arr es) => (Ok es, w)
               | _ => (Throw (TypeError "forEach is not a function"), w)
               end
  | _ => throw (TypeError "forEach is not a function")
  end.

Fixpoint each_method (routePath : string) (routeInfo : value)
    (methods : list string) (routesList : list string) : M (list string) :=
  match methods with
  | [] => ret routesList
  | method :: rest =>
      let* path := prop routeInfo "path" in
      each_method routePath routeInfo rest
        (routesList ++ ["[" +++ method +++ "]" +++ routePath +++ to_string path])
  end.

Fixpoint each_layer (routePath : string) (stack : list value)
    (routesList : list string) : M (list string) :=
  match stack with
  | [] => ret routesList
  | route :: rest =>
      let* routeInfo := prop route "route" in
      let* routesList' :=
        if truthy routeInfo then
          let* methods := prop routeInfo "methods" in
          let* keys := (fun w => (object_keys (w_heap w) methods, w)) in
          each_method routePath routeInfo keys routesList
        else ret routesList in
      each_layer routePath rest routesList'
  end.

Fixpoint each_route_path (routes : value) (routePaths : list string)
    (routesList : list string) : M (list string) :=
  match routePaths with
  | [] => ret routesList
  | routePath :: rest =>
      let* router := prop routes routePath in
      let* stack := prop router "stack" in
      let* layers := for_each_elems stack in
      let* routesList' := each_layer routePath layers routesList in
      let* router' := prop routes routePath in
      let* _ := act (emit (EAppUse (MwRouter routePath router'))) in
      each_route_path routes rest routesList'
  end.

Definition _registerRoutes (routes : value) : M unit :=
  let* routePaths := (fun w => (object_keys (w_heap w) routes, w)) in
  let* routesList := each_route_path routes routePaths [] in
  act (emit (EHydra (HRegisterRoutes routesList))).

(** [registerRoutes(routeBaseUrl, api)] passes both on, and
    [_registerRoutes(routes)] takes the first. *)
Definition registerRoutes (routeBaseUrl api : value) : M unit :=
  _registerRoutes routeBaseUrl.

(** *** The terminal error handler *)

(** Modelled from the spec: the status constants of hydra's
    [ServerResponse] helper, which is not part of this repository's
    sources: the not-found code and the internal-server-error code. *)
Definition HTTP_NOT_FOUND : value := VNum 404.
Definition HTTP_SERVER_ERROR : value := VNum 500.

(** What the handler reads off the error it is given. *)
Record request_error : Type := RequestError {
  e_status : value;
  e_name : value;
  e_stack : value
}.

Record response : Type := Response {
  res_status : value;
  res_json : list (string * value)
}.

(** [res.status(errCode).json({code: errCode})] goes through express to
    Node's [http], neither of them part of this repository: the call
    answers, or it throws when the HTTP layer refuses the status (Node
    takes no status code outside 100..999). [refuses] is the layer's
    verdict on a status: the error it throws, if any. The log entry is
    written before the call. *)
Definition error_handler (refuses : value -> option jserror)
    (err : request_error) (w : world) : result response * world :=
  let errCode := js_or (e_status err) HTTP_SERVER_ERROR in
  let w :=
    if negb (strict_eq (e_status err) HTTP_NOT_FOUND) then
      emit (ELog "fatal" [("event", VStr "error"); ("error", e_name err);
                          ("stack", e_stack err)]) w
    else w in
  match refuses errCode with
  | Some e => (Throw e, w)
  | None => (Ok {| res_status := errCode; res_json := [("code", errCode)] |}, w)
  end.

(** ** Vocabulary of the statements *)

#[global] Instance hydra_call_eq_dec : EqDecision hydra_call.
Proof. solve_decision. Defined.

#[global] Instance middleware_eq_dec : EqDecision middleware.
Proof. solve_decision. Defined.

#[global] Instance event_eq_dec : EqDecision event.
Proof. solve_decision. Defined.

#[global] Instance pstate_eq_dec : EqDecision pstate.
Proof. solve_decision. Defined.


Definition is_hydra (e : event) : bool :=
  match e with EHydra _ => true | _ => false end.

(** The calls made to the discovery client, in order. *)
Definition hydra_calls (t : list event) : list event := List.filter is_hydra t.

(** *** Configurations *)

(** The registry connection block: [config.hydra.redis], read the way
    [_init] tests it. *)
Definition has_registry_block (h : heap) (config : value) : bool :=
  match get_prop h config "hydra" with
  | Ok hy =>
      truthy hy &&
      match get_prop h hy "redis" with
      | Ok redis => truthy redis
      | Throw _ => false
      end
  | Throw _ => false
  end.

(** The required fields as the specification lists them, as paths. *)
Definition required_paths : list (list string) :=
  [ ["hydra"; "serviceName"]; ["hydra"; "serviceDescription"];
    ["registerRoutesCallback"] ].

Definition dotted (path : list string) : string := String.concat "." path.

(** The value found by following a path; nothing is found below a value
    that cannot be read. *)
Fixpoint read_path (h : heap) (v : value) (path : list string) : value :=
  match path with
  | [] => v
  | k :: rest =>
      match get_prop h v k with
      | Ok x => read_path h x rest
      | Throw _ => VUndef
      end
  end.

Definition absent (h : heap) (config : value) (path : list string) : bool :=
  is_undefined (read_path h config path).

(** The dotted paths of the required fields absent from a configuration. *)
Definition missing_required (h : heap) (config : value) : list string :=
  map dotted (List.filter (absent h config) required_paths).

(** A configuration that gets through every check of [_init]. *)
Definition passes_validation (h : heap) (config : value) : bool :=
  has_registry_block h config &&
  match validateConfig h config with
  | Ok [] =>
      match get_prop h config "registerRoutesCallback" with
      | Ok routes => truthy routes
      | Throw _ => false
      end
  | _ => false
  end.

(** A well-formed heap: no object lists a property twice, and every
    reference held by an object points into the heap. *)
Fixpoint distinct_keys (ks : list string) : bool :=
  match ks with
  | [] => true
  | k :: rest => negb (existsb (String.eqb k) rest) && distinct_keys rest
  end.

Definition value_ok (n : nat) (v : value) : bool :=
  match v with
  | VRef l => Nat.ltb l n
  | _ => true
  end.

Definition object_wf (n : nat) (o : object) : bool :=
  match o with
  | Obj ps => distinct_keys (map fst ps) && forallb (value_ok n) (map snd ps)
  | Arr es => forallb (value_ok n) es
  end.

Definition heap_wf (h : heap) : bool := forallb (object_wf (length h)) h.

(** A key that starts with a letter is no index. *)
Definition identifier (k : string) : Prop :=
  match k with
  | String c _ => ~ In c ["0"; "1"; "2"; "3"; "4"; "5"; "6"; "7"; "8"; "9"]%char
  | EmptyString => True
  end.

(** *** Startup runs *)

(** What [_init] does to a configuration that passes validation before it
    calls [start]. *)
Definition init_prepare (config : value) : M unit :=
  let* _ := apply_defaults config in
  capture config.


(** Events that settle, or try to settle, a promise or the ready signal. *)
Definition is_ready_event (e : event) : bool :=
  match e with EReadyResolve _ | EReadyReject _ => true | _ => false end.

Definition settles (p : pid) (e : event) : bool :=
  match e with
  | EResolve q _ | EReject q _ => Nat.eqb q p
  | _ => false
  end.

Definition is_settle (e : event) : bool :=
  match e with
  | EReadyResolve _ | EReadyReject _ | EResolve _ _ | EReject _ _ => true
  | _ => false
  end.

(** A stretch of execution that settles nothing. *)
Definition quiet (w w' : world) : Prop :=
  promises w' = promises w /\ this_ready w' = this_ready w /\
  exists d, trace w' = trace w ++ d /\ existsb is_settle d = false.

(** Relations between worlds that synchronous code can be framed by:
    reflexive, transitive, and blind to heap writes. *)
Record frame (R : world -> world -> Prop) : Prop := Frame {
  frame_refl : forall w, R w w;
  frame_trans : forall a b c, R a b -> R b c -> R a c;
  frame_heap : forall h w, R w (set_heap h w)
}.

Definition keeps (R : world -> world -> Prop) {A} (m : M A) : Prop :=
  forall w, R w (snd (m w)).

Definition keepsP (R : world -> world -> Prop) {A} (m : P A) : Prop :=
  forall w, R w (snd (m w)).

(** Two heaps of the same size that read alike at every key outside [ks]. *)
Definition agree_off (ks : list string) (h h' : heap) : Prop :=
  length h' = length h /\
  forall v k, ~ In k ks -> get_prop h' v k = get_prop h v k.

(** The keys [_init] fills in with defaults. *)
Definition defaulted_keys : list string := ["serviceIP"; "servicePort"; "serviceType"].

(** ** Sample inputs *)

(** Collaborators that always succeed; [serviceInfo] is the value hydra's
    registration resolves with. *)
Definition friendly (serviceInfo : value) : collab :=
  {| hydra_init := fun config _ => Fulfils config;
     hydra_registerService := Fulfils serviceInfo;
     hydra_shutdown := Fulfils VUndef;
     configHelper_init := fun _ => Pends;
     callback_raises := fun _ => None;
     path_join := fun _ b => b |}.

(** [{hydra: {serviceName: 'svc', redis: {url: ...}}}]: no description, no
    route callback. *)
Definition incomplete_heap : heap :=
  [ Obj [("hydra", VRef 1)];
    Obj [("serviceName", VStr "svc"); ("redis", VRef 2)];
    Obj [("url", VStr "redis://127.0.0.1:6379/15")] ].

(** [{hydra: {serviceName: 'svc', serviceDescription: 'd', redis: {...},
      servicePort: 0}}]: complete but for the route callback, which the
    caller means to pass to [init] as an argument. Location 3 holds the
    descriptor hydra's registration answers with. *)
Definition callbackless_heap : heap :=
  [ Obj [("hydra", VRef 1)];
    Obj [("serviceName", VStr "svc"); ("serviceDescription", VStr "d");
         ("redis", VRef 2); ("servicePort", VNum 0)];
    Obj [("url", VStr "redis://127.0.0.1:6379/15")];
    Obj [("serviceName", VStr "svc"); ("instanceID", VStr "73909f8c96a399050f7f8de14a6e6d2e");
         ("ip", VStr "10.0.0.7"); ("port", VNum 5000)] ].

(** *** Rejections of [_init] *)

Definition block_messages : list string :=
  ["Config missing hydra block"; "Config missing redis block"].

(** The message [_init] rejects with when the registry connection block is
    missing: that of the first of the two tests to fail. *)
Definition missing_block_message (h : heap) (config : value) : string :=
  match get_prop h config "hydra" with
  | Ok hy =>
      if truthy hy then "Config missing redis block"
      else "Config missing hydra block"
  | Throw _ => "Config missing hydra block"
  end.

(** The fields of the lifecycle that a rejected [init] leaves alone. *)
Definition same_lifecycle (w w' : world) : Prop :=
  this_config w' = this_config w /\
  this_server w' = this_server w /\
  this_registeredPlugins w' = this_registeredPlugins w /\
  this_ready w' = this_ready w /\
  this_registerRoutesCallback w' = this_registerRoutesCallback w /\
  this_registerMiddlewareCallback w' = this_registerMiddlewareCallback w /\
  cleanup_listeners w' = cleanup_listeners w /\
  timers w' = timers w /\
  now w' = now w /\
  exited w' = exited w.

(** Every object of [h] is found unchanged in [h']. *)
Definition heap_extends (h h' : heap) : Prop :=
  forall l o, h !! l = Some o -> h' !! l = Some o.

(** [{testMode: true}]: no hydra block at all. *)
Definition test_only_heap : heap := [ Obj [("testMode", VBool true)] ].

(** A request error carrying the not-found status. *)
Definition not_found_error : request_error :=
  {| e_status := VNum 404; e_name := VStr "Error"; e_stack := VStr "Error: Not Found" |}.

(** A request error carrying a status no HTTP response can have. *)
Definition out_of_range_error : request_error :=
  {| e_status := VNum 1000; e_name := VStr "Error";
     e_stack := VStr "Error: quota exceeded" |}.

(** A sample HTTP layer: it answers to an integer status from 100 to 999
    and refuses every other status, a number out of range with the
    RangeError of Node's [http]. *)
Definition range_checked (status : value) : option jserror :=
  match status with
  | VNum n =>
      if ((100 <=? n) && (n <=? 999))%Z then None
      else Some (RangeError ("Invalid status code: " +++ to_string status))
  | _ => Some (TypeError "Invalid status code")
  end.

(** A plugin whose three methods succeed. *)
Definition sample_plugin (id : nat) : plugin :=
  {| plugin_id := id;
     setHydraExpress := PReturns (Fulfils VUndef);
     setConfig := PReturns (Fulfils VUndef);
     onServiceReady := PReturns (Fulfils VUndef) |}.

(** *** Caller-side mutation *)

(** [target.k1 = x1; target.k2 = x2; ...] *)
Fixpoint write_all (h : heap) (target : value) (writes : list (string * value))
  : result heap :=
  match writes with
  | [] => Ok h
  | (k, x) :: rest =>
      match set_prop h target k x with
      | Ok h' => write_all h' target rest
      | Throw e => Throw e
      end
  end.

(** A complete configuration, and the descriptor the registry hands out:
    [{hydra: {serviceName: 'svc', serviceDescription: 'd', redis: {...},
      servicePort: 0}, registerRoutesCallback: cb}]. *)
Definition complete_heap : heap :=
  [ Obj [("hydra", VRef 1); ("registerRoutesCallback", VFun 7)];
    Obj [("serviceName", VStr "svc"); ("serviceDescription", VStr "d");
         ("redis", VRef 2); ("servicePort", VNum 0)];
    Obj [("url", VStr "redis://127.0.0.1:6379/15")];
    Obj [("serviceName", VStr "svc"); ("instanceID", VStr "73909f8c96a399050f7f8de14a6e6d2e");
         ("ip", VStr "10.0.0.7"); ("port", VNum 5000)] ].

Definition descriptor : value := VRef 3.

(** An instance that holds the complete configuration as [this.config]. *)
Definition captured_world : world := set_config (VRef 0) (new_instance complete_heap).

(** The world after [init(config)] went through with friendly collaborators. *)
Definition started_world : world :=
  snd (init (friendly descriptor) (VRef 0) VUndef VUndef VUndef (new_instance complete_heap)).

(** *** Routers as express lays them out *)

(** A layer of a router's stack with a concrete route: its path and the
    keys of its [methods] table. *)
Record route_desc : Type := RouteDesc {
  rd_path : string;
  rd_methods : list string
}.

(** A layer is a route or a pure middleware mount ([None]). *)
Abbreviation layer_desc := (option route_desc) (only parsing).
Abbreviation router_desc := (list (option route_desc)) (only parsing).

Definition is_layer (h : heap) (layer : value) (d : layer_desc) : Prop :=
  match d with
  | None => exists r, get_prop h layer "route" = Ok r /\ truthy r = false
  | Some rd =>
      exists routeInfo methods,
        get_prop h layer "route" = Ok routeInfo /\ truthy routeInfo = true /\
        get_prop h routeInfo "path" = Ok (VStr (rd_path rd)) /\
        get_prop h routeInfo "methods" = Ok methods /\
        object_keys h methods = Ok (rd_methods rd)
  end.

Definition is_router (h : heap) (router : value) (d : router_desc) : Prop :=
  exists l layers,
    get_prop h router "stack" = Ok (VRef l) /\ h !! l = Some (Arr layers) /\
    Forall2 (is_layer h) layers d.

(** A routes object: route base paths, in key order, each with its router. *)
Definition is_routes (h : heap) (routes : value)
    (d : list (string * value * router_desc)) : Prop :=
  object_keys h routes = Ok (map (fun x => fst (fst x)) d) /\
  Forall (fun x => get_prop h routes (fst (fst x)) = Ok (snd (fst x)) /\
                   is_router h (snd (fst x)) (snd x)) d.

(** The strings one router contributes under a base path. *)
Definition route_strings (base : string) (d : router_desc) : list string :=
  flat_map (fun layer =>
              match layer with
              | None => []
              | Some rd =>
                  map (fun method => "[" +++ method +++ "]" +++ base +++ rd_path rd)
                      (rd_methods rd)
              end) d.

Definition advertised (d : list (string * value * router_desc)) : list string :=
  flat_map (fun x => route_strings (fst (fst x)) (snd x)) d.

Definition mounts (d : list (string * value * router_desc)) : list event :=
  map (fun x => EAppUse (MwRouter (fst (fst x)) (snd (fst x)))) d.

(** [{'/v1': router}] where the router's stack holds a middleware layer
    and a route [/list] answering GET and POST. *)
Definition routes_heap : heap :=
  [ Obj [("/v1", VRef 1)];
    Obj [("stack", VRef 2)];
    Arr [VRef 3; VRef 4];
    Obj [("name", VStr "jsonParser"); ("route", VUndef)];
    Obj [("name", VStr "bound dispatch"); ("route", VRef 5)];
    Obj [("path", VStr "/list"); ("methods", VRef 6)];
    Obj [("get", VBool true); ("post", VBool true)] ].

Definition routes_desc : list (string * value * router_desc) :=
  [ ("/v1", VRef 1, [None; Some (RouteDesc "/list" ["get"; "post"])]) ].

(** ** The rest of the module *)

(** *** What [validateConfig] can report *)

(** Every entry [validateConfig] can put in its result, in the order it
    would put them. *)
Definition reportable : list string :=
  ["hydra"; "hydra.serviceName"; "hydra.serviceDescription"; "registerRoutesCallback"].

(** *** What [init] hands to [_init] *)

(** The heap once [init] has allocated [Object.assign({}, config, inner)]. *)
Definition merged_heap (h : heap) (config : value)
    (version registerRoutesCallback registerMiddlewareCallback : value) : heap :=
  h ++ [Obj (merged_props h config
               (init_inner version registerRoutesCallback registerMiddlewareCallback))].

(** The default [_init] gives each of the hydra fields it fills in. *)
Definition default_of (k : string) : value :=
  if String.eqb k "servicePort" then VNum 0 else VStr "".

(** [{hydra: {serviceName: 'svc', serviceDescription: 'd', redis: {...},
      servicePort: 8080}, registerRoutesCallback: null}]: complete but for a
    callback that is present and falsy. *)
Definition null_callback_heap : heap :=
  [ Obj [("hydra", VRef 1); ("registerRoutesCallback", VNull)];
    Obj [("serviceName", VStr "svc"); ("serviceDescription", VStr "d");
         ("redis", VRef 2); ("servicePort", VNum 8080)];
    Obj [("url", VStr "redis://127.0.0.1:6379/15")] ].

(** *** Plugin calls in a trace *)

Definition is_plugin_event (e : event) : bool :=
  match e with EPlugin _ _ => true | _ => false end.

Definition plugin_calls (t : list event) : list event := List.filter is_plugin_event t.

(** The calls of one method on each plugin of a list, in order. *)
Definition plugin_events (method : string) (plugins : list plugin) : list event :=
  map (fun pl => EPlugin (plugin_id pl) method) plugins.

(** A stretch of execution that calls no plugin and leaves the list of
    registered plugins alone. *)
Definition plugin_free (w w' : world) : Prop :=
  this_registeredPlugins w' = this_registeredPlugins w /\
  exists d, trace w' = trace w ++ d /\ existsb is_plugin_event d = false.

(** *** The cleanup signal *)

(** Listeners whose [cleanupDone] is still false. *)
Definition unfired (flags : list bool) : nat := length (List.filter negb flags).

(** The callbacks [n] firing listeners leave in the event loop, the first
    of them draining for promise [first]. *)
Definition drain_timers (t : Z) (first n : nat) : list (Z * task) :=
  flat_map (fun i => [((t + 1000)%Z, TDrain (first + i)); ((t + 30000)%Z, TWatchdog)])
           (seq 0 n).

Definition drain_events (n : nat) : list event :=
  concat (replicate n [ESetTimeout 1000; ESetTimeout 30000]).

(** An instance with two plugins registered, holding the complete
    configuration. *)
Definition two_plugins_world : world :=
  set_registeredPlugins [sample_plugin 1; sample_plugin 2] captured_world.

(** A plugin whose [setConfig] promise is rejected. *)
Definition failing_plugin (id : nat) : plugin :=
  {| plugin_id := id;
     setHydraExpress := PReturns (Fulfils VUndef);
     setConfig := PReturns (Rejects (Error "no database"));
     onServiceReady := PReturns (Fulfils VUndef) |}.

(** An instance whose second plugin rejects the configuration. *)
Definition blocked_world : world :=
  set_registeredPlugins [sample_plugin 1; failing_plugin 2] captured_world.

(** *** Mounts *)

Definition is_mount (e : event) : bool :=
  match e with EAppUse (MwRouter _ _) => true | _ => false end.

(** [{'/v1': router, '/v2': {}}]: the second entry is no router. *)
Definition half_routes_heap : heap :=
  [ Obj [("/v1", VRef 1); ("/v2", VRef 7)];
    Obj [("stack", VRef 2)];
    Arr [VRef 3; VRef 4];
    Obj [("name", VStr "jsonParser"); ("route", VUndef)];
    Obj [("name", VStr "bound dispatch"); ("route", VRef 5)];
    Obj [("path", VStr "/list"); ("methods", VRef 6)];
    Obj [("get", VBool true); ("post", VBool true)];
    Obj [] ].

(** *** Promises handed out earlier *)

(** A stretch of execution that, if the first [n] promises exist when it
    begins, keeps each of them as it is and forgets none. *)
Definition kept (n : nat) (w w' : world) : Prop :=
  n <= length (promises w) ->
  length (promises w) <= length (promises w') /\
  forall q, q < n -> promises w' !! q = promises w !! q.

(** The error [init] reports for whatever goes wrong on the way from a
    path to a running service. *)
Definition load_failure (path : string) : jserror :=
  Error ("Unable to load config from " +++ path).

(** A config helper that loads the object at location 0 for every path. *)
Definition loading (serviceInfo : value) : collab :=
  {| hydra_init := fun config _ => Fulfils config;
     hydra_registerService := Fulfils serviceInfo;
     hydra_shutdown := Fulfils VUndef;
     configHelper_init := fun _ => Fulfils (VRef 0);
     callback_raises := fun _ => None;
     path_join := fun _ b => b |}.

(** *** Process events *)

Definition is_emit (e : event) : bool :=
  match e with EEmit _ => true | _ => false end.

(** A stretch of execution that raises no process event. *)
Definition signal_free (w w' : world) : Prop :=
  exists d, trace w' = trace w ++ d /\ existsb is_emit d = false.

(** *** Promises nothing is left to settle *)


(** No listener to close, and no [server.close] callback waiting to
    settle promise [p]. *)
Definition stranded (p : pid) (w : world) : Prop :=
  this_server w = None /\ promises w !! p = Some Pending /\
  Forall (fun dt => snd dt <> TClosed p) (timers w).

(** *** A middleware callback that throws *)

(** Collaborators that answer, beside a callback (function 9) that throws. *)
Definition throwing_middleware (serviceInfo : value) : collab :=
  {| hydra_init := fun config _ => Fulfils config;
     hydra_registerService := Fulfils serviceInfo;
     hydra_shutdown := Fulfils VUndef;
     configHelper_init := fun _ => Pends;
     callback_raises := fun id =>
       if Nat.eqb id 9 then Some (Error "no session store") else None;
     path_join := fun _ b => b |}.

(** An instance that holds the complete configuration and function 9 as
    its middleware callback, with one promise handed out. *)
Definition middleware_world : world :=
  snd (new_promise (set_callbacks (VFun 7) (VFun 9) captured_world)).

(** *** What [_init] writes *)

(** The keys [_init] writes while it captures a configuration. *)
Definition captured_keys : list string := ["serviceVersion"; "environment"].

(** *** The stored route callback *)


(** *** Plugins that throw *)




(** * Properties *)

(** ** Values, objects and the heap *)

Lemma assoc_set_same k v ps : assoc k (assoc_set k v ps) = Some v.
Proof.
  induction ps as [|[k' v'] ps IH]; simpl.
  - now rewrite String.eqb_refl.
  - destruct (String.eqb k k') eqn:E; simpl; rewrite ?String.eqb_refl, ?E; auto.
Qed.

Lemma assoc_set_other k k' v ps :
  k' <> k -> assoc k' (assoc_set k v ps) = assoc k' ps.
Proof.
  intros Hne. induction ps as [|[k0 v0] ps IH]; simpl.
  - destruct (String.eqb_spec k' k); congruence.
  - destruct (String.eqb_spec k k0) as [->|Hk]; simpl.
    + destruct (String.eqb_spec k' k0); congruence.
    + destruct (String.eqb_spec k' k0); auto.
Qed.

(** An index key starts with a digit, so no identifier is one. *)
Lemma index_key_head i :
  exists c s, index_key i = String c s /\
    In c ["0"; "1"; "2"; "3"; "4"; "5"; "6"; "7"; "8"; "9"]%char.
Proof.
  unfold index_key. destruct (Nat.to_uint i); simpl; do 2 eexists;
    (split; [reflexivity | simpl; tauto]).
Qed.

Lemma key_index_sound n k i : key_index n k = Some i -> index_key i = k.
Proof.
  unfold key_index. intros H. apply find_some in H as [_ H].
  now apply String.eqb_eq.
Qed.

Lemma key_index_identifier n k : identifier k -> key_index n k = None.
Proof.
  intros Hid. destruct (key_index n k) as [i|] eqn:E; [|reflexivity].
  apply key_index_sound in E. destruct (index_key_head i) as (c & s & Hi & Hc).
  rewrite Hi in E. subst k. simpl in Hid. contradiction.
Qed.

Lemma get_prop_readable h v k x k' :
  get_prop h v k = Ok x -> exists y, get_prop h v k' = Ok y.
Proof.
  destruct v; simpl; try discriminate; intros _; eauto.
  - destruct (String.eqb k' "length"); eauto.
    destruct (key_index _ _); eauto.
  - destruct (h !! l) as [[ps|es]|]; eauto.
    destruct (String.eqb k' "length"); eauto.
    destruct (key_index _ _); eauto.
Qed.

Lemma get_prop_truthy h v k : truthy v = true -> exists y, get_prop h v k = Ok y.
Proof.
  destruct v; simpl; try discriminate; intros _; eauto.
  - destruct (String.eqb k "length"); eauto.
    destruct (key_index _ _); eauto.
  - destruct (h !! l) as [[ps|es]|]; eauto.
    destruct (String.eqb k "length"); eauto.
    destruct (key_index _ _); eauto.
Qed.

(** Only a plain object holds a truthy value under an identifier other
    than [length]. *)
Lemma get_prop_truthy_object h v k x :
  identifier k -> k <> "length" ->
  get_prop h v k = Ok x -> truthy x = true ->
  exists l ps, v = VRef l /\ h !! l = Some (Obj ps) /\ assoc k ps = Some x.
Proof.
  intros Hid Hlen Hget Hx.
  assert (Hl : String.eqb k "length" = false) by now apply String.eqb_neq.
  destruct v; simpl in Hget; try (injection Hget as <-; discriminate);
    try discriminate.
  - rewrite Hl, key_index_identifier in Hget by assumption.
    injection Hget as <-. discriminate.
  - destruct (h !! l) as [[ps|es]|] eqn:E.
    + exists l, ps. repeat split; auto.
      destruct (assoc k ps); simpl in Hget; injection Hget as <-;
        [reflexivity | discriminate].
    + rewrite Hl, key_index_identifier in Hget by assumption.
      injection Hget as <-. discriminate.
    + injection Hget as <-. discriminate.
Qed.

(** Writing property [k] of a plain object leaves every other property of
    every value as it was. *)
Lemma get_prop_insert_other h l ps k x v k' :
  h !! l = Some (Obj ps) -> k' <> k ->
  get_prop (<[l := Obj (assoc_set k x ps)]> h) v k' = get_prop h v k'.
Proof.
  intros Hl Hne. destruct v; try reflexivity. unfold get_prop.
  destruct (decide (l = l0)) as [<-|Hll].
  - rewrite list_lookup_insert_eq by (eapply lookup_lt_Some; eauto).
    rewrite Hl. now rewrite assoc_set_other.
  - now rewrite list_lookup_insert_ne.
Qed.

(** ** [validateConfig] *)

Lemma has_registry_block_inv h config :
  has_registry_block h config = true ->
  exists l ps redis,
    get_prop h config "hydra" = Ok (VRef l) /\ h !! l = Some (Obj ps) /\
    assoc "redis" ps = Some redis /\ truthy redis = true.
Proof.
  unfold has_registry_block. intros H.
  destruct (get_prop h config "hydra") as [hy|] eqn:Ehy; [|discriminate].
  apply andb_true_iff in H as [Hhy H].
  destruct (get_prop h hy "redis") as [redis|] eqn:Er; [|discriminate].
  destruct (get_prop_truthy_object h hy "redis" redis) as (l & ps & -> & Hl & Ha);
    auto; try discriminate.
  - simpl. intros [E|[E|[E|[E|[E|[E|[E|[E|[E|[E|[]]]]]]]]]]]; discriminate.
  - exists l, ps, redis. auto.
Qed.

Lemma validateConfig_missing_required h config :
  has_registry_block h config = true ->
  validateConfig h config = Ok (missing_required h config).
Proof.
  intros H. destruct (has_registry_block_inv h config H)
    as (l & ps & redis & Hhy & Hl & _ & _).
  destruct (get_prop_readable h config "hydra" _ "registerRoutesCallback" Hhy)
    as [routes Hr].
  unfold validateConfig, missing_required, absent, required_paths. simpl.
  rewrite Hhy, Hr. simpl. rewrite Hl. simpl.
  destruct (assoc "serviceName" ps) as [[]|], (assoc "serviceDescription" ps) as [[]|],
    routes; reflexivity.
Qed.

(** ** Framing synchronous code and promise chains *)

Section Framing.
Variable R : world -> world -> Prop.
Hypothesis HR : frame R.

Lemma keeps_ret {A} (a : A) : keeps R (ret a).
Proof. intros w. apply (frame_refl R HR). Qed.

Lemma keeps_throw {A} e : keeps R (@throw A e).
Proof. intros w. apply (frame_refl R HR). Qed.

Lemma keeps_read {A} (f : world -> A) : keeps R (read f).
Proof. intros w. apply (frame_refl R HR). Qed.

Lemma keeps_act f : (forall w, R w (f w)) -> keeps R (act f).
Proof. intros H w. apply H. Qed.

Lemma keeps_prop v k : keeps R (prop v k).
Proof. intros w. apply (frame_refl R HR). Qed.

Lemma keeps_pure {A} (f : world -> result A) : keeps R (fun w => (f w, w)).
Proof. intros w. apply (frame_refl R HR). Qed.

Lemma keeps_assign v k x : keeps R (assign v k x).
Proof.
  intros w. unfold assign. destruct (set_prop _ _ _ _); simpl.
  - apply (frame_heap R HR).
  - apply (frame_refl R HR).
Qed.

Lemma keeps_bind {A B} (m : M A) (k : A -> M B) :
  keeps R m -> (forall a, keeps R (k a)) -> keeps R (bind m k).
Proof.
  intros Hm Hk w. unfold bind. specialize (Hm w).
  destruct (m w) as [[a|e] w1]; simpl in *; auto.
  eapply (frame_trans R HR); eauto. apply Hk.
Qed.

Lemma keepsP_await o : keepsP R (await o).
Proof. intros w. destruct o; apply (frame_refl R HR). Qed.

Lemma keepsP_sync {A} (m : M A) : keeps R m -> keepsP R (sync m).
Proof.
  intros Hm w. unfold sync. specialize (Hm w).
  destruct (m w) as [[a|e] w1]; auto.
Qed.

Lemma keepsP_and_then {A B} (m : P A) (k : A -> P B) :
  keepsP R m -> (forall a, keepsP R (k a)) -> keepsP R (and_then m k).
Proof.
  intros Hm Hk w. unfold and_then. specialize (Hm w).
  destruct (m w) as [[a|e|] w1]; simpl in *; auto.
  eapply (frame_trans R HR); eauto. apply Hk.
Qed.

Lemma keeps_call_if_set c name f :
  (forall e w, is_settle e = false -> R w (emit e w)) ->
  keeps R (call_if_set c name f).
Proof.
  intros He. unfold call_if_set. destruct (truthy f); [|apply keeps_ret].
  destruct f; try apply keeps_throw.
  apply keeps_bind; [apply keeps_act; intros; now apply He|intros _].
  destruct (callback_raises c f); [apply keeps_throw|apply keeps_ret].
Qed.

Lemma keeps_call_plugins method sel plugins proms :
  (forall e w, is_settle e = false -> R w (emit e w)) ->
  keeps R (call_plugins method sel plugins proms).
Proof.
  intros He. revert proms. induction plugins as [|pl rest IH]; intros proms; simpl.
  - apply keeps_ret.
  - apply keeps_bind; [apply keeps_act; intros; now apply He|intros _].
    destruct (sel pl); [apply IH|apply keeps_throw].
Qed.
End Framing.

(** ** Code that settles nothing *)

Lemma quiet_silent w w' :
  promises w' = promises w -> this_ready w' = this_ready w ->
  trace w' = trace w -> quiet w w'.
Proof.
  intros Hp Hr Ht. repeat split; auto. exists []. now rewrite app_nil_r.
Qed.

Lemma quiet_event e w w' :
  promises w' = promises w -> this_ready w' = this_ready w ->
  trace w' = trace w ++ [e] -> is_settle e = false -> quiet w w'.
Proof.
  intros Hp Hr Ht He. repeat split; auto. exists [e]. simpl. now rewrite He.
Qed.

Lemma quiet_emit e w : is_settle e = false -> quiet w (emit e w).
Proof. intros He. now apply (quiet_event e). Qed.

Lemma quiet_frame : frame quiet.
Proof.
  split.
  - intros w. now apply quiet_silent.
  - intros a b c (Hp1 & Hr1 & d1 & Ht1 & Hd1) (Hp2 & Hr2 & d2 & Ht2 & Hd2).
    repeat split; try congruence.
    exists (d1 ++ d2). rewrite Ht2, Ht1, <- app_assoc. split; auto.
    rewrite existsb_app, Hd1, Hd2. reflexivity.
  - intros h w. now apply quiet_silent.
Qed.

Ltac quiet_act :=
  apply keeps_act; intros;
  first [ now apply quiet_silent
        | now (eapply quiet_event; [reflexivity | reflexivity | reflexivity | reflexivity]) ].

Ltac quiet_atom :=
  first [ apply (keeps_ret _ quiet_frame)
        | apply (keeps_throw _ quiet_frame)
        | apply (keeps_read _ quiet_frame)
        | apply (keeps_prop _ quiet_frame)
        | apply (keeps_pure _ quiet_frame)
        | apply (keeps_assign _ quiet_frame)
        | apply (keeps_call_if_set _ quiet_frame); apply quiet_emit
        | apply (keeps_call_plugins _ quiet_frame); apply quiet_emit
        | quiet_act ].

Ltac quiet_steps :=
  repeat first
    [ quiet_atom
    | apply (keeps_bind _ quiet_frame); [ | intros ]
    | match goal with
      | |- keeps _ (if ?b then _ else _) => destruct b
      | |- keeps _ (match ?x with _ => _ end) => destruct x
      end ].

Lemma initService_quiet c : keeps quiet (initService c).
Proof. unfold initService. quiet_steps. Qed.



Lemma phases_quiet c : keepsP quiet (phases c).
Proof.
  unfold phases.
  apply (keepsP_and_then _ quiet_frame).
  { intros w. destruct (hydra_init c _ _); simpl; now apply quiet_emit. }
  intros config. apply (keepsP_and_then _ quiet_frame).
  { apply keepsP_sync. quiet_steps. }
  intros proms. apply (keepsP_and_then _ quiet_frame).
  { apply (keepsP_await _ quiet_frame). }
  intros _. apply (keepsP_and_then _ quiet_frame).
  { intros w. destruct (hydra_registerService c); simpl; now apply quiet_emit. }
  intros serviceInfo. apply (keepsP_and_then _ quiet_frame).
  { apply keepsP_sync.
    apply (keeps_bind _ quiet_frame); [apply initService_quiet|intros _].
    quiet_steps. }
  intros proms'. apply (keepsP_and_then _ quiet_frame).
  { apply (keepsP_await _ quiet_frame). }
  intros _ w. apply (frame_refl _ quiet_frame).
Qed.

(** ** [_init]: the defaults leave the checked fields alone *)

Lemma agree_off_refl ks h : agree_off ks h h.
Proof. split; auto. Qed.

Lemma agree_off_trans ks h1 h2 h3 :
  agree_off ks h1 h2 -> agree_off ks h2 h3 -> agree_off ks h1 h3.
Proof.
  intros [L1 G1] [L2 G2]. split; [congruence|].
  intros v k Hk. rewrite G2, G1; auto.
Qed.

Lemma agree_off_insert ks h l ps k x :
  h !! l = Some (Obj ps) -> In k ks ->
  agree_off ks h (<[l := Obj (assoc_set k x ps)]> h).
Proof.
  intros Hl Hk. split; [apply length_insert|].
  intros v k' Hk'. apply get_prop_insert_other; auto. congruence.
Qed.

Lemma has_registry_block_agree ks h h' config :
  agree_off ks h h' -> ~ In "hydra" ks -> ~ In "redis" ks ->
  has_registry_block h' config = has_registry_block h config.
Proof.
  intros [_ G] H1 H2. unfold has_registry_block.
  rewrite G by assumption. destruct (get_prop h config "hydra"); auto.
  now rewrite G.
Qed.

Lemma validateConfig_agree ks h h' config :
  agree_off ks h h' ->
  (forall k, In k ["hydra"; "serviceName"; "serviceDescription";
                   "registerRoutesCallback"] -> ~ In k ks) ->
  validateConfig h' config = validateConfig h config.
Proof.
  intros [_ G] Hks. unfold validateConfig. simpl.
  rewrite !(G config "hydra") by (apply Hks; simpl; tauto).
  rewrite !(G config "registerRoutesCallback") by (apply Hks; simpl; tauto).
  destruct (get_prop h config "hydra") as [hy|]; [|reflexivity].
  rewrite !(G hy "serviceName") by (apply Hks; simpl; tauto).
  rewrite !(G hy "serviceDescription") by (apply Hks; simpl; tauto).
  reflexivity.
Qed.

Lemma default_hydra_field_run config k d w l ps :
  get_prop (w_heap w) config "hydra" = Ok (VRef l) ->
  w_heap w !! l = Some (Obj ps) ->
  default_hydra_field config k d w =
    (Ok tt, set_heap (<[l := Obj (assoc_set k (js_or (default VUndef (assoc k ps)) d) ps)]>
                        (w_heap w)) w).
Proof.
  intros Hhy Hl. unfold default_hydra_field, bind, prop, assign.
  rewrite Hhy. simpl. rewrite Hl. reflexivity.
Qed.

Lemma defaulted_not_checked k :
  In k ["hydra"; "redis"; "serviceName"; "serviceDescription";
        "registerRoutesCallback"] -> ~ In k defaulted_keys.
Proof.
  unfold defaulted_keys. simpl.
  intros [<-|[<-|[<-|[<-|[<-|[]]]]]] [E|[E|[E|[]]]]; discriminate.
Qed.

Lemma apply_defaults_run config w :
  has_registry_block (w_heap w) config = true ->
  exists h3, apply_defaults config w = (Ok tt, set_heap h3 w) /\
             agree_off defaulted_keys (w_heap w) h3.
Proof.
  intros H. destruct (has_registry_block_inv _ _ H) as (l & ps & r & Hhy & Hl & _).
  unfold apply_defaults, bind.
  rewrite (default_hydra_field_run _ _ _ _ l ps Hhy Hl).
  set (ps1 := assoc_set "serviceIP" _ ps).
  set (h1 := <[l := Obj ps1]> (w_heap w)).
  assert (A1 : agree_off defaulted_keys (w_heap w) h1)
    by (apply agree_off_insert; [assumption | simpl; tauto]).
  assert (Hl1 : h1 !! l = Some (Obj ps1))
    by (apply list_lookup_insert_eq; eapply lookup_lt_Some; eauto).
  assert (Hhy1 : get_prop h1 config "hydra" = Ok (VRef l)).
  { destruct A1 as [_ G]. rewrite G; auto.
    apply defaulted_not_checked; simpl; tauto. }
  rewrite (default_hydra_field_run _ _ _ (set_heap h1 w) l ps1 Hhy1 Hl1).
  simpl w_heap.
  set (ps2 := assoc_set "servicePort" _ ps1).
  set (h2 := <[l := Obj ps2]> h1).
  assert (A2 : agree_off defaulted_keys h1 h2)
    by (apply agree_off_insert; [assumption | simpl; tauto]).
  assert (Hl2 : h2 !! l = Some (Obj ps2))
    by (apply list_lookup_insert_eq; eapply lookup_lt_Some; eauto).
  assert (Hhy2 : get_prop h2 config "hydra" = Ok (VRef l)).
  { destruct A2 as [_ G]. rewrite G; auto.
    apply defaulted_not_checked; simpl; tauto. }
  rewrite (default_hydra_field_run _ _ _ (set_heap h2 (set_heap h1 w)) l ps2 Hhy2 Hl2).
  simpl w_heap.
  eexists. split; [reflexivity|].
  eapply agree_off_trans; [exact A1|]. eapply agree_off_trans; [exact A2|].
  apply agree_off_insert; [assumption | simpl; tauto].
Qed.

(** Reading and writing through a reference never throws. *)
Lemma get_prop_ref h l k : exists y, get_prop h (VRef l) k = Ok y.
Proof.
  simpl. destruct (h !! l) as [[ps|es]|]; eauto.
  destruct (String.eqb k "length"); eauto. destruct (key_index _ _); eauto.
Qed.

Lemma set_prop_ref h l k x : exists h', set_prop h (VRef l) k x = Ok h'.
Proof.
  simpl. destruct (h !! l) as [[ps|es]|]; eauto.
  destruct (key_index _ _); eauto.
Qed.

Lemma has_registry_block_ref h config :
  has_registry_block h config = true -> exists lc, config = VRef lc.
Proof.
  intros H. destruct (has_registry_block_inv _ _ H) as (l & ps & r & Hhy & _).
  destruct (get_prop_truthy_object h config "hydra" (VRef l)) as (lc & _ & -> & _);
    eauto; try discriminate.
  simpl. intros [E|[E|[E|[E|[E|[E|[E|[E|[E|[E|[]]]]]]]]]]]; discriminate.
Qed.

Lemma capture_ok config w :
  has_registry_block (w_heap w) config = true ->
  exists w', capture config w = (Ok tt, w').
Proof.
  intros H. destruct (has_registry_block_ref _ _ H) as [lc ->].
  destruct (has_registry_block_inv _ _ H) as (l & ps & r & Hhy & _).
  unfold capture, bind, prop, assign, act, read.
  destruct (get_prop_ref (w_heap w) lc "version") as [ver ->].
  rewrite Hhy.
  destruct (set_prop_ref (w_heap w) l "serviceVersion" ver) as [h1 ->].
  cbn -[get_prop set_prop].
  destruct (get_prop_ref h1 lc "environment") as [env ->].
  destruct (set_prop_ref h1 lc "environment" (js_or env (VStr "development"))) as [h2 ->].
  cbn -[get_prop set_prop].
  destruct (get_prop_ref h2 lc "registerRoutesCallback") as [rr ->].
  destruct (get_prop_ref h2 lc "registerMiddlewareCallback") as [mw ->].
  eauto.
Qed.

Lemma init_prepare_ok config w :
  has_registry_block (w_heap w) config = true ->
  exists w', init_prepare config w = (Ok tt, w').
Proof.
  intros H. destruct (apply_defaults_run config w H) as (h3 & Hrun & Hag).
  unfold init_prepare, bind. rewrite Hrun.
  apply capture_ok. simpl.
  rewrite (has_registry_block_agree defaulted_keys (w_heap w) h3); auto;
    apply defaulted_not_checked; simpl; tauto.
Qed.

(** ** Promises *)

Lemma settle_fresh s w ps :
  promises w = ps ++ [Pending] ->
  promises (settle (length ps) s w) = ps ++ [s].
Proof.
  intros Hp. unfold settle. rewrite Hp.
  rewrite list_lookup_middle by reflexivity. simpl.
  replace (length ps) with (length ps + 0) at 1 by lia.
  rewrite insert_app_r. reflexivity.
Qed.

Lemma settle_trace p s w : trace (settle p s w) = trace w.
Proof. unfold settle. destruct (promises w !! p) as [[]|]; reflexivity. Qed.

Lemma settle_ready p s w : this_ready (settle p s w) = this_ready w.
Proof. unfold settle. destruct (promises w !! p) as [[]|]; reflexivity. Qed.

Lemma reject_fresh e w ps :
  promises w = ps ++ [Pending] ->
  promises (reject (length ps) e w) = ps ++ [Rejected e] /\
  trace (reject (length ps) e w) = trace w ++ [EReject (length ps) e].
Proof.
  intros Hp. unfold reject. split.
  - now apply settle_fresh.
  - now rewrite settle_trace.
Qed.

Lemma resolve_fresh v w ps :
  promises w = ps ++ [Pending] ->
  promises (resolve (length ps) v w) = ps ++ [Fulfilled v] /\
  trace (resolve (length ps) v w) = trace w ++ [EResolve (length ps) v].
Proof.
  intros Hp. unfold resolve. split.
  - now apply settle_fresh.
  - now rewrite settle_trace.
Qed.

(** ** [_init] case by case *)

Lemma init_executor_checked c config p w :
  has_registry_block (w_heap w) config = true ->
  init_executor c config p w =
    bind (apply_defaults config) (fun _ => init_checked c config p) w.
Proof.
  intros H. unfold has_registry_block in H. unfold init_executor.
  unfold bind at 1, prop at 1.
  destruct (get_prop (w_heap w) config "hydra") as [hy|] eqn:Hhy'; [|discriminate].
  apply andb_true_iff in H as [Hhy H]. rewrite Hhy. cbn [negb].
  unfold bind at 1, prop at 1. rewrite Hhy'. unfold bind at 1, prop at 1.
  destruct (get_prop (w_heap w) hy "redis") as [redis|]; [|discriminate].
  now rewrite H.
Qed.

Lemma _init_missing_fields c config w missing :
  has_registry_block (w_heap w) config = true ->
  validateConfig (w_heap w) config = Ok missing -> missing <> [] ->
  exists h3, agree_off defaulted_keys (w_heap w) h3 /\
    _init c config w =
      (length (promises w),
       reject (length (promises w))
         (Error ("Config missing fields: " +++ String.concat " " missing))
         (set_heap h3 (snd (new_promise w)))).
Proof.
  intros H Hv Hne. unfold _init, new_promise.
  set (w1 := set_promises _ w).
  rewrite (init_executor_checked c config _ w1 H).
  destruct (apply_defaults_run config w1 H) as (h3 & Hrun & Hag).
  exists h3. split; [exact Hag|].
  unfold bind at 1. rewrite Hrun.
  unfold init_checked, bind. cbn [w_heap set_heap].
  rewrite (validateConfig_agree defaulted_keys (w_heap w) h3) by
    (auto; intros k Hk; apply defaulted_not_checked; simpl in *; tauto).
  rewrite Hv. destruct missing; [congruence|]. reflexivity.
Qed.

Lemma _init_valid c config w :
  passes_validation (w_heap w) config = true ->
  _init c config w =
    (length (promises w),
     start c (length (promises w))
       (snd (init_prepare config (snd (new_promise w))))).
Proof.
  unfold passes_validation. intros H. apply andb_true_iff in H as [H Hv].
  destruct (validateConfig (w_heap w) config) as [[|]|] eqn:Ev; try discriminate.
  destruct (get_prop (w_heap w) config "registerRoutesCallback") as [routes|] eqn:Er;
    [|discriminate].
  unfold _init, new_promise. cbn [snd]. set (w1 := set_promises _ w).
  rewrite (init_executor_checked c config _ w1 H).
  destruct (apply_defaults_run config w1 H) as (h3 & Hrun & Hag).
  change (w_heap w1) with (w_heap w) in Hag.
  unfold init_prepare, bind. rewrite Hrun.
  unfold init_checked, bind, prop. cbn [w_heap set_heap].
  rewrite (validateConfig_agree defaulted_keys (w_heap w) h3) by
    (auto; intros k Hk; apply defaulted_not_checked; simpl in *; tauto).
  rewrite Ev. cbn [length Nat.eqb negb].
  destruct Hag as [Hlen G]. rewrite G by (apply defaulted_not_checked; simpl; tauto).
  rewrite Er, Hv. cbn [negb].
  unfold capture_and_start, bind.
  assert (Hc : has_registry_block (w_heap (set_heap h3 w1)) config = true).
  { cbn [w_heap set_heap].
    rewrite (has_registry_block_agree defaulted_keys (w_heap w) h3); auto;
      try (apply defaulted_not_checked; simpl; tauto). now split. }
  destruct (capture_ok config _ Hc) as [w0 ->]. reflexivity.
Qed.

(** ** What [validateConfig] reports and how [_init] rejects on it *)

(** For a configuration holding the registry connection block,
    [validateConfig] returns exactly the dotted paths of the required
    fields that read as undefined, hence the empty list when none does;
    and when the list is not empty the promise of [_init] is rejected with
    "Config missing fields: " followed by the paths joined with single
    spaces, the rejection being the only event of the run. *)
Lemma _init_rejects_on_missing_fields c w config :
  has_registry_block (w_heap w) config = true ->
  validateConfig (w_heap w) config = Ok (missing_required (w_heap w) config) /\
  ((forall path, In path required_paths -> absent (w_heap w) config path = false) ->
   validateConfig (w_heap w) config = Ok []) /\
  (missing_required (w_heap w) config <> [] ->
   let p := fst (_init c config w) in
   let w' := snd (_init c config w) in
   let err := Error ("Config missing fields: "
                       +++ String.concat " " (missing_required (w_heap w) config)) in
   promises w !! p = None /\
   promises w' !! p = Some (Rejected err) /\
   trace w' = trace w ++ [EReject p err] /\
   hydra_calls (trace w') = hydra_calls (trace w)).
Proof.
  intros H. pose proof (validateConfig_missing_required _ _ H) as Hv.
  split; [exact Hv|]. split.
  - intros Hall. rewrite Hv. unfold missing_required.
    replace (List.filter _ required_paths) with (@nil (list string)); [reflexivity|].
    symmetry. induction required_paths as [|path ps IH]; [reflexivity|]. simpl.
    rewrite Hall by (simpl; auto). apply IH. intros q Hq. apply Hall. simpl; auto.
  - intros Hne. destruct (_init_missing_fields c config w _ H Hv Hne) as (h3 & _ & ->).
    cbn [fst snd].
    destruct (reject_fresh
                (Error ("Config missing fields: "
                          +++ String.concat " " (missing_required (w_heap w) config)))
                (set_heap h3 (set_promises (promises w ++ [Pending]) w))
                (promises w) eq_refl) as [Hp Ht].
    repeat split.
    + apply lookup_ge_None. lia.
    + unfold new_promise. cbn [snd]. rewrite Hp. now apply list_lookup_middle.
    + unfold new_promise. cbn [snd]. rewrite Ht. reflexivity.
    + unfold new_promise. cbn [snd]. rewrite Ht. cbn [trace set_heap set_promises].
      unfold hydra_calls. rewrite List.filter_app. simpl. now rewrite app_nil_r.
Qed.

(** ** Copies made by [Object.assign] *)

Lemma distinct_keys_cons k ks :
  distinct_keys (k :: ks) = true -> ~ In k ks /\ distinct_keys ks = true.
Proof.
  simpl. intros H. apply andb_true_iff in H as [H1 H2]. split; auto.
  intros Hin. apply negb_true_iff in H1.
  assert (existsb (String.eqb k) ks = true)
    by (apply existsb_exists; exists k; split; [auto | apply String.eqb_refl]).
  congruence.
Qed.

Lemma assoc_not_in k ps : ~ In k (map fst ps) -> assoc k ps = None.
Proof.
  induction ps as [|[k' v] ps IH]; simpl; auto.
  intros H. destruct (String.eqb_spec k k') as [->|]; [tauto|]. apply IH. tauto.
Qed.

Lemma assoc_assign_props k acc src :
  distinct_keys (map fst src) = true ->
  assoc k (assign_props acc src) =
    match assoc k src with
    | Some v => Some v
    | None => assoc k acc
    end.
Proof.
  unfold assign_props. revert acc.
  induction src as [|[k1 v1] src IH]; intros acc Hd; [reflexivity|].
  apply distinct_keys_cons in Hd as [Hk1 Hd]. simpl.
  rewrite IH by assumption.
  destruct (String.eqb_spec k k1) as [->|Hne].
  - rewrite (assoc_not_in k1 src Hk1). apply assoc_set_same.
  - destruct (assoc k src); [reflexivity|]. now apply assoc_set_other.
Qed.

Lemma heap_wf_lookup h l o : heap_wf h = true -> h !! l = Some o -> object_wf (length h) o = true.
Proof.
  unfold heap_wf. intros Hwf Hl. rewrite forallb_forall in Hwf.
  apply Hwf. apply list_elem_of_In. eapply list_elem_of_lookup_2; eauto.
Qed.

Lemma assoc_in k ps v : assoc k ps = Some v -> In v (map snd ps).
Proof.
  induction ps as [|[k' v'] ps IH]; simpl; [discriminate|].
  destruct (String.eqb k k'); [intros [= ->]; auto | auto].
Qed.

(** What is read off an object of a well-formed heap points into the heap. *)
Lemma get_prop_object_ok h l ps k x :
  heap_wf h = true -> h !! l = Some (Obj ps) ->
  get_prop h (VRef l) k = Ok x -> value_ok (length h) x = true.
Proof.
  intros Hwf Hl. simpl. rewrite Hl. intros [= <-].
  destruct (assoc k ps) as [v|] eqn:E; [|reflexivity]. simpl.
  apply heap_wf_lookup with (l := l) (o := Obj ps) in Hwf; auto.
  simpl in Hwf. apply andb_true_iff in Hwf as [_ Hv].
  rewrite forallb_forall in Hv. apply Hv. eapply assoc_in; eauto.
Qed.

(** Allocating does not disturb what is read through values of the old heap. *)
Lemma get_prop_alloc h o v k :
  value_ok (length h) v = true -> get_prop (h ++ [o]) v k = get_prop h v k.
Proof.
  destruct v; simpl; auto. intros Hl. apply Nat.ltb_lt in Hl.
  now rewrite lookup_app_l.
Qed.

Lemma get_prop_fresh h ps k :
  get_prop (h ++ [Obj ps]) (VRef (length h)) k = Ok (default VUndef (assoc k ps)).
Proof. simpl. now rewrite list_lookup_middle. Qed.

Lemma init_inner_distinct version routes mw :
  distinct_keys (map fst (init_inner version routes mw)) = true.
Proof.
  unfold init_inner.
  destruct (String.eqb (typeof version) "function"), (truthy version),
    (truthy routes), (truthy mw); reflexivity.
Qed.

Lemma init_inner_keys version routes mw k :
  k <> "version" -> k <> "registerRoutesCallback" ->
  k <> "registerMiddlewareCallback" ->
  assoc k (init_inner version routes mw) = None.
Proof.
  intros H1 H2 H3. apply assoc_not_in. unfold init_inner.
  destruct (String.eqb (typeof version) "function"), (truthy version),
    (truthy routes), (truthy mw); simpl; intuition congruence.
Qed.

(** The merged configuration reads like the original at every key [init]
    does not supply itself. *)
Lemma merged_props_other h lc psc version routes mw k :
  heap_wf h = true -> h !! lc = Some (Obj psc) ->
  k <> "version" -> k <> "registerRoutesCallback" ->
  k <> "registerMiddlewareCallback" ->
  assoc k (merged_props h (VRef lc) (init_inner version routes mw)) = assoc k psc.
Proof.
  intros Hwf Hl H1 H2 H3. unfold merged_props.
  rewrite assoc_assign_props by apply init_inner_distinct.
  rewrite init_inner_keys by assumption.
  simpl. rewrite Hl.
  rewrite assoc_assign_props.
  - now destruct (assoc k psc).
  - apply heap_wf_lookup with (l := lc) (o := Obj psc) in Hwf; auto.
    simpl in Hwf. now apply andb_true_iff in Hwf as [Hd _].
Qed.

Lemma merged_registry_block h lc psc version routes mw :
  heap_wf h = true -> h !! lc = Some (Obj psc) ->
  let merged := Obj (merged_props h (VRef lc) (init_inner version routes mw)) in
  has_registry_block (h ++ [merged]) (VRef (length h)) = has_registry_block h (VRef lc) /\
  missing_block_message (h ++ [merged]) (VRef (length h))
    = missing_block_message h (VRef lc).
Proof.
  intros Hwf Hl merged. unfold has_registry_block, missing_block_message.
  subst merged. rewrite get_prop_fresh.
  rewrite (merged_props_other h lc psc) by (auto; discriminate).
  assert (Hget : get_prop h (VRef lc) "hydra" = Ok (default VUndef (assoc "hydra" psc)))
    by (simpl; now rewrite Hl).
  rewrite Hget. split; [|reflexivity].
  rewrite get_prop_alloc; [reflexivity|].
  eapply get_prop_object_ok; eauto.
Qed.

(** ** C3: a missing registry connection block *)

Lemma bind_prop {B} v k x (f : value -> M B) w :
  get_prop (w_heap w) v k = Ok x -> bind (prop v k) f w = f x w.
Proof. intros H. unfold bind, prop. now rewrite H. Qed.

Lemma _init_missing_block c lc w :
  has_registry_block (w_heap w) (VRef lc) = false ->
  _init c (VRef lc) w =
    (length (promises w),
     reject (length (promises w))
       (Error (missing_block_message (w_heap w) (VRef lc)))
       (snd (new_promise w))).
Proof.
  unfold has_registry_block, missing_block_message, _init, new_promise.
  cbn [snd]. set (w1 := set_promises _ w). unfold init_executor.
  destruct (get_prop_ref (w_heap w) lc "hydra") as [hy Ehy]. rewrite Ehy.
  rewrite (bind_prop _ _ hy) by exact Ehy.
  destruct (truthy hy) eqn:Hhy; cbn [negb andb]; [|reflexivity].
  rewrite (bind_prop _ _ hy) by exact Ehy.
  destruct (get_prop_truthy (w_heap w) hy "redis" Hhy) as [redis Er]. rewrite Er.
  intros Hr. rewrite (bind_prop _ _ redis) by exact Er.
  rewrite Hr. reflexivity.
Qed.

Lemma block_message_distinct m :
  In m block_messages ->
  (forall missing, m <> "Config missing fields: " +++ String.concat " " missing) /\
  m <> "Config missing registerRoutesCallback parameter".
Proof.
  unfold block_messages. simpl.
  intros [<-|[<-|[]]]; split; try discriminate; intros missing; simpl; discriminate.
Qed.

Lemma missing_block_message_in h config : In (missing_block_message h config) block_messages.
Proof.
  unfold missing_block_message, block_messages.
  destruct (get_prop h config "hydra") as [hy|]; [destruct (truthy hy)|]; simpl; auto.
Qed.

Lemma init_object_run c lc psc version routes mw w :
  w_heap w !! lc = Some (Obj psc) ->
  let latch := strict_eq (default VUndef (assoc "testMode" psc)) (VBool true) in
  let w1 := if latch then set_testMode true w else w in
  let merged := Obj (merged_props (w_heap w) (VRef lc) (init_inner version routes mw)) in
  init c (VRef lc) version routes mw w =
    (Ok (fst (_init c (VRef (length (w_heap w))) (set_heap (w_heap w ++ [merged]) w1))),
     snd (_init c (VRef (length (w_heap w))) (set_heap (w_heap w ++ [merged]) w1))).
Proof.
  intros Hl latch w1 merged. unfold init, init_object.
  rewrite (bind_prop _ _ (default VUndef (assoc "testMode" psc)))
    by (simpl; now rewrite Hl).
  fold latch. subst w1 merged. unfold bind.
  destruct latch; cbn [act ret]; cbn [w_heap set_testMode];
    destruct (_init _ _ _); reflexivity.
Qed.

(** C3, amended. For every configuration object without the registry
    connection block, [init] rejects its promise with 'Config missing
    hydra block' or 'Config missing redis block', neither of which the
    required-field walk or the callback check can produce; the rejection
    is the only event of the run (no call to the discovery client), the
    objects of the heap and the captured lifecycle state are as before,
    and the one thing done before the rejection is to latch the test-mode
    flag when [config.testMode === true]. *)
Theorem init_rejects_missing_block c w lc psc version routes mw :
  heap_wf (w_heap w) = true ->
  w_heap w !! lc = Some (Obj psc) ->
  has_registry_block (w_heap w) (VRef lc) = false ->
  let r := init c (VRef lc) version routes mw w in
  let p := length (promises w) in
  let m := missing_block_message (w_heap w) (VRef lc) in
  fst r = Ok p /\
  promises (snd r) = promises w ++ [Rejected (Error m)] /\
  trace (snd r) = trace w ++ [EReject p (Error m)] /\
  In m block_messages /\
  (forall missing, m <> "Config missing fields: " +++ String.concat " " missing) /\
  m <> "Config missing registerRoutesCallback parameter" /\
  heap_extends (w_heap w) (w_heap (snd r)) /\
  same_lifecycle w (snd r) /\
  this_testMode (snd r) =
    this_testMode w || strict_eq (default VUndef (assoc "testMode" psc)) (VBool true).
Proof.
  intros Hwf Hl Hmiss r p m.
  destruct (merged_registry_block (w_heap w) lc psc version routes mw Hwf Hl)
    as [Hb Hm].
  subst r. rewrite (init_object_run c lc psc version routes mw w Hl).
  set (latch := strict_eq _ _).
  set (w1 := if latch then set_testMode true w else w).
  set (merged := Obj (merged_props _ _ _)) in *.
  assert (Hh1 : w_heap w1 = w_heap w) by (subst w1; now destruct latch).
  assert (Hp1 : promises w1 = promises w) by (subst w1; now destruct latch).
  assert (Ht1 : trace w1 = trace w) by (subst w1; now destruct latch).
  set (w2 := set_heap (w_heap w ++ [merged]) w1).
  rewrite (_init_missing_block c (length (w_heap w)) w2)
    by (subst w2; cbn [w_heap set_heap]; now rewrite Hb).
  cbn [fst snd]. replace (promises w2) with (promises w) by (now rewrite <- Hp1).
  replace (missing_block_message (w_heap w2) (VRef (length (w_heap w)))) with m
    by (subst w2 m; cbn [w_heap set_heap]; now rewrite Hm).
  destruct (reject_fresh (Error m) (snd (new_promise w2)) (promises w))
    as [Hp Ht].
  { unfold new_promise. cbn [snd promises set_promises]. subst w2.
    cbn [promises set_heap]. now rewrite Hp1. }
  fold p in Hp, Ht |- *.
  destruct (block_message_distinct m (missing_block_message_in _ _)) as [Hd1 Hd2].
  assert (Hcase : forall (Q : world -> Prop),
             Q (set_promises (<[p := Rejected (Error m)]> (promises w ++ [Pending]))
                  (emit (EReject p (Error m)) (snd (new_promise w2)))) ->
             Q (reject p (Error m) (snd (new_promise w2)))).
  { intros Q HQ. unfold reject, settle.
    replace (promises (emit (EReject p (Error m)) (snd (new_promise w2))))
      with (promises w ++ [Pending])
      by (unfold new_promise; subst w2; cbn; now rewrite Hp1).
    subst p. now rewrite list_lookup_middle. }
  repeat split; auto;
    [> rewrite Ht; unfold new_promise; subst w2; cbn; now rewrite Ht1
     | apply missing_block_message_in
     | apply Hcase; intros l o Ho; subst w2; cbn;
       now apply lookup_app_l_Some
     | apply Hcase; subst w2 w1; destruct latch; cbn;
       rewrite ?orb_true_r, ?orb_false_r; reflexivity .. ].
Qed.

Lemma init_rejects_missing_block_witness :
  heap_wf test_only_heap = true /\
  has_registry_block test_only_heap (VRef 0) = false /\
  promises (snd (init (friendly VNull) (VRef 0) VUndef VUndef VUndef
                   (new_instance test_only_heap)))
    = [Rejected (Error "Config missing hydra block")].
Proof.
  split; [reflexivity|]. split; [reflexivity|].
  destruct (init_rejects_missing_block (friendly VNull) (new_instance test_only_heap)
              0 [("testMode", VBool true)] VUndef VUndef VUndef
              eq_refl eq_refl eq_refl) as (_ & Hp & _).
  exact Hp.
Defined.

(** The claim as first stated fails: [init({testMode: true})] has no
    registry connection block, and by the time its promise is rejected the
    instance has switched to test mode. *)
Lemma init_latches_testMode_before_rejecting :
  let w := new_instance test_only_heap in
  let r := init (friendly VNull) (VRef 0) VUndef VUndef VUndef w in
  has_registry_block (w_heap w) (VRef 0) = false /\
  promises (snd r) !! 0 = Some (Rejected (Error "Config missing hydra block")) /\
  this_testMode w = false /\
  this_testMode (snd r) = true.
Proof. vm_compute. repeat split. Qed.

(** Where the walk itself would throw, the block test has already
    rejected: [{hydra: null}]. *)
Lemma null_hydra_block_rejected_before_walk :
  let h := [Obj [("hydra", VNull)]] in
  (exists e, validateConfig h (VRef 0) = Throw e) /\
  promises (snd (_init (friendly VNull) (VRef 0) (new_instance h)))
    = [Rejected (Error "Config missing hydra block")].
Proof. split; [eexists|]; reflexivity. Qed.

(** ** C2: what [validateConfig] reports and how [init] rejects on it *)

(** What [Object.assign({}, config, inner)] holds under a key. *)
Lemma merged_props_assoc h lc psc inner k :
  heap_wf h = true -> h !! lc = Some (Obj psc) ->
  distinct_keys (map fst inner) = true ->
  assoc k (merged_props h (VRef lc) inner)
  = match assoc k inner with
    | Some v => Some v
    | None => assoc k psc
    end.
Proof.
  intros Hwf Hl Hd. unfold merged_props.
  rewrite assoc_assign_props by assumption.
  simpl own_props. rewrite Hl. rewrite assoc_assign_props.
  - now destruct (assoc k psc).
  - apply heap_wf_lookup with (l := lc) (o := Obj psc) in Hwf; auto.
    simpl in Hwf. now apply andb_true_iff in Hwf as [Hk _].
Qed.

(** The route callback of the merged configuration: the positional one
    when that is truthy, the configuration's own otherwise. *)
Lemma merged_callback h lc psc version routes mw :
  heap_wf h = true -> h !! lc = Some (Obj psc) ->
  let callback := if String.eqb (typeof version) "function" then version else routes in
  get_prop (merged_heap h (VRef lc) version routes mw) (VRef (length h))
    "registerRoutesCallback"
  = Ok (js_or callback (default VUndef (assoc "registerRoutesCallback" psc))).
Proof.
  intros Hwf Hl callback. unfold merged_heap. rewrite get_prop_fresh.
  rewrite (merged_props_assoc h lc psc) by (auto; apply init_inner_distinct).
  subst callback. unfold init_inner, js_or.
  destruct (String.eqb (typeof version) "function"), (truthy version) eqn:Ev,
    (truthy routes) eqn:Er, (truthy mw);
    cbn; rewrite ?Ev, ?Er; reflexivity.
Qed.

(** The fields the merged configuration lacks are those the caller's
    configuration lacks, less the route callback when one is passed as an
    argument. *)
Lemma merged_missing_required h lc psc version routes mw :
  heap_wf h = true -> h !! lc = Some (Obj psc) ->
  has_registry_block h (VRef lc) = true ->
  let callback := if String.eqb (typeof version) "function" then version else routes in
  missing_required (merged_heap h (VRef lc) version routes mw) (VRef (length h))
  = List.filter (fun m => negb (String.eqb m "registerRoutesCallback" && truthy callback))
      (missing_required h (VRef lc)).
Proof.
  intros Hwf Hl Hb callback.
  destruct (has_registry_block_inv _ _ Hb) as (l & ps & redis & Hhy & Hlh & _).
  assert (Hlt : l < length h) by (eapply lookup_lt_Some; eauto).
  pose proof (merged_callback h lc psc version routes mw Hwf Hl) as Hcb.
  cbn zeta in Hcb. fold callback in Hcb.
  set (mh := merged_heap h (VRef lc) version routes mw) in *.
  assert (Hmhy : get_prop mh (VRef (length h)) "hydra" = Ok (VRef l)).
  { subst mh. unfold merged_heap. rewrite get_prop_fresh.
    rewrite (merged_props_other h lc psc) by (auto; discriminate).
    simpl in Hhy. rewrite Hl in Hhy. exact Hhy. }
  assert (Hsub : forall k, get_prop mh (VRef l) k = get_prop h (VRef l) k).
  { intros k. subst mh. unfold merged_heap. apply get_prop_alloc. simpl.
    now apply Nat.ltb_lt. }
  assert (Hown : get_prop h (VRef lc) "registerRoutesCallback"
                 = Ok (default VUndef (assoc "registerRoutesCallback" psc)))
    by (simpl; now rewrite Hl).
  unfold missing_required, required_paths, absent.
  cbn [List.filter read_path]. rewrite Hmhy, Hhy, !Hsub, Hcb, Hown.
  destruct (get_prop h (VRef l) "serviceName") as [x1|];
    destruct (get_prop h (VRef l) "serviceDescription") as [x2|];
    unfold js_or; destruct (truthy callback) eqn:Et;
    destruct (default VUndef (assoc "registerRoutesCallback" psc)) eqn:Eo;
    try (destruct x1); try (destruct x2);
    try (destruct callback; try discriminate Et);
    reflexivity.
Qed.

(** C2, amended. For a configuration object holding the registry
    connection block, [validateConfig] returns exactly the dotted paths of
    the required fields (hydra.serviceName, hydra.serviceDescription,
    registerRoutesCallback) that read as undefined, hence the empty list
    when none does. [init] validates the configuration merged with its
    arguments, which lacks what the caller's configuration lacks, less the
    route callback when a truthy one is passed as an argument; when that
    list is not empty the promise of [init] is rejected with "Config
    missing fields: " followed by its paths joined with single spaces, the
    rejection being the only event of the run, so that no call reaches the
    discovery client. *)
Theorem init_reports_missing_paths c w lc psc version routes mw :
  heap_wf (w_heap w) = true ->
  w_heap w !! lc = Some (Obj psc) ->
  has_registry_block (w_heap w) (VRef lc) = true ->
  let h := w_heap w in
  let config := VRef lc in
  let callback := if String.eqb (typeof version) "function" then version else routes in
  let missing :=
    List.filter (fun m => negb (String.eqb m "registerRoutesCallback" && truthy callback))
      (missing_required h config) in
  validateConfig h config = Ok (missing_required h config) /\
  ((forall path, In path required_paths -> absent h config path = false) ->
   validateConfig h config = Ok []) /\
  validateConfig (merged_heap h config version routes mw) (VRef (length h)) = Ok missing /\
  (missing <> [] ->
   let p := length (promises w) in
   let r := init c config version routes mw w in
   let err := Error ("Config missing fields: " +++ String.concat " " missing) in
   fst r = Ok p /\
   promises (snd r) = promises w ++ [Rejected err] /\
   trace (snd r) = trace w ++ [EReject p err] /\
   hydra_calls (trace (snd r)) = hydra_calls (trace w)).
Proof.
  intros Hwf Hl Hb h config callback missing. subst h config.
  destruct (_init_rejects_on_missing_fields c w (VRef lc) Hb) as (Hv & Hnone & _).
  split; [exact Hv|]. split; [exact Hnone|].
  destruct (merged_registry_block (w_heap w) lc psc version routes mw Hwf Hl) as [Hmb _].
  rewrite Hb in Hmb.
  change (w_heap w ++ [Obj (merged_props (w_heap w) (VRef lc) (init_inner version routes mw))])
    with (merged_heap (w_heap w) (VRef lc) version routes mw) in Hmb.
  set (mh := merged_heap (w_heap w) (VRef lc) version routes mw) in *.
  assert (Hvm : validateConfig mh (VRef (length (w_heap w))) = Ok missing).
  { rewrite (validateConfig_missing_required _ _ Hmb). f_equal.
    apply (merged_missing_required (w_heap w) lc psc version routes mw Hwf Hl Hb). }
  split; [exact Hvm|].
  intros Hne p r err. subst r.
  rewrite (init_object_run c lc psc version routes mw w Hl).
  set (latch := strict_eq _ _).
  set (w1 := if latch then set_testMode true w else w).
  assert (Hp1 : promises w1 = promises w) by (subst w1; now destruct latch).
  assert (Ht1 : trace w1 = trace w) by (subst w1; now destruct latch).
  change (w_heap w ++ [Obj (merged_props (w_heap w) (VRef lc) (init_inner version routes mw))])
    with mh.
  set (w2 := set_heap mh w1).
  destruct (_init_missing_fields c (VRef (length (w_heap w))) w2 missing Hmb Hvm Hne)
    as (h3 & _ & E).
  rewrite E. cbn [fst snd].
  replace (promises w2) with (promises w) by (now rewrite <- Hp1).
  destruct (reject_fresh err (set_heap h3 (snd (new_promise w2))) (promises w)) as [Hp Ht].
  { unfold new_promise. cbn. now rewrite Hp1. }
  fold p in Hp, Ht |- *. fold err.
  split; [reflexivity|]. split; [exact Hp|].
  assert (Htr : trace (reject p err (set_heap h3 (snd (new_promise w2))))
                = trace w ++ [EReject p err]).
  { rewrite Ht. unfold new_promise. cbn. now rewrite Ht1. }
  split; [exact Htr|].
  rewrite Htr. unfold hydra_calls. rewrite List.filter_app. simpl. now rewrite app_nil_r.
Qed.

Lemma init_reports_missing_paths_witness :
  heap_wf incomplete_heap = true /\
  has_registry_block incomplete_heap (VRef 0) = true /\
  validateConfig incomplete_heap (VRef 0)
    = Ok ["hydra.serviceDescription"; "registerRoutesCallback"] /\
  promises (snd (init (friendly VNull) (VRef 0) VUndef (VFun 7) VUndef
                   (new_instance incomplete_heap)))
    = [Rejected (Error "Config missing fields: hydra.serviceDescription")].
Proof.
  split; [reflexivity|]. split; [reflexivity|].
  destruct (init_reports_missing_paths (friendly VNull) (new_instance incomplete_heap)
              0 [("hydra", VRef 1)] VUndef (VFun 7) VUndef eq_refl eq_refl eq_refl)
    as (Hv & _ & _ & Hrej).
  split; [exact Hv|].
  destruct Hrej as (_ & Hp & _); [discriminate|exact Hp].
Defined.

(** The claim as first stated fails: the configuration below lacks the
    route callback, so that [validateConfig] lists it; yet [init], given
    the callback as its third argument, rejects nothing, reaches hydra and
    fulfils its promise with the registration's answer. *)
Lemma init_accepts_positional_callback :
  let w := new_instance callbackless_heap in
  let r := init (friendly descriptor) (VRef 0) VUndef (VFun 7) VUndef w in
  has_registry_block callbackless_heap (VRef 0) = true /\
  validateConfig callbackless_heap (VRef 0) = Ok ["registerRoutesCallback"] /\
  promises (snd r) = [Fulfilled descriptor] /\
  In (EHydra HRegisterService) (trace (snd r)).
Proof.
  split; [reflexivity|]. split; [reflexivity|]. split; [reflexivity|].
  vm_compute. tauto.
Qed.

(** ** C7: the terminal error handler *)

(** C7, amended. Whenever the HTTP layer takes the status, the terminal
    error handler answers with status [errCode] and the JSON body
    [{code: errCode}] and nothing else, where [errCode] is
    [err.status || 500]: an error without status gives 500 and
    [{code: 500}], status 404 gives [{code: 404}]; the body has no stack;
    and the code is a number whenever the status is a number or is falsy.
    Whatever the layer then does, status 404 is not logged and any status
    other than 404 is logged once at level fatal, before the answer. *)
Theorem error_handler_minimal_envelope refuses err w :
  let r := fst (error_handler refuses err w) in
  let w' := snd (error_handler refuses err w) in
  let errCode := js_or (e_status err) HTTP_SERVER_ERROR in
  (refuses errCode = None ->
   exists res,
     r = Ok res /\
     res_status res = errCode /\
     res_json res = [("code", errCode)] /\
     assoc "stack" (res_json res) = None) /\
  (e_status err = VUndef -> errCode = VNum 500) /\
  (e_status err = VNum 404 -> errCode = VNum 404 /\ trace w' = trace w) /\
  (e_status err <> VNum 404 ->
   trace w' = trace w ++ [ELog "fatal" [("event", VStr "error");
                                       ("error", e_name err);
                                       ("stack", e_stack err)]]) /\
  ((exists n, e_status err = VNum n) \/ truthy (e_status err) = false ->
   exists n, errCode = VNum n).
Proof.
  unfold error_handler, HTTP_NOT_FOUND, HTTP_SERVER_ERROR, strict_eq.
  split; [|split; [|split; [|split]]].
  - intros ->. cbn [fst]. eexists. repeat split.
  - intros ->. reflexivity.
  - intros ->. split; [reflexivity|].
    rewrite bool_decide_eq_true_2 by reflexivity.
    cbn [negb]. now destruct (refuses _).
  - intros Hne. rewrite bool_decide_eq_false_2 by assumption.
    cbn [negb]. now destruct (refuses _).
  - intros [[n ->]|Hf]; unfold js_or.
    + destruct (truthy (VNum n)); eauto.
    + rewrite Hf. eauto.
Qed.

Lemma error_handler_minimal_envelope_witness :
  range_checked (VNum 404) = None /\
  fst (error_handler range_checked not_found_error (new_instance []))
    = Ok {| res_status := VNum 404; res_json := [("code", VNum 404)] |} /\
  trace (snd (error_handler range_checked not_found_error (new_instance []))) = [].
Proof.
  destruct (error_handler_minimal_envelope range_checked not_found_error (new_instance []))
    as (Hans & _ & H404 & _).
  split; [reflexivity|]. split; [|exact (proj2 (H404 eq_refl))].
  destruct (Hans eq_refl) as (res & Hres & _). reflexivity.
Defined.

(** The claim as first stated fails: an error whose status is 1000 is
    logged, and then [res.status(1000).json(..)] throws inside the
    handler, which answers with no JSON body at all. *)
Lemma error_handler_refused_status_throws :
  let r := error_handler range_checked out_of_range_error (new_instance []) in
  (forall res, fst r <> Ok res) /\
  (exists e, fst r = Throw e /\ err_name e = "RangeError") /\
  trace (snd r) = [ELog "fatal" [("event", VStr "error"); ("error", VStr "Error");
                                 ("stack", VStr "Error: quota exceeded")]].
Proof.
  split; [intros res; discriminate|]. split; [eexists; split; reflexivity|reflexivity].
Qed.

(** ** C9: [use] *)

(** With a binding for [_] in scope, [use] would register its plugins in
    order. *)
Lemma each_register_appends plugins proms w :
  Forall (fun pl => exists o, setHydraExpress pl = PReturns o) plugins ->
  exists proms',
    fst (each_register plugins proms w) = Ok proms' /\
    this_registeredPlugins (snd (each_register plugins proms w))
      = this_registeredPlugins w ++ plugins.
Proof.
  intros H. revert proms w. induction H as [|pl rest [o Ho] _ IH]; intros proms w.
  - exists proms. simpl. now rewrite app_nil_r.
  - simpl. unfold bind, _registerPlugin, act, bind. rewrite Ho. cbn [ret].
    destruct (IH (proms ++ [o])
                (emit (EPlugin (plugin_id pl) "setHydraExpress")
                   (set_registeredPlugins (this_registeredPlugins w ++ [pl]) w)))
      as (proms' & H1 & H2).
    exists proms'. split; [exact H1|]. rewrite H2. cbn. now rewrite <- app_assoc.
Qed.

Lemma module_scope_lacks_underscore : bound module_scope "_" = false.
Proof. reflexivity. Qed.

(** C9. Every call of [use] throws a ReferenceError on reading [_], which
    the module never binds, before any plugin is registered: the world is
    left exactly as it was, the list of registered plugins included. *)
Theorem use_throws_before_registering plugins w :
  use plugins w = (Throw (ReferenceError "_ is not defined"), w) /\
  err_name (ReferenceError "_ is not defined") = "ReferenceError" /\
  this_registeredPlugins (snd (use plugins w)) = this_registeredPlugins w /\
  trace (snd (use plugins w)) = trace w.
Proof. repeat split. Qed.

(** ** C8: [getRuntimeConfig] *)

Lemma getRuntimeConfig_run w :
  getRuntimeConfig w =
    (VRef (length (w_heap w)),
     set_heap (w_heap w ++ [Obj (assign_props [] (own_props (w_heap w) (this_config w)))]) w).
Proof. reflexivity. Qed.

Lemma insert_last {A} (l : list A) (x y : A) : <[length l := y]> (l ++ [x]) = l ++ [y].
Proof.
  replace (length l) with (length l + 0) by lia. now rewrite insert_app_r.
Qed.

(** Whatever is read in a well-formed heap points into it. *)
Lemma get_prop_closed h v k x :
  heap_wf h = true -> get_prop h v k = Ok x -> value_ok (length h) x = true.
Proof.
  intros Hwf. destruct v; simpl; try discriminate; try (intros [= <-]; reflexivity).
  - destruct (String.eqb k "length"); [now intros [= <-]|].
    destruct (key_index _ _); intros [= <-]; [|reflexivity].
    unfold char_at. now destruct (String.get _ _).
  - destruct (h !! l) as [[ps|es]|] eqn:El; [| |now intros [= <-]].
    + intros E. eapply (get_prop_object_ok h l ps k); eauto. simpl. now rewrite El.
    + destruct (String.eqb k "length"); [now intros [= <-]|].
      destruct (key_index _ _) as [i|]; intros [= <-]; [|reflexivity].
      destruct (es !! i) as [y|] eqn:Ei; [|reflexivity]. simpl.
      apply heap_wf_lookup with (l := l) (o := Arr es) in Hwf; auto.
      simpl in Hwf. rewrite forallb_forall in Hwf. apply Hwf.
      apply list_elem_of_In. eapply list_elem_of_lookup_2; eauto.
Qed.

(** Writing properties of a fresh object changes nothing that is read
    through values of the heap it was added to. *)
Lemma write_all_fresh h ps writes h2 v k :
  write_all (h ++ [Obj ps]) (VRef (length h)) writes = Ok h2 ->
  value_ok (length h) v = true ->
  get_prop h2 v k = get_prop h v k.
Proof.
  revert ps h2. induction writes as [|[k1 x1] rest IH]; intros ps h2.
  - simpl. intros [= <-] Hv. now apply get_prop_alloc.
  - cbn [write_all]. unfold set_prop. rewrite list_lookup_middle by reflexivity.
    rewrite insert_last. apply IH.
Qed.

(** What the copy does protect. [getRuntimeConfig] returns a fresh object
    holding the properties of the captured configuration, so that
    assigning properties of the returned object itself changes nothing
    read from the live configuration or from any object that existed
    before the call. *)
Theorem getRuntimeConfig_top_level_copy w lc psc :
  heap_wf (w_heap w) = true ->
  this_config w = VRef lc ->
  w_heap w !! lc = Some (Obj psc) ->
  let copy := fst (getRuntimeConfig w) in
  let w1 := snd (getRuntimeConfig w) in
  copy <> this_config w /\
  this_config w1 = this_config w /\
  (forall k, get_prop (w_heap w1) copy k = get_prop (w_heap w) (this_config w) k) /\
  (forall writes h2 v k,
     write_all (w_heap w1) copy writes = Ok h2 ->
     value_ok (length (w_heap w)) v = true ->
     get_prop h2 v k = get_prop (w_heap w) v k) /\
  (forall writes h2 path,
     write_all (w_heap w1) copy writes = Ok h2 ->
     read_path h2 (this_config w1) path = read_path (w_heap w) (this_config w) path).
Proof.
  intros Hwf Hc Hl copy w1. subst copy w1. rewrite getRuntimeConfig_run.
  cbn [fst snd w_heap set_heap this_config]. rewrite Hc.
  assert (Hlt : lc < length (w_heap w)) by (eapply lookup_lt_Some; eauto).
  assert (Hd : distinct_keys (map fst psc) = true).
  { apply heap_wf_lookup with (l := lc) (o := Obj psc) in Hwf; auto.
    simpl in Hwf. now apply andb_true_iff in Hwf as [Hd _]. }
  split; [intros [= E]; lia|]. split; [reflexivity|]. split; [|split].
  - intros k. rewrite get_prop_fresh. simpl own_props. rewrite Hl.
    rewrite assoc_assign_props by assumption. simpl. rewrite Hl.
    now destruct (assoc k psc).
  - intros writes h2 v k Hw Hv. eapply write_all_fresh; eauto.
  - intros writes h2 path Hw.
    assert (Hok : value_ok (length (w_heap w)) (VRef lc) = true)
      by (simpl; now apply Nat.ltb_lt).
    revert Hok. generalize (VRef lc) as v.
    induction path as [|k rest IH]; intros v Hv; [reflexivity|].
    cbn [read_path]. rewrite (write_all_fresh _ _ _ _ v k Hw Hv).
    destruct (get_prop (w_heap w) v k) as [x|] eqn:E; [|reflexivity].
    apply IH. eapply get_prop_closed; eauto.
Qed.

Lemma getRuntimeConfig_top_level_copy_witness :
  heap_wf (w_heap captured_world) = true /\
  this_config captured_world = VRef 0 /\
  match write_all (w_heap (snd (getRuntimeConfig captured_world)))
          (fst (getRuntimeConfig captured_world))
          [("environment", VStr "production"); ("hydra", VNull)] with
  | Ok h2 => read_path h2 (this_config captured_world) ["hydra"; "serviceName"]
  | Throw _ => VUndef
  end = VStr "svc".
Proof.
  split; [reflexivity|]. split; [reflexivity|].
  destruct (getRuntimeConfig_top_level_copy captured_world 0
              [("hydra", VRef 1); ("registerRoutesCallback", VFun 7)]
              eq_refl eq_refl eq_refl) as (_ & _ & _ & _ & H).
  destruct (write_all _ _ _) as [h2|] eqn:E; [|vm_compute in E; discriminate E].
  etransitivity; [exact (H _ h2 ["hydra"; "serviceName"] E)|].
  vm_compute. reflexivity.
Defined.

(** C8. [getRuntimeConfig] is documented to return an immutable object and
    copies the configuration to keep its callers off the live one, but
    [Object.assign] copies one level only and the nested blocks of the
    copy are those of the live configuration: after a successful [init],
    writing [serviceName] through the [hydra] block of the returned object
    changes the [hydra.serviceName] the instance holds. *)
Lemma getRuntimeConfig_shares_nested_blocks :
  let w := started_world in
  let copy := fst (getRuntimeConfig w) in
  let w1 := snd (getRuntimeConfig w) in
  read_path (w_heap w1) (this_config w1) ["hydra"; "serviceName"] = VStr "svc" /\
  match get_prop (w_heap w1) copy "hydra" with
  | Ok hy =>
      match set_prop (w_heap w1) hy "serviceName" (VStr "evil") with
      | Ok h2 => read_path h2 (this_config w1) ["hydra"; "serviceName"]
      | Throw _ => VUndef
      end
  | Throw _ => VUndef
  end = VStr "evil".
Proof. vm_compute. split; reflexivity. Qed.

(** ** C5: route registration *)

Lemma bind_ok {A B} (m : M A) (k : A -> M B) w a w' :
  m w = (Ok a, w') -> bind m k w = k a w'.
Proof. intros H. unfold bind. now rewrite H. Qed.

Lemma each_method_run base routeInfo path methods acc w :
  get_prop (w_heap w) routeInfo "path" = Ok (VStr path) ->
  each_method base routeInfo methods acc w =
    (Ok (acc ++ map (fun method => "[" +++ method +++ "]" +++ base +++ path) methods), w).
Proof.
  intros Hp. revert acc. induction methods as [|m rest IH]; intros acc;
    cbn [each_method map].
  - unfold ret. now rewrite app_nil_r.
  - rewrite (bind_prop _ _ (VStr path)) by assumption.
    rewrite IH. cbn [to_string]. now rewrite <- app_assoc.
Qed.

Lemma each_layer_run base layers d acc w :
  Forall2 (is_layer (w_heap w)) layers d ->
  each_layer base layers acc w = (Ok (acc ++ route_strings base d), w).
Proof.
  intros H. revert acc.
  induction H as [|layer ld layers d Hl _ IH]; intros acc;
    cbn [each_layer route_strings flat_map].
  - unfold ret. now rewrite app_nil_r.
  - destruct ld as [rd|]; cbn [is_layer] in Hl.
    + destruct Hl as (routeInfo & methods & Hr & Ht & Hp & Hm & Hk).
      rewrite (bind_prop _ _ routeInfo) by assumption. rewrite Ht.
      rewrite (bind_ok _ _ w (acc ++ map (fun method =>
                 "[" +++ method +++ "]" +++ base +++ rd_path rd) (rd_methods rd)) w).
      * fold (route_strings base d). rewrite IH. now rewrite <- app_assoc.
      * rewrite (bind_prop _ _ methods) by assumption.
        rewrite (bind_ok _ _ w (rd_methods rd) w) by (now rewrite Hk).
        now apply each_method_run.
    + destruct Hl as (r & Hr & Ht).
      rewrite (bind_prop _ _ r) by assumption. rewrite Ht.
      rewrite (bind_ok _ _ w acc w) by reflexivity.
      fold (route_strings base d). now rewrite IH.
Qed.

Lemma each_route_path_run routes d acc w :
  Forall (fun x => get_prop (w_heap w) routes (fst (fst x)) = Ok (snd (fst x)) /\
                   is_router (w_heap w) (snd (fst x)) (snd x)) d ->
  each_route_path routes (map (fun x => fst (fst x)) d) acc w =
    (Ok (acc ++ advertised d), set_trace (trace w ++ mounts d) w).
Proof.
  intros H. revert acc w H.
  induction d as [|[[base router] rd] d IH]; intros acc w H.
  - cbn. rewrite !app_nil_r. now destruct w.
  - apply Forall_cons in H as [[Hg (l & layers & Hs & Hl & Hlayers)] H].
    cbn [fst snd] in Hg, Hs, Hlayers.
    cbn [map each_route_path fst snd].
    rewrite (bind_prop _ _ router) by assumption.
    rewrite (bind_prop _ _ (VRef l)) by assumption.
    rewrite (bind_ok _ _ w layers w) by (unfold for_each_elems; now rewrite Hl).
    rewrite (bind_ok _ _ w (acc ++ route_strings base rd) w)
      by (now apply each_layer_run).
    rewrite (bind_prop _ _ router) by assumption.
    rewrite (bind_ok _ _ w tt (emit (EAppUse (MwRouter base router)) w)) by reflexivity.
    rewrite IH by exact H.
    unfold advertised, mounts, emit. cbn [flat_map map fst snd trace set_trace].
    rewrite <- !app_assoc. reflexivity.
Qed.

(** What [_registerRoutes] does with the argument it is written for.
    Given a routes object (route base paths mapped to routers), it mounts
    every router at its base path on the application and then submits to
    the discovery client the flat list of the strings "[method]base+path",
    one per method key of every layer that has a route, the method written
    as the key has it; layers without a route contribute nothing. *)
Theorem registerRoutes_mounts_and_advertises routes api d w :
  is_routes (w_heap w) routes d ->
  registerRoutes routes api w = _registerRoutes routes w /\
  _registerRoutes routes w =
    (Ok tt,
     set_trace (trace w ++ mounts d ++ [EHydra (HRegisterRoutes (advertised d))]) w).
Proof.
  intros [Hk Hd]. split; [reflexivity|].
  unfold _registerRoutes.
  erewrite bind_ok; [|rewrite Hk; reflexivity].
  erewrite bind_ok; [|now apply each_route_path_run].
  unfold act, emit. cbn. now rewrite <- app_assoc.
Qed.

Lemma routes_heap_is_routes : is_routes routes_heap (VRef 0) routes_desc.
Proof.
  split; [reflexivity|]. repeat constructor.
  exists 2, [VRef 3; VRef 4]. repeat split.
  repeat constructor.
  - exists VUndef. split; reflexivity.
  - exists (VRef 5), (VRef 6). repeat split.
Defined.

Lemma registerRoutes_mounts_and_advertises_witness :
  is_routes routes_heap (VRef 0) routes_desc /\
  trace (snd (registerRoutes (VRef 0) VUndef (new_instance routes_heap)))
    = [ EAppUse (MwRouter "/v1" (VRef 1));
        EHydra (HRegisterRoutes ["[get]/v1/list"; "[post]/v1/list"]) ].
Proof.
  split; [exact routes_heap_is_routes|].
  destruct (registerRoutes_mounts_and_advertises (VRef 0) VUndef routes_desc
              (new_instance routes_heap) routes_heap_is_routes) as [E1 E2].
  rewrite E1, E2. reflexivity.
Defined.

(** Called as documented, with a base path and a router, [registerRoutes]
    hands the path to [_registerRoutes] in the place of the routes object:
    that walks the characters of the path, finds no stack on the first of
    them and throws a TypeError, the world being as it was. *)
Lemma registerRoutes_on_base_path routeBaseUrl api w :
  routeBaseUrl <> "" ->
  registerRoutes (VStr routeBaseUrl) api w
    = (Throw (TypeError "Cannot read properties of undefined (reading 'forEach')"), w).
Proof.
  intros Hne. destruct routeBaseUrl as [|ch rest]; [congruence|]. reflexivity.
Qed.

(** C5. The documented call [registerRoutes('/v1', router)] throws a
    TypeError before anything is mounted on the application or submitted
    to the discovery client, although the router is one [_registerRoutes]
    mounts and advertises when it is given as [{'/v1': router}]; the route
    strings it then submits carry the method names as the router keys
    them, in lower case. *)
Lemma registerRoutes_base_path_and_router_throws :
  registerRoutes (VStr "/v1") (VRef 1) (new_instance routes_heap)
    = (Throw (TypeError "Cannot read properties of undefined (reading 'forEach')"),
       new_instance routes_heap) /\
  trace (snd (_registerRoutes (VRef 0) (new_instance routes_heap)))
    = [ EAppUse (MwRouter "/v1" (VRef 1));
        EHydra (HRegisterRoutes ["[get]/v1/list"; "[post]/v1/list"]) ] /\
  ["[get]/v1/list"; "[post]/v1/list"] <> ["[GET]/v1/list"; "[POST]/v1/list"].
Proof. split; [reflexivity|]. split; [reflexivity|discriminate]. Qed.

(** * Further properties of the module *)

(** ** [validateConfig] on any configuration object *)

Lemma reportable_sublists :
  forall a b r : bool,
    sublist ((if a then ["hydra.serviceName"] else [])
             ++ (if b then ["hydra.serviceDescription"] else [])
             ++ (if r then ["registerRoutesCallback"] else [])) reportable.
Proof.
  intros [] [] []; unfold reportable; simpl;
    eauto 10 using sublist_nil, sublist_skip, sublist_cons.
Qed.

(** What [validateConfig] returns on a configuration object whose hydra
    block can be read. *)
Lemma validateConfig_with_hydra h lc hy :
  get_prop h (VRef lc) "hydra" = Ok hy -> hy <> VUndef -> hy <> VNull ->
  exists name desc routes,
    get_prop h hy "serviceName" = Ok name /\
    get_prop h hy "serviceDescription" = Ok desc /\
    get_prop h (VRef lc) "registerRoutesCallback" = Ok routes /\
    validateConfig h (VRef lc) =
      Ok ((if is_undefined name then ["hydra.serviceName"] else [])
          ++ (if is_undefined desc then ["hydra.serviceDescription"] else [])
          ++ (if is_undefined routes then ["registerRoutesCallback"] else [])).
Proof.
  intros Hhy Hu Hn.
  assert (Hr1 : exists name, get_prop h hy "serviceName" = Ok name)
    by (destruct hy; try congruence; simpl; eauto;
        [ destruct (key_index _ _); eauto
        | destruct (h !! l) as [[|]|]; eauto; destruct (key_index _ _); eauto ]).
  assert (Hr2 : exists desc, get_prop h hy "serviceDescription" = Ok desc)
    by (destruct hy; try congruence; simpl; eauto;
        [ destruct (key_index _ _); eauto
        | destruct (h !! l) as [[|]|]; eauto; destruct (key_index _ _); eauto ]).
  destruct Hr1 as [name Hname], Hr2 as [desc Hdesc].
  destruct (get_prop_ref h lc "registerRoutesCallback") as [routes Hroutes].
  exists name, desc, routes. repeat split; auto.
  unfold validateConfig. cbn [validate_keys requiredMembers typeof_schema schema_keys
                               String.eqb Ascii.eqb Bool.eqb validate_members].
  rewrite Hhy.
  replace (is_undefined hy) with false by (destruct hy; try reflexivity; congruence).
  rewrite Hname, Hdesc, Hroutes.
  destruct (is_undefined name), (is_undefined desc), (is_undefined routes); reflexivity.
Qed.

(** X1. On a configuration object, [validateConfig] throws a TypeError
    exactly when [config.hydra] is [null]; otherwise it returns entries of
    [hydra, hydra.serviceName, hydra.serviceDescription,
    registerRoutesCallback] in that order, each at most once, listing
    [hydra] exactly when [config.hydra] is undefined, in which case no
    path below [hydra] is listed. *)
Theorem validateConfig_on_objects h lc :
  (get_prop h (VRef lc) "hydra" = Ok VNull ->
   exists e, validateConfig h (VRef lc) = Throw e /\ err_name e = "TypeError") /\
  (get_prop h (VRef lc) "hydra" <> Ok VNull ->
   exists missing,
     validateConfig h (VRef lc) = Ok missing /\
     sublist missing reportable /\
     (In "hydra" missing <-> get_prop h (VRef lc) "hydra" = Ok VUndef) /\
     (In "hydra" missing ->
      ~ In "hydra.serviceName" missing /\ ~ In "hydra.serviceDescription" missing)).
Proof.
  destruct (get_prop_ref h lc "hydra") as [hy Hhy].
  destruct (get_prop_ref h lc "registerRoutesCallback") as [routes Hroutes].
  split.
  - intros Hnull. unfold validateConfig.
    cbn [validate_keys requiredMembers typeof_schema schema_keys
           String.eqb Ascii.eqb Bool.eqb validate_members].
    rewrite Hnull. cbn. eauto.
  - intros Hnn. rewrite Hhy in Hnn |- *.
    destruct (decide (hy = VUndef)) as [->|Hu].
    + exists (["hydra"] ++ if is_undefined routes then ["registerRoutesCallback"] else []).
      unfold validateConfig.
      cbn [validate_keys requiredMembers typeof_schema schema_keys
             String.eqb Ascii.eqb Bool.eqb validate_members].
      rewrite Hhy, Hroutes. cbn [is_undefined strict_eq bool_decide decide_rel].
      split; [now destruct (is_undefined routes)|].
      split; [destruct (is_undefined routes); unfold reportable; simpl;
              eauto 10 using sublist_nil, sublist_skip, sublist_cons|].
      split; [split; [reflexivity|intros _; simpl; auto]|].
      intros _. destruct (is_undefined routes); simpl;
        split; intros H; decompose [or] H; discriminate || contradiction.
    + assert (Hn : hy <> VNull) by congruence.
      destruct (validateConfig_with_hydra h lc hy Hhy Hu Hn)
        as (name & desc & routes' & _ & _ & _ & ->).
      eexists. split; [reflexivity|]. split; [apply reportable_sublists|].
      assert (Hnot : ~ In "hydra"
                ((if is_undefined name then ["hydra.serviceName"] else [])
                 ++ (if is_undefined desc then ["hydra.serviceDescription"] else [])
                 ++ (if is_undefined routes' then ["registerRoutesCallback"] else []))).
      { destruct (is_undefined name), (is_undefined desc), (is_undefined routes');
          simpl; intros H; decompose [or] H; discriminate || contradiction. }
      split; [split; [intros H; contradiction|intros [= E]; congruence]|].
      intros H. contradiction.
Qed.

Lemma validateConfig_on_objects_witness :
  exists e, validateConfig [Obj [("hydra", VNull)]] (VRef 0) = Throw e /\
            err_name e = "TypeError".
Proof.
  exact (proj1 (validateConfig_on_objects [Obj [("hydra", VNull)]] 0) eq_refl).
Defined.

(** ** [_init]: what the defaults write, and the callback check *)

(** The hydra block after the three defaults. *)
Lemma apply_defaults_explicit config w l ps :
  get_prop (w_heap w) config "hydra" = Ok (VRef l) ->
  w_heap w !! l = Some (Obj ps) ->
  exists ps3,
    apply_defaults config w = (Ok tt, set_heap (<[l := Obj ps3]> (w_heap w)) w) /\
    (forall k, In k defaulted_keys ->
       assoc k ps3 = Some (js_or (default VUndef (assoc k ps)) (default_of k))) /\
    (forall k, ~ In k defaulted_keys -> assoc k ps3 = assoc k ps).
Proof.
  intros Hhy Hl. unfold apply_defaults, bind.
  rewrite (default_hydra_field_run _ _ _ _ l ps Hhy Hl).
  set (v1 := js_or (default VUndef (assoc "serviceIP" ps)) (VStr "")).
  set (ps1 := assoc_set "serviceIP" v1 ps).
  set (h1 := <[l := Obj ps1]> (w_heap w)).
  assert (Hlt : l < length (w_heap w)) by (eapply lookup_lt_Some; eauto).
  assert (Hl1 : h1 !! l = Some (Obj ps1)) by (now apply list_lookup_insert_eq).
  assert (Hhy1 : get_prop h1 config "hydra" = Ok (VRef l))
    by (unfold h1, ps1; rewrite get_prop_insert_other; auto; discriminate).
  rewrite (default_hydra_field_run _ _ _ (set_heap h1 w) l ps1 Hhy1 Hl1).
  cbn [w_heap set_heap].
  set (v2 := js_or (default VUndef (assoc "servicePort" ps1)) (VNum 0)).
  set (ps2 := assoc_set "servicePort" v2 ps1).
  set (h2 := <[l := Obj ps2]> h1).
  assert (Hl2 : h2 !! l = Some (Obj ps2))
    by (apply list_lookup_insert_eq; unfold h1; now rewrite length_insert).
  assert (Hhy2 : get_prop h2 config "hydra" = Ok (VRef l))
    by (unfold h2, ps2; rewrite get_prop_insert_other; auto; discriminate).
  rewrite (default_hydra_field_run _ _ _ (set_heap h2 (set_heap h1 w)) l ps2 Hhy2 Hl2).
  cbn [w_heap set_heap].
  set (v3 := js_or (default VUndef (assoc "serviceType" ps2)) (VStr "")).
  set (ps3 := assoc_set "serviceType" v3 ps2).
  exists ps3. split; [|split].
  - unfold h2, h1. rewrite !list_insert_insert_eq. reflexivity.
  - intros k Hk. unfold defaulted_keys in Hk. simpl in Hk.
    destruct Hk as [<-|[<-|[<-|[]]]]; subst ps3 ps2 ps1 v3 v2 v1.
    + rewrite !assoc_set_other by discriminate. now rewrite assoc_set_same.
    + rewrite assoc_set_other by discriminate. rewrite assoc_set_same.
      now rewrite assoc_set_other by discriminate.
    + rewrite assoc_set_same. now rewrite !assoc_set_other by discriminate.
  - intros k Hk. unfold defaulted_keys in Hk. simpl in Hk.
    subst ps3 ps2 ps1. rewrite !assoc_set_other; auto; intros ->; tauto.
Qed.

Lemma passes_validation_false h config :
  has_registry_block h config = true ->
  passes_validation h config = false ->
  (exists missing, validateConfig h config = Ok missing /\ missing <> []) \/
  (validateConfig h config = Ok [] /\
   exists routes, get_prop h config "registerRoutesCallback" = Ok routes /\
                  truthy routes = false).
Proof.
  intros Hb. unfold passes_validation. rewrite Hb. cbn [andb].
  rewrite (validateConfig_missing_required _ _ Hb).
  destruct (missing_required h config) as [|m ms] eqn:E.
  - destruct (has_registry_block_ref _ _ Hb) as [lc ->].
    destruct (get_prop_ref h lc "registerRoutesCallback") as [routes ->].
    intros Ht. right. eauto.
  - intros _. left. eexists. split; [reflexivity|discriminate].
Qed.

(** A configuration with the registry block that fails a later check is
    rejected in the world the defaults have left. *)
Lemma _init_rejected c config w :
  has_registry_block (w_heap w) config = true ->
  passes_validation (w_heap w) config = false ->
  exists m,
    _init c config w =
      (length (promises w),
       reject (length (promises w)) (Error m)
         (snd (apply_defaults config (snd (new_promise w))))) /\
    ((exists missing, validateConfig (w_heap w) config = Ok missing /\ missing <> [] /\
        m = "Config missing fields: " +++ String.concat " " missing) \/
     (validateConfig (w_heap w) config = Ok [] /\
      m = "Config missing registerRoutesCallback parameter")).
Proof.
  intros Hb Hp. unfold _init, new_promise. cbn [snd].
  set (w1 := set_promises _ w).
  rewrite (init_executor_checked c config _ w1 Hb).
  destruct (apply_defaults_run config w1 Hb) as (h3 & Hrun & Hag).
  change (w_heap w1) with (w_heap w) in Hag.
  unfold bind at 1. rewrite Hrun. cbn [snd].
  unfold init_checked. unfold bind at 1. cbn [w_heap set_heap].
  rewrite (validateConfig_agree defaulted_keys (w_heap w) h3) by
    (auto; intros k Hk; apply defaulted_not_checked; simpl in *; tauto).
  destruct Hag as [_ G].
  destruct (passes_validation_false _ _ Hb Hp)
    as [(missing & Hv & Hne)|(Hv & routes & Hr & Ht)]; rewrite Hv.
  - destruct missing as [|m ms]; [congruence|]. cbn [length Nat.eqb negb].
    eexists. split; [reflexivity|]. left. eauto.
  - cbn [length Nat.eqb negb].
    rewrite (bind_prop _ _ routes)
      by (cbn [w_heap set_heap]; rewrite G; auto;
          apply defaulted_not_checked; simpl; tauto).
    rewrite Ht. cbn [negb].
    eexists. split; [reflexivity|]. right. auto.
Qed.

Lemma reject_heap p e w : w_heap (reject p e w) = w_heap w.
Proof. unfold reject, settle. cbn. now destruct (_ !! p) as [[]|]. Qed.

Lemma reject_config p e w : this_config (reject p e w) = this_config w.
Proof. unfold reject, settle. cbn. now destruct (_ !! p) as [[]|]. Qed.

(** X2. A [registerRoutesCallback] that is present but falsy ([null],
    [false], [0], the empty string) is not reported by [validateConfig];
    [_init] rejects it by a check of its own, with the message 'Config
    missing registerRoutesCallback parameter', and that rejection is the
    only event of the run: nothing is captured and hydra is not called. *)
Theorem _init_rejects_falsy_callback c w config routes :
  has_registry_block (w_heap w) config = true ->
  validateConfig (w_heap w) config = Ok [] ->
  get_prop (w_heap w) config "registerRoutesCallback" = Ok routes ->
  truthy routes = false ->
  let p := fst (_init c config w) in
  let w' := snd (_init c config w) in
  let err := Error "Config missing registerRoutesCallback parameter" in
  is_undefined routes = false /\
  promises w' !! p = Some (Rejected err) /\
  trace w' = trace w ++ [EReject p err] /\
  this_config w' = this_config w.
Proof.
  intros Hb Hv Hr Ht p w' err.
  assert (Hp : passes_validation (w_heap w) config = false)
    by (unfold passes_validation; now rewrite Hb, Hv, Hr, Ht).
  destruct (_init_rejected c config w Hb Hp) as (m & Hinit & Hm).
  destruct Hm as [(missing & Hv' & Hne & _)|[_ ->]]; [congruence|].
  subst p w'. rewrite Hinit. cbn [fst snd]. fold err.
  destruct (apply_defaults_run config (snd (new_promise w)) Hb) as (h3 & -> & _).
  cbn [snd].
  destruct (reject_fresh err (set_heap h3 (snd (new_promise w))) (promises w) eq_refl)
    as [Hpr Htr].
  split; [|split; [|split]].
  - rewrite (validateConfig_missing_required _ _ Hb) in Hv.
    assert (Hm : missing_required (w_heap w) config = []) by congruence.
    unfold missing_required, required_paths in Hm.
    cbn [List.filter] in Hm.
    assert (Ha : absent (w_heap w) config ["registerRoutesCallback"] = is_undefined routes)
      by (unfold absent; cbn [read_path]; now rewrite Hr).
    rewrite Ha in Hm. destruct (is_undefined routes); [|reflexivity].
    destruct (absent _ _ _), (absent _ _ _); simpl in Hm; discriminate.
  - rewrite Hpr. now apply list_lookup_middle.
  - rewrite Htr. reflexivity.
  - now rewrite reject_config.
Qed.

Lemma _init_rejects_falsy_callback_witness :
  has_registry_block null_callback_heap (VRef 0) = true /\
  validateConfig null_callback_heap (VRef 0) = Ok [] /\
  promises (snd (_init (friendly VNull) (VRef 0) (new_instance null_callback_heap))) !! 0
    = Some (Rejected (Error "Config missing registerRoutesCallback parameter")).
Proof.
  split; [reflexivity|]. split; [reflexivity|].
  exact (proj1 (proj2 (_init_rejects_falsy_callback (friendly VNull)
           (new_instance null_callback_heap) (VRef 0) VNull
           eq_refl eq_refl eq_refl eq_refl))).
Defined.

(** X3. [init] validates a shallow copy of the configuration, so the
    defaults [_init] writes go into the caller's own hydra block: when the
    configuration has the registry block and is then rejected (missing
    fields, or a falsy callback), the promise is rejected, the caller's
    top-level object is untouched, and the caller's hydra block now holds
    [serviceIP], [servicePort] and [serviceType], each the old value when
    that is truthy and otherwise its default; its other properties are as
    they were. *)
Theorem init_rejection_leaves_defaults c w lc psc l ps version routes mw :
  heap_wf (w_heap w) = true ->
  w_heap w !! lc = Some (Obj psc) ->
  assoc "hydra" psc = Some (VRef l) ->
  w_heap w !! l = Some (Obj ps) ->
  l <> lc ->
  has_registry_block (w_heap w) (VRef lc) = true ->
  passes_validation (merged_heap (w_heap w) (VRef lc) version routes mw)
    (VRef (length (w_heap w))) = false ->
  let r := init c (VRef lc) version routes mw w in
  (exists m, promises (snd r) !! length (promises w) = Some (Rejected (Error m))) /\
  w_heap (snd r) !! lc = Some (Obj psc) /\
  (forall k, In k defaulted_keys ->
     get_prop (w_heap (snd r)) (VRef l) k
       = Ok (js_or (default VUndef (assoc k ps)) (default_of k))) /\
  (forall k, ~ In k defaulted_keys ->
     get_prop (w_heap (snd r)) (VRef l) k = get_prop (w_heap w) (VRef l) k).
Proof.
  intros Hwf Hlc Hhy Hl Hne Hb Hp r. subst r.
  rewrite (init_object_run c lc psc version routes mw w Hlc). cbn [snd].
  set (latch := strict_eq _ _).
  set (w1 := if latch then set_testMode true w else w).
  assert (Hh1 : w_heap w1 = w_heap w) by (subst w1; now destruct latch).
  assert (Hp1 : promises w1 = promises w) by (subst w1; now destruct latch).
  set (mh := w_heap w ++ [Obj (merged_props (w_heap w) (VRef lc)
                                 (init_inner version routes mw))]).
  set (w2 := set_heap mh w1).
  destruct (merged_registry_block (w_heap w) lc psc version routes mw Hwf Hlc)
    as [Hmb _]. fold mh in Hmb.
  assert (Hb2 : has_registry_block (w_heap w2) (VRef (length (w_heap w))) = true)
    by (subst w2; cbn [w_heap set_heap]; now rewrite Hmb).
  destruct (_init_rejected c (VRef (length (w_heap w))) w2 Hb2 Hp) as (m & -> & _).
  cbn [snd].
  assert (Hmhy : get_prop (w_heap (snd (new_promise w2))) (VRef (length (w_heap w))) "hydra"
                 = Ok (VRef l)).
  { unfold new_promise. subst w2. cbn [snd w_heap set_heap set_promises]. subst mh.
    rewrite get_prop_fresh.
    rewrite (merged_props_other (w_heap w) lc psc) by (auto; discriminate).
    now rewrite Hhy. }
  assert (Hml : w_heap (snd (new_promise w2)) !! l = Some (Obj ps)).
  { unfold new_promise. subst w2. cbn [snd w_heap set_heap set_promises]. subst mh.
    now apply lookup_app_l_Some. }
  destruct (apply_defaults_explicit _ _ l ps Hmhy Hml) as (ps3 & -> & Hin & Hout).
  cbn [snd]. rewrite reject_heap. cbn [w_heap set_heap].
  assert (Hh2 : w_heap (snd (new_promise w2)) = mh) by reflexivity.
  rewrite Hh2 in *.
  assert (Hlt : l < length mh) by (eapply lookup_lt_Some; eauto).
  split; [|split; [|split]].
  - eexists.
    match goal with |- promises (reject _ ?e ?x) !! _ = _ =>
      destruct (reject_fresh e x (promises w)) as [Hpr _] end.
    { unfold new_promise. subst w2. cbn. now rewrite Hp1. }
    replace (promises w2) with (promises w) by (subst w2; cbn; now rewrite Hp1).
    rewrite Hpr. now apply list_lookup_middle.
  - rewrite list_lookup_insert_ne by assumption. subst mh.
    now apply lookup_app_l_Some.
  - intros k Hk. simpl. rewrite list_lookup_insert_eq by assumption.
    now rewrite (Hin k Hk).
  - intros k Hk. simpl. rewrite list_lookup_insert_eq by assumption.
    rewrite Hl. now rewrite (Hout k Hk).
Qed.

Lemma init_rejection_leaves_defaults_witness :
  heap_wf incomplete_heap = true /\
  has_registry_block incomplete_heap (VRef 0) = true /\
  get_prop (w_heap (snd (init (friendly VNull) (VRef 0) VUndef VUndef VUndef
                           (new_instance incomplete_heap)))) (VRef 1) "servicePort"
    = Ok (VNum 0).
Proof.
  split; [reflexivity|]. split; [reflexivity|].
  destruct (init_rejection_leaves_defaults (friendly VNull) (new_instance incomplete_heap)
              0 [("hydra", VRef 1)] 1
              [("serviceName", VStr "svc"); ("redis", VRef 2)] VUndef VUndef VUndef
              eq_refl eq_refl eq_refl eq_refl (Nat.neq_succ_0 0) eq_refl eq_refl)
    as (_ & _ & Hin & _).
  exact (Hin "servicePort" (or_intror (or_introl eq_refl))).
Defined.

(** ** [init]: the positional arguments *)

Lemma init_inner_callback_first f mw extra :
  init_inner (VFun f) mw extra = init_inner VUndef (VFun f) mw.
Proof. reflexivity. Qed.

Lemma init_object_callback_first c config f mw extra w :
  init_object c config (VFun f) mw extra w = init_object c config VUndef (VFun f) mw w.
Proof. unfold init_object. now rewrite init_inner_callback_first. Qed.

(** X4. A callable second argument is the route callback: [init(config,
    routes, middleware, extra)] with a function [routes] does exactly what
    [init(config, undefined, routes, middleware)] does, for an object as
    for a path; the fourth argument plays no part. *)
Theorem init_callback_first c config f mw extra w :
  init c config (VFun f) mw extra w = init c config VUndef (VFun f) mw w.
Proof.
  destruct config; try apply init_object_callback_first.
  unfold init, bind, act.
  destruct (new_promise _) as [outer w1].
  destruct (configHelper_init c s) as [loaded| |]; reflexivity.
Qed.

(** X5. In the configuration [init] hands to [_init], each of [version],
    [registerRoutesCallback] and [registerMiddlewareCallback] is the
    positional argument when that is truthy and the configuration's own
    field otherwise (with a callable second argument standing for the
    route callback, the third for the middleware callback and no version
    given); every other field is the configuration's own. *)
Theorem init_arguments_take_precedence h lc psc version routes mw :
  heap_wf h = true ->
  h !! lc = Some (Obj psc) ->
  let merged := VRef (length h) in
  let mh := merged_heap h (VRef lc) version routes mw in
  let is_fn := String.eqb (typeof version) "function" in
  let own k := default VUndef (assoc k psc) in
  get_prop mh merged "version"
    = Ok (js_or (if is_fn then VUndef else version) (own "version")) /\
  get_prop mh merged "registerRoutesCallback"
    = Ok (js_or (if is_fn then version else routes) (own "registerRoutesCallback")) /\
  get_prop mh merged "registerMiddlewareCallback"
    = Ok (js_or (if is_fn then routes else mw) (own "registerMiddlewareCallback")) /\
  (forall k, k <> "version" -> k <> "registerRoutesCallback" ->
             k <> "registerMiddlewareCallback" ->
             get_prop mh merged k = get_prop h (VRef lc) k).
Proof.
  intros Hwf Hl merged mh is_fn own. subst merged mh. unfold merged_heap.
  assert (Hd : distinct_keys (map fst psc) = true).
  { apply heap_wf_lookup with (l := lc) (o := Obj psc) in Hwf; auto.
    simpl in Hwf. now apply andb_true_iff in Hwf as [Hd _]. }
  assert (Hbase : forall k, assoc k (assign_props [] (own_props h (VRef lc))) = assoc k psc).
  { intros k. simpl own_props. rewrite Hl. rewrite assoc_assign_props by assumption.
    now destruct (assoc k psc). }
  assert (Hm : forall k,
             assoc k (merged_props h (VRef lc) (init_inner version routes mw))
             = match assoc k (init_inner version routes mw) with
               | Some v => Some v
               | None => assoc k psc
               end).
  { intros k. unfold merged_props.
    rewrite assoc_assign_props by apply init_inner_distinct. now rewrite Hbase. }
  rewrite !get_prop_fresh, !Hm. repeat split.
  - unfold init_inner, js_or. fold is_fn.
    destruct is_fn, (truthy version) eqn:Ev, (truthy routes), (truthy mw);
      cbn; rewrite ?Ev; reflexivity.
  - unfold init_inner, js_or. fold is_fn.
    destruct is_fn, (truthy version) eqn:Ev, (truthy routes) eqn:Er, (truthy mw);
      cbn; rewrite ?Ev, ?Er; reflexivity.
  - unfold init_inner, js_or. fold is_fn.
    destruct is_fn, (truthy version) eqn:Ev, (truthy routes) eqn:Er, (truthy mw) eqn:Em;
      cbn; rewrite ?Ev, ?Er, ?Em; reflexivity.
  - intros k H1 H2 H3. rewrite get_prop_fresh, Hm.
    rewrite init_inner_keys by assumption. simpl. now rewrite Hl.
Qed.

Lemma init_arguments_take_precedence_witness :
  heap_wf complete_heap = true /\
  get_prop (merged_heap complete_heap (VRef 0) (VStr "1.2.0") (VFun 9) VUndef)
    (VRef 4) "registerRoutesCallback" = Ok (VFun 9) /\
  get_prop (merged_heap complete_heap (VRef 0) (VStr "1.2.0") VNull VUndef)
    (VRef 4) "registerRoutesCallback" = Ok (VFun 7).
Proof.
  split; [reflexivity|]. split.
  - exact (proj1 (proj2 (init_arguments_take_precedence complete_heap 0
             [("hydra", VRef 1); ("registerRoutesCallback", VFun 7)]
             (VStr "1.2.0") (VFun 9) VUndef eq_refl eq_refl))).
  - exact (proj1 (proj2 (init_arguments_take_precedence complete_heap 0
             [("hydra", VRef 1); ("registerRoutesCallback", VFun 7)]
             (VStr "1.2.0") VNull VUndef eq_refl eq_refl))).
Defined.

(** ** The cleanup signal *)

Lemma run_cleanup_listeners_fired flags w :
  run_cleanup_listeners (true :: flags) w =
    (true :: fst (run_cleanup_listeners flags w), snd (run_cleanup_listeners flags w)).
Proof.
  cbn [run_cleanup_listeners cleanup_handler negb].
  now destruct (run_cleanup_listeners flags w).
Qed.

Lemma run_cleanup_listeners_unfired flags w :
  run_cleanup_listeners (false :: flags) w =
    (true :: fst (run_cleanup_listeners flags (setTimeout TWatchdog 30000 (snd (_shutdown w)))),
     snd (run_cleanup_listeners flags (setTimeout TWatchdog 30000 (snd (_shutdown w))))).
Proof.
  cbn [run_cleanup_listeners cleanup_handler negb].
  destruct (_shutdown w) as [p w1]. cbn [snd].
  now destruct (run_cleanup_listeners flags _).
Qed.

Lemma drain_timers_succ t first n :
  drain_timers t first (S n) =
    [((t + 1000)%Z, TDrain first); ((t + 30000)%Z, TWatchdog)]
    ++ drain_timers t (first + 1) n.
Proof.
  unfold drain_timers. cbn [seq flat_map].
  replace (first + 0) with first by lia. f_equal.
  rewrite <- seq_shift, flat_map_concat_map, map_map, <- flat_map_concat_map.
  apply flat_map_ext. intros i. now replace (first + 1 + i) with (first + S i) by lia.
Qed.

(** Every field the listeners touch, after they have all run. *)
Lemma run_cleanup_listeners_spec flags w :
  fst (run_cleanup_listeners flags w) = map (fun _ => true) flags /\
  snd (run_cleanup_listeners flags w) =
    set_trace (trace w ++ drain_events (unfired flags))
      (set_promises (promises w ++ replicate (unfired flags) Pending)
         (set_timers (timers w ++ drain_timers (now w) (length (promises w)) (unfired flags))
            w)).
Proof.
  revert w. induction flags as [|b flags IH]; intros w.
  - cbn. rewrite !app_nil_r. now destruct w.
  - destruct b.
    + rewrite run_cleanup_listeners_fired. cbn [fst snd map].
      destruct (IH w) as [-> ->]. split; reflexivity.
    + rewrite run_cleanup_listeners_unfired. cbn [fst snd map].
      destruct (IH (setTimeout TWatchdog 30000 (snd (_shutdown w)))) as [-> ->].
      split; [reflexivity|].
      unfold unfired. cbn [List.filter negb length]. fold (unfired flags).
      rewrite drain_timers_succ.
      unfold _shutdown, new_promise, setTimeout, emit, drain_events.
      cbn. rewrite length_app. cbn [length].
      rewrite <- !app_assoc. reflexivity.
Qed.

Lemma unfired_all_fired (flags : list bool) : unfired (map (fun _ => true) flags) = 0.
Proof. unfold unfired. induction flags; auto. Qed.

Lemma unfired_zero (flags : list bool) :
  unfired flags = 0 -> map (fun _ => true) flags = flags.
Proof.
  unfold unfired. induction flags as [|[] flags IH]; cbn; intros H;
    [reflexivity | f_equal; auto | discriminate].
Qed.

Lemma process_emit_cleanup_spec w :
  process_emit_cleanup w =
    set_cleanup_listeners (map (fun _ => true) (cleanup_listeners w))
      (set_trace (trace w ++ EEmit "cleanup" :: drain_events (unfired (cleanup_listeners w)))
         (set_promises (promises w ++ replicate (unfired (cleanup_listeners w)) Pending)
            (set_timers (timers w ++ drain_timers (now w) (length (promises w))
                                       (unfired (cleanup_listeners w)))
               w))).
Proof.
  unfold process_emit_cleanup.
  destruct (run_cleanup_listeners_spec (cleanup_listeners (emit (EEmit "cleanup") w))
              (emit (EEmit "cleanup") w)) as [H1 H2].
  destruct (run_cleanup_listeners _ _) as [flags w1]. cbn [fst snd] in H1, H2.
  subst flags w1. unfold emit. cbn. now rewrite <- app_assoc.
Qed.

(** X6. The cleanup signal runs every installed listener once: it
    schedules one 1000 ms drain and one 30000 ms watchdog per listener
    that had not fired, hands out one pending promise per drain, and marks
    every listener as fired, so that a second signal does nothing but be
    raised. *)
Theorem cleanup_signal_fires_each_listener_once w :
  let w' := process_emit_cleanup w in
  let n := unfired (cleanup_listeners w) in
  cleanup_listeners w' = map (fun _ => true) (cleanup_listeners w) /\
  trace w' = trace w ++ EEmit "cleanup" :: drain_events n /\
  promises w' = promises w ++ replicate n Pending /\
  timers w' = timers w ++ drain_timers (now w) (length (promises w)) n /\
  this_server w' = this_server w /\
  process_emit_cleanup w' = emit (EEmit "cleanup") w'.
Proof.
  intros w' n. subst w' n. rewrite (process_emit_cleanup_spec w).
  repeat split.
  rewrite process_emit_cleanup_spec.
  cbn [cleanup_listeners set_cleanup_listeners set_trace set_promises set_timers
         trace promises timers now].
  rewrite unfired_all_fired. cbn [drain_events drain_timers replicate concat seq flat_map].
  rewrite !app_nil_r, map_map. reflexivity.
Qed.

(** ** [shutdown] with a live listener *)

(** X7. With a listener in place and nothing else waiting in the event
    loop, the promise of [shutdown] is pending through the 1000 ms wait
    and the close of the listener, and is then settled the way
    [hydra.shutdown()] settles: fulfilled with its result, rejected with
    its error, or left pending. On the way the listener is closed once,
    'Service is shutting down.' is logged at level error and sent to the
    health log, and hydra is shut down once. *)
Theorem shutdown_settles_as_hydra c w srv :
  this_server w = Some srv ->
  exited w = false ->
  timers w = [] ->
  let p := fst (shutdown w) in
  let w1 := snd (shutdown w) in
  let w2 := tick c w1 in
  let w3 := tick c w2 in
  p = length (promises w) /\
  promises w1 !! p = Some Pending /\
  promises w2 !! p = Some Pending /\
  promises w3 !! p =
    Some (match hydra_shutdown c with
          | Fulfils v => Fulfilled v
          | Rejects e => Rejected e
          | Pends => Pending
          end) /\
  trace w3 =
    trace w ++
    [ ESetTimeout 1000; EClose;
      ELog "error" [("event", VStr "error"); ("message", VStr "Service is shutting down.")];
      EHydra (HSendToHealthLog "fatal" "Service is shutting down." true);
      EHydra HShutdown ]
    ++ match hydra_shutdown c with
       | Fulfils v => [EResolve p v]
       | Rejects e => [EReject p e]
       | Pends => []
       end.
Proof.
  intros Hs He Ht p w1 w2 w3. subst p w1 w2 w3.
  destruct w as [h cfg server tm plugins ready routes mw listeners tms t ex proms tr].
  cbn in Hs, He, Ht. subst server ex tms.
  assert (Hmid : (proms ++ [Pending]) !! length proms = Some Pending)
    by now apply list_lookup_middle.
  unfold shutdown, _shutdown, new_promise, setTimeout, emit, tick.
  cbn -[lookup insert String.eqb].
  unfold closed, log, resolve, reject, settle, emit.
  cbn -[lookup insert].
  split; [reflexivity|]. split; [exact Hmid|]. split; [exact Hmid|].
  destruct (hydra_shutdown c) as [v|e|]; cbn -[lookup insert];
    rewrite ?Hmid; cbn -[lookup insert];
    rewrite ?insert_last, <- ?app_assoc; split;
    try (now apply list_lookup_middle); reflexivity.
Qed.

Lemma shutdown_settles_as_hydra_witness :
  this_server started_world = Some HttpServer /\
  promises (tick (friendly descriptor)
              (tick (friendly descriptor)
                 (snd (shutdown (tick (friendly descriptor) started_world)))))
    !! 1 = Some (Fulfilled VUndef).
Proof.
  split; [reflexivity|].
  assert (H := shutdown_settles_as_hydra (friendly descriptor)
                 (tick (friendly descriptor) started_world) HttpServer).
  vm_compute in H. vm_compute.
  exact (proj1 (proj2 (proj2 (proj2 (H eq_refl eq_refl eq_refl))))).
Defined.

(** ** The callback of [server.listen] *)

(** X8. When the listener reports that it is listening, the user's route
    callback runs first and the catch-all, the not-found handler and the
    terminal error handler are mounted after it, in that order; if the
    route callback throws (or is truthy without being callable) the error
    is uncaught and none of the three is ever mounted. *)
Theorem listening_callback_mounts_handlers_last c w :
  let f := this_registerRoutesCallback w in
  let w' := run_task c TListening w in
  let handlers := [EAppUse MwCatchAll; EAppUse MwNotFound; EAppUse MwErrorHandler] in
  (truthy f = false -> trace w' = trace w ++ handlers) /\
  (forall id, f = VFun id -> callback_raises c id = None ->
     trace w' = trace w ++ ECallback f :: handlers) /\
  (forall id e, f = VFun id -> callback_raises c id = Some e ->
     trace w' = trace w ++ [ECallback f; EUncaught e]) /\
  (truthy f = true -> (forall id, f <> VFun id) ->
     exists e, err_name e = "TypeError" /\ trace w' = trace w ++ [EUncaught e]).
Proof.
  intros f w' handlers. subst f w' handlers.
  unfold run_task, uncaught, listening_callback, bind, read, call_if_set.
  repeat split.
  - intros Hf. rewrite Hf. cbn. now rewrite <- !app_assoc.
  - intros id Hf Hc. rewrite Hf. cbn [truthy]. unfold bind, act. rewrite Hc.
    cbn. now rewrite <- !app_assoc.
  - intros id e Hf Hc. rewrite Hf. cbn [truthy]. unfold bind, act. rewrite Hc.
    cbn. now rewrite <- !app_assoc.
  - intros Hf Hn. rewrite Hf.
    destruct (this_registerRoutesCallback w) eqn:E; try discriminate;
      try (eexists; split; [|reflexivity]; reflexivity).
    now destruct (Hn f).
Qed.

Lemma listening_callback_mounts_handlers_last_witness :
  this_registerRoutesCallback started_world = VFun 7 /\
  trace (run_task (friendly descriptor) TListening started_world)
    = trace started_world
      ++ [ECallback (VFun 7); EAppUse MwCatchAll; EAppUse MwNotFound; EAppUse MwErrorHandler].
Proof.
  split; [reflexivity|].
  destruct (listening_callback_mounts_handlers_last (friendly descriptor) started_world)
    as (_ & H & _).
  exact (H 7 eq_refl eq_refl).
Defined.

(** ** The plugin phases of [start] *)

Lemma plugin_free_silent w w' :
  this_registeredPlugins w' = this_registeredPlugins w -> trace w' = trace w ->
  plugin_free w w'.
Proof. intros Hp Ht. split; auto. exists []. now rewrite app_nil_r. Qed.

Lemma plugin_free_event e w w' :
  this_registeredPlugins w' = this_registeredPlugins w ->
  trace w' = trace w ++ [e] -> is_plugin_event e = false -> plugin_free w w'.
Proof. intros Hp Ht He. split; auto. exists [e]. simpl. now rewrite He. Qed.

Lemma plugin_free_frame : frame plugin_free.
Proof.
  split.
  - intros w. now apply plugin_free_silent.
  - intros a b c (Hp1 & d1 & Ht1 & Hd1) (Hp2 & d2 & Ht2 & Hd2).
    split; [congruence|]. exists (d1 ++ d2).
    rewrite Ht2, Ht1, <- app_assoc. split; auto.
    now rewrite existsb_app, Hd1, Hd2.
  - intros h w. now apply plugin_free_silent.
Qed.

Lemma keeps_call_if_set_callback R (HR : frame R) c name f :
  (forall g w, R w (emit (ECallback g) w)) -> keeps R (call_if_set c name f).
Proof.
  intros He. unfold call_if_set. destruct (truthy f); [|apply (keeps_ret _ HR)].
  destruct f; try apply (keeps_throw _ HR).
  apply (keeps_bind _ HR); [apply keeps_act; intros; apply He|intros _].
  destruct (callback_raises c f); [apply (keeps_throw _ HR)|apply (keeps_ret _ HR)].
Qed.

Ltac plugin_free_act :=
  first [ now apply plugin_free_silent
        | now (eapply plugin_free_event; [reflexivity | reflexivity | reflexivity]) ].

Ltac frame_steps HF act_tac :=
  repeat first
    [ apply (keeps_ret _ HF)
    | apply (keeps_throw _ HF)
    | apply (keeps_read _ HF)
    | apply (keeps_prop _ HF)
    | apply (keeps_pure _ HF)
    | apply (keeps_assign _ HF)
    | apply (keeps_call_if_set_callback _ HF); intros; act_tac
    | apply keeps_act; intros; act_tac
    | apply (keeps_bind _ HF); [ | intros ]
    | match goal with
      | |- keeps _ (if ?b then _ else _) => destruct b
      | |- keeps _ (match ?x with _ => _ end) => destruct x
      end ].

Lemma initService_plugin_free c : keeps plugin_free (initService c).
Proof. unfold initService. frame_steps plugin_free_frame plugin_free_act. Qed.

Lemma plugin_calls_app t1 t2 : plugin_calls (t1 ++ t2) = plugin_calls t1 ++ plugin_calls t2.
Proof. apply List.filter_app. Qed.

Lemma plugin_calls_events method plugins :
  plugin_calls (plugin_events method plugins) = plugin_events method plugins.
Proof.
  unfold plugin_calls, plugin_events. induction plugins; simpl; [reflexivity|].
  now rewrite IHplugins.
Qed.

Lemma plugin_calls_none d : existsb is_plugin_event d = false -> plugin_calls d = [].
Proof.
  unfold plugin_calls. induction d as [|e d IH]; simpl; [reflexivity|].
  intros H. apply orb_false_iff in H as [He Hd]. rewrite He. auto.
Qed.

(** One plugin phase: the plugins are called in registration order up to
    the first that throws; the phase hands on a promise per plugin only
    when all of them were called. *)
Lemma call_plugins_spec method sel plugins proms w :
  exists k,
    k <= length plugins /\
    snd (call_plugins method sel plugins proms w)
      = set_trace (trace w ++ plugin_events method (firstn k plugins)) w /\
    (forall r, fst (call_plugins method sel plugins proms w) = Ok r ->
       k = length plugins /\
       exists os, r = proms ++ os /\
                  Forall2 (fun pl o => sel pl = PReturns o) plugins os).
Proof.
  revert proms w. induction plugins as [|pl rest IH]; intros proms w.
  - exists 0. cbn. split; [lia|]. split; [rewrite app_nil_r; now destruct w|].
    intros r [= <-]. split; [reflexivity|]. exists []. rewrite app_nil_r. auto.
  - cbn [call_plugins]. unfold bind, act.
    destruct (sel pl) as [o|e] eqn:Es.
    + destruct (IH (proms ++ [o]) (emit (EPlugin (plugin_id pl) method) w))
        as (k & Hk & Hw & Hr).
      exists (S k). split; [cbn; lia|]. split.
      * rewrite Hw. unfold emit. cbn. now rewrite <- app_assoc.
      * intros r Hok. destruct (Hr r Hok) as (-> & os & -> & Hos).
        split; [reflexivity|]. exists (o :: os). rewrite <- app_assoc. split; auto.
    + exists 1. cbn. split; [lia|]. split; [reflexivity|]. intros r [=].
Qed.

Lemma q_all_fulfils proms v :
  q_all proms = Fulfils v -> Forall (fun o => exists x, o = Fulfils x) proms.
Proof.
  induction proms as [|[x|e|] proms IH]; simpl; intros H; auto.
  - constructor; eauto.
  - discriminate.
  - destruct (q_all proms); discriminate.
Qed.

Lemma plugin_events_firstn_prefix method k (plugins : list plugin) rest :
  plugin_events method (firstn k plugins) `prefix_of` plugin_events method plugins ++ rest.
Proof.
  exists (plugin_events method (skipn k plugins) ++ rest).
  rewrite app_assoc. f_equal. unfold plugin_events.
  now rewrite <- map_app, firstn_skipn.
Qed.

Ltac not_done := let H := fresh in intros ? H; cbn in H; discriminate H.

(** The plugin calls of a run of the startup chain. *)
Lemma phases_plugin_calls c w :
  let plugins := this_registeredPlugins w in
  exists d k res w',
    phases c w = (res, w') /\
    trace w' = trace w ++ d /\
    (plugin_calls d = plugin_events "setConfig" (firstn k plugins) \/
     plugin_calls d = plugin_events "setConfig" plugins
                      ++ plugin_events "onServiceReady" (firstn k plugins)) /\
    (forall v, res = Done v ->
       plugin_calls d = plugin_events "setConfig" plugins
                        ++ plugin_events "onServiceReady" plugins).
Proof.
  intros plugins. unfold phases. unfold and_then at 1.
  set (w1 := emit (EHydra (HInit (this_config w) (this_testMode w))) w).
  destruct (hydra_init c (this_config w) (this_testMode w)) as [config| |];
    cbn [await fst snd];
    try (exists [EHydra (HInit (this_config w) (this_testMode w))], 0; eexists _, _;
         split; [reflexivity|]; split; [reflexivity|];
         split; [left; reflexivity|discriminate]).
  (* configuration phase *)
  unfold and_then at 1. unfold sync at 1. unfold bind at 1, act at 1.
  unfold bind at 1, read at 1.
  change (this_registeredPlugins (set_config config w1)) with plugins.
  destruct (call_plugins_spec "setConfig" setConfig plugins [] (set_config config w1))
    as (k1 & Hk1 & Hw1 & Hr1).
  destruct (call_plugins "setConfig" setConfig plugins [] (set_config config w1))
    as [[proms|e] w2] eqn:E1; cbn [fst snd] in Hw1, Hr1.
  2:{ eexists _, k1, _, _. split; [reflexivity|]. rewrite Hw1.
      cbn [trace set_trace set_config w1 emit].
      rewrite <- app_assoc. split; [reflexivity|]. split; [|discriminate].
      left. rewrite plugin_calls_app, plugin_calls_events. reflexivity. }
  destruct (Hr1 proms eq_refl) as (-> & os1 & -> & Hos1). rewrite firstn_all in Hw1.
  assert (Ht2 : trace w2 = trace w ++ EHydra (HInit (this_config w) (this_testMode w))
                                  :: plugin_events "setConfig" plugins)
    by (rewrite Hw1; cbn; now rewrite <- app_assoc).
  assert (Hp2 : this_registeredPlugins w2 = plugins) by (now rewrite Hw1).
  assert (Hc2 : plugin_calls (EHydra (HInit (this_config w) (this_testMode w))
                                :: plugin_events "setConfig" plugins)
                = plugin_events "setConfig" plugins)
    by (change (?x :: ?l) with ([x] ++ l);
        now rewrite plugin_calls_app, plugin_calls_events).
  clear Hw1 E1 Hr1.
  unfold and_then at 1.
  destruct (q_all ([] ++ os1)) as [v1| |]; cbn [await fst snd];
    try (eexists _, (length plugins), _, _; split; [reflexivity|];
         split; [exact Ht2|]; split;
         [left; now rewrite firstn_all, Hc2 | discriminate]).
  (* registration *)
  unfold and_then at 1.
  destruct (hydra_registerService c) as [serviceInfo| |]; cbn [await fst snd];
    try (eexists _, (length plugins), _, _; split; [reflexivity|]; split;
         [unfold emit; cbn; rewrite Ht2, <- app_assoc; reflexivity|]; split;
         [left; rewrite firstn_all, plugin_calls_app, Hc2; cbn; now rewrite app_nil_r
         |discriminate]).
  set (w3 := emit (EHydra HRegisterService) w2).
  assert (Ht3 : trace w3 = trace w ++ (EHydra (HInit (this_config w) (this_testMode w))
                                   :: plugin_events "setConfig" plugins)
                             ++ [EHydra HRegisterService])
    by (subst w3; unfold emit; cbn; now rewrite Ht2, <- app_assoc).
  assert (Hp3 : this_registeredPlugins w3 = plugins) by exact Hp2.
  clearbody w3.
  (* ready phase *)
  unfold and_then at 1. unfold sync at 1. unfold bind at 1.
  destruct (initService_plugin_free c w3) as (Hp4 & d4 & Ht4 & Hd4).
  destruct (initService c w3) as [[[]|e] w4]; cbn [fst snd] in Hp4, Ht4.
  2:{ eexists _, 0, _, _. split; [reflexivity|]. rewrite Ht4, Ht3, <- app_assoc.
      split; [reflexivity|]. split; [|discriminate]. right.
      rewrite !plugin_calls_app, Hc2, (plugin_calls_none d4 Hd4). cbn.
      now rewrite app_nil_r. }
  unfold bind at 1, read at 1. rewrite Hp4, Hp3.
  destruct (call_plugins_spec "onServiceReady" onServiceReady plugins [] w4)
    as (k2 & Hk2 & Hw2 & Hr2).
  destruct (call_plugins "onServiceReady" onServiceReady plugins [] w4)
    as [[proms|e] w5] eqn:E2; cbn [fst snd] in Hw2, Hr2.
  2:{ eexists _, k2, _, _. split; [reflexivity|]. rewrite Hw2. cbn [trace set_trace].
      rewrite Ht4, Ht3, <- !app_assoc. split; [reflexivity|]. split; [|discriminate].
      right. rewrite app_assoc, !plugin_calls_app, Hc2, (plugin_calls_none d4 Hd4),
               plugin_calls_events. cbn. now rewrite ?app_nil_r. }
  destruct (Hr2 proms eq_refl) as (-> & os2 & -> & Hos2). rewrite firstn_all in Hw2.
  assert (Ht5 : trace w5 = trace w ++ (EHydra (HInit (this_config w) (this_testMode w))
                                   :: plugin_events "setConfig" plugins)
                             ++ [EHydra HRegisterService] ++ d4
                             ++ plugin_events "onServiceReady" plugins)
    by (rewrite Hw2; cbn [trace set_trace]; now rewrite Ht4, Ht3, <- !app_assoc).
  assert (Hc5 : plugin_calls ((EHydra (HInit (this_config w) (this_testMode w))
                                 :: plugin_events "setConfig" plugins)
                              ++ [EHydra HRegisterService] ++ d4
                              ++ plugin_events "onServiceReady" plugins)
                = plugin_events "setConfig" plugins
                  ++ plugin_events "onServiceReady" plugins)
    by (rewrite !plugin_calls_app, Hc2, (plugin_calls_none d4 Hd4), plugin_calls_events;
        cbn; now rewrite ?app_nil_r).
  unfold and_then.
  destruct (q_all ([] ++ os2)) as [v2| |]; cbn [await fst snd];
    eexists _, (length plugins), _, _; (split; [reflexivity|]);
    (split; [exact Ht5|]); rewrite firstn_all; split; auto.
Qed.

Lemma reject_server p e w : this_server (reject p e w) = this_server w.
Proof. unfold reject, settle. cbn. now destruct (_ !! p) as [[]|]. Qed.

Lemma resolve_trace p v w : trace (resolve p v w) = trace w ++ [EResolve p v].
Proof. unfold resolve. now rewrite settle_trace. Qed.

Lemma reject_trace p e w : trace (reject p e w) = trace w ++ [EReject p e].
Proof. unfold reject. now rewrite settle_trace. Qed.

Lemma ready_settle_trace s w : trace (ready_settle s w) = trace w.
Proof. unfold ready_settle. now destruct (this_ready w). Qed.

Lemma ready_settle_server s w : this_server (ready_settle s w) = this_server w.
Proof. unfold ready_settle. now destruct (this_ready w). Qed.

Lemma ready_settle_listeners s w : cleanup_listeners (ready_settle s w) = cleanup_listeners w.
Proof. unfold ready_settle. now destruct (this_ready w). Qed.

(** What the last [then] and the [catch] of [start] add to the trace. *)
Lemma start_trace c p w :
  trace (start c p w) =
    trace (snd (phases c w)) ++
    match fst (phases c w) with
    | Done serviceInfo => [EResolve p serviceInfo; EReadyResolve VUndef]
    | Failed err =>
        EReadyReject err :: EEmit "cleanup"
        :: drain_events (unfired (cleanup_listeners (snd (phases c w))))
        ++ [EReject p err]
    | Stuck => []
    end.
Proof.
  unfold start. destruct (phases c w) as [[serviceInfo|err|] w1]; cbn [fst snd].
  - unfold ready_resolve. rewrite ready_settle_trace. unfold emit at 1.
    cbn [trace set_trace]. rewrite resolve_trace. now rewrite <- app_assoc.
  - rewrite reject_trace, process_emit_cleanup_spec. cbn [trace set_trace set_cleanup_listeners].
    unfold ready_reject. rewrite ready_settle_trace, ready_settle_listeners.
    unfold emit. cbn. rewrite <- !app_assoc. reflexivity.
  - now rewrite app_nil_r.
Qed.

Lemma plugin_calls_drain_events n : plugin_calls (drain_events n) = [].
Proof.
  unfold drain_events. induction n as [|n IH]; [reflexivity|].
  cbn [replicate concat]. rewrite plugin_calls_app, IH. reflexivity.
Qed.

(** X9. In every run of [start], whatever fails or hangs, the plugin
    calls made are an initial stretch of: [setConfig] on every registered
    plugin in registration order, then [onServiceReady] on every
    registered plugin in registration order. So no plugin is told the
    service is ready before every plugin has been given the configuration;
    and a run whose phases all complete makes exactly these calls. *)
Theorem start_calls_plugins_in_phase_order c p w :
  let plugins := this_registeredPlugins w in
  exists d,
    trace (start c p w) = trace w ++ d /\
    plugin_calls d `prefix_of`
      (plugin_events "setConfig" plugins ++ plugin_events "onServiceReady" plugins) /\
    (forall v, fst (phases c w) = Done v ->
       plugin_calls d = plugin_events "setConfig" plugins
                        ++ plugin_events "onServiceReady" plugins).
Proof.
  intros plugins.
  destruct (phases_plugin_calls c w) as (d & k & res & w1 & Hph & Ht & Hk & Hdone).
  fold plugins in Hk, Hdone.
  rewrite start_trace, Hph. cbn [fst snd]. rewrite Ht, <- app_assoc.
  eexists. split; [reflexivity|].
  assert (Htail : plugin_calls
            match res with
            | Done serviceInfo => [EResolve p serviceInfo; EReadyResolve VUndef]
            | Failed err =>
                EReadyReject err :: EEmit "cleanup"
                :: drain_events (unfired (cleanup_listeners w1)) ++ [EReject p err]
            | Stuck => []
            end = []).
  { destruct res; try reflexivity.
    change (EReadyReject e :: EEmit "cleanup" :: ?l) with ([EReadyReject e; EEmit "cleanup"] ++ l).
    now rewrite !plugin_calls_app, plugin_calls_drain_events. }
  rewrite plugin_calls_app, Htail, app_nil_r. split.
  - destruct Hk as [->| ->].
    + apply plugin_events_firstn_prefix.
    + apply prefix_app.
      pose proof (plugin_events_firstn_prefix "onServiceReady" k plugins []) as Hpre.
      now rewrite app_nil_r in Hpre.
  - intros v Hv. now apply (Hdone v).
Qed.

Lemma start_calls_plugins_in_phase_order_witness :
  fst (phases (friendly descriptor) two_plugins_world) = Done descriptor /\
  plugin_calls (trace (start (friendly descriptor) 0 two_plugins_world))
    = [ EPlugin 1 "setConfig"; EPlugin 2 "setConfig";
        EPlugin 1 "onServiceReady"; EPlugin 2 "onServiceReady" ].
Proof.
  assert (Hd : fst (phases (friendly descriptor) two_plugins_world) = Done descriptor)
    by (vm_compute; reflexivity).
  split; [exact Hd|].
  destruct (start_calls_plugins_in_phase_order (friendly descriptor) 0 two_plugins_world)
    as (d & Ht & _ & Hdone).
  rewrite Ht. exact (Hdone descriptor Hd).
Defined.

(** ** A plugin that does not take the configuration *)

(** The startup chain when some plugin's [setConfig] throws, is rejected
    or never settles: it stops in the configuration phase. *)
Lemma phases_blocked c w :
  Exists (fun pl => forall v, setConfig pl <> PReturns (Fulfils v))
         (this_registeredPlugins w) ->
  exists k res w',
    phases c w = (res, w') /\
    (forall v, res <> Done v) /\
    trace w' = trace w ++ EHydra (HInit (this_config w) (this_testMode w))
                        :: plugin_events "setConfig" (firstn k (this_registeredPlugins w)) /\
    this_server w' = this_server w /\
    cleanup_listeners w' = cleanup_listeners w.
Proof.
  intros Hbad. set (plugins := this_registeredPlugins w) in *.
  unfold phases. unfold and_then at 1.
  set (w1 := emit (EHydra (HInit (this_config w) (this_testMode w))) w).
  destruct (hydra_init c (this_config w) (this_testMode w)) as [config| |];
    cbn [await fst snd];
    try (exists 0; eexists _, _; split; [reflexivity|]; split; [discriminate|];
         split; [reflexivity|]; split; reflexivity).
  unfold and_then at 1. unfold sync at 1. unfold bind at 1, act at 1.
  unfold bind at 1, read at 1.
  change (this_registeredPlugins (set_config config w1)) with plugins.
  destruct (call_plugins_spec "setConfig" setConfig plugins [] (set_config config w1))
    as (k1 & Hk1 & Hw1 & Hr1).
  destruct (call_plugins "setConfig" setConfig plugins [] (set_config config w1))
    as [[proms|e] w2] eqn:E1; cbn [fst snd] in Hw1, Hr1.
  2:{ exists k1. eexists _, _. split; [reflexivity|]. split; [discriminate|].
      rewrite Hw1. split; [cbn; now rewrite <- app_assoc|]. split; reflexivity. }
  destruct (Hr1 proms eq_refl) as (-> & os1 & -> & Hos1).
  unfold and_then at 1.
  destruct (q_all ([] ++ os1)) as [v1| |] eqn:Eq; cbn [await fst snd].
  - exfalso. apply q_all_fulfils in Eq. cbn [app] in Eq.
    clear -Hbad Hos1 Eq. induction Hos1 as [|pl o pls os Hpl _ IH].
    + inversion Hbad.
    + apply Forall_cons in Eq as [[x ->] Eq]. inversion Hbad; subst; eauto.
      eapply H0; eauto.
  - exists (length plugins). eexists _, _. split; [reflexivity|]. split; [discriminate|].
    rewrite Hw1. split; [cbn; now rewrite <- app_assoc|]. split; reflexivity.
  - exists (length plugins). eexists _, _. split; [reflexivity|]. split; [discriminate|].
    rewrite Hw1. split; [cbn; now rewrite <- app_assoc|]. split; reflexivity.
Qed.

(** X10. If the [setConfig] of any registered plugin throws, returns a
    promise that is rejected, or one that never settles, [start] goes no
    further than the configuration phase: the service is never registered
    with hydra, no plugin is told the service is ready, no listener is
    created and [this.server] is left as it was. *)
Theorem plugin_failure_blocks_registration c p w :
  Exists (fun pl => forall v, setConfig pl <> PReturns (Fulfils v))
         (this_registeredPlugins w) ->
  exists d,
    trace (start c p w) = trace w ++ d /\
    ~ In (EHydra HRegisterService) d /\
    ~ In ECreateServer d /\
    (forall id, ~ In (EPlugin id "onServiceReady") d) /\
    this_server (start c p w) = this_server w.
Proof.
  intros Hbad.
  destruct (phases_blocked c w Hbad) as (k & res & w1 & Hph & Hres & Ht & Hs & Hl).
  rewrite start_trace. unfold start. rewrite Hph. cbn [fst snd]. rewrite Ht, <- app_assoc.
  eexists. split; [reflexivity|].
  assert (Hall : Forall (fun e => e <> EHydra HRegisterService /\ e <> ECreateServer /\
                                  forall id, e <> EPlugin id "onServiceReady")
            ((EHydra (HInit (this_config w) (this_testMode w))
                :: plugin_events "setConfig" (firstn k (this_registeredPlugins w)))
             ++ match res with
                | Done serviceInfo => [EResolve p serviceInfo; EReadyResolve VUndef]
                | Failed err =>
                    EReadyReject err :: EEmit "cleanup"
                    :: drain_events (unfired (cleanup_listeners w1)) ++ [EReject p err]
                | Stuck => []
                end)).
  { apply Forall_app. split.
    - constructor; [repeat split; discriminate|].
      unfold plugin_events. apply Forall_map, Forall_forall. intros pl _.
      repeat split; discriminate.
    - destruct res as [v|err|]; [now destruct (Hres v)| |constructor].
      constructor; [repeat split; discriminate|].
      constructor; [repeat split; discriminate|].
      apply Forall_app. split; [|constructor; [repeat split; discriminate|constructor]].
      unfold drain_events. generalize (unfired (cleanup_listeners w1)) as n.
      induction n as [|n IH]; [constructor|].
      cbn [replicate concat app].
      constructor; [repeat split; discriminate|].
      constructor; [repeat split; discriminate|exact IH]. }
  rewrite List.Forall_forall in Hall.
  repeat split.
  - intros Hin. apply Hall in Hin. tauto.
  - intros Hin. apply Hall in Hin. tauto.
  - intros id Hin. apply Hall in Hin. destruct Hin as (_ & _ & H). now apply (H id).
  - destruct res as [v|err|]; [now destruct (Hres v)| |exact Hs].
    rewrite reject_server, process_emit_cleanup_spec. cbn.
    unfold ready_reject. now rewrite ready_settle_server.
Qed.

Lemma plugin_failure_blocks_registration_witness :
  Exists (fun pl => forall v, setConfig pl <> PReturns (Fulfils v))
         (this_registeredPlugins blocked_world) /\
  this_server (start (friendly descriptor) 0 blocked_world) = None.
Proof.
  assert (H : Exists (fun pl => forall v, setConfig pl <> PReturns (Fulfils v))
                     (this_registeredPlugins blocked_world))
    by (apply Exists_cons_tl, Exists_cons_hd; intros v; discriminate).
  split; [exact H|].
  destruct (plugin_failure_blocks_registration (friendly descriptor) 0 blocked_world H)
    as (d & _ & _ & _ & _ & Hs).
  exact Hs.
Defined.

(** ** [_registerRoutes]: nothing but mounts until the list is complete *)

Lemma each_method_pure routePath routeInfo methods acc w :
  snd (each_method routePath routeInfo methods acc w) = w.
Proof.
  revert acc. induction methods as [|m rest IH]; intros acc; [reflexivity|].
  cbn [each_method]. unfold bind, prop.
  destruct (get_prop (w_heap w) routeInfo "path"); [apply IH|reflexivity].
Qed.

Lemma each_layer_pure routePath layers acc w :
  snd (each_layer routePath layers acc w) = w.
Proof.
  revert acc. induction layers as [|layer rest IH]; intros acc; [reflexivity|].
  cbn [each_layer]. unfold bind at 1, prop at 1.
  destruct (get_prop (w_heap w) layer "route") as [routeInfo|]; [|reflexivity].
  unfold bind at 1.
  destruct (truthy routeInfo).
  - unfold bind at 1, prop at 1.
    destruct (get_prop (w_heap w) routeInfo "methods") as [methods|]; [|reflexivity].
    unfold bind at 1.
    destruct (object_keys (w_heap w) methods) as [keys|]; [|reflexivity].
    pose proof (each_method_pure routePath routeInfo keys acc w) as Hm.
    destruct (each_method routePath routeInfo keys acc w) as [[acc'|e] w'];
      cbn [snd] in Hm; subst w'; [apply IH|reflexivity].
  - cbn [ret]. apply IH.
Qed.

Lemma for_each_elems_pure x w : snd (for_each_elems x w) = w.
Proof.
  destruct x; try reflexivity. cbn. now destruct (w_heap w !! l) as [[]|].
Qed.

Lemma each_route_path_mounts routes routePaths acc w :
  exists d,
    snd (each_route_path routes routePaths acc w) = set_trace (trace w ++ d) w /\
    forallb is_mount d = true.
Proof.
  revert acc w. induction routePaths as [|routePath rest IH]; intros acc w.
  - exists []. cbn. rewrite app_nil_r. split; [now destruct w|reflexivity].
  - assert (Hstay : exists d, w = set_trace (trace w ++ d) w /\ forallb is_mount d = true)
      by (exists []; rewrite app_nil_r; split; [now destruct w|reflexivity]).
    cbn [each_route_path]. unfold bind at 1, prop at 1.
    destruct (get_prop (w_heap w) routes routePath) as [router|]; [|exact Hstay].
    unfold bind at 1, prop at 1.
    destruct (get_prop (w_heap w) router "stack") as [stack|]; [|exact Hstay].
    unfold bind at 1.
    pose proof (for_each_elems_pure stack w) as Hf.
    destruct (for_each_elems stack w) as [[layers|e] w1]; cbn [snd] in Hf; subst w1;
      [|exact Hstay].
    unfold bind at 1.
    pose proof (each_layer_pure routePath layers acc w) as Hl.
    destruct (each_layer routePath layers acc w) as [[acc'|e] w1]; cbn [snd] in Hl;
      subst w1; [|exact Hstay].
    unfold bind at 1, prop at 1.
    destruct (get_prop (w_heap w) routes routePath) as [router'|]; [|exact Hstay].
    unfold bind at 1, act at 1.
    destruct (IH acc' (emit (EAppUse (MwRouter routePath router')) w)) as (d & Hd & Hm).
    exists (EAppUse (MwRouter routePath router') :: d). split.
    + rewrite Hd. unfold emit. cbn. now rewrite <- app_assoc.
    + cbn. exact Hm.
Qed.

(** X11. [_registerRoutes] touches nothing but the application and hydra:
    the world it leaves differs from the one it found by its trace alone.
    When it returns, it has mounted routers and then submitted one route
    list, as its last act; when it throws (an entry that is no router, a
    layer that cannot be read), all it has done is mount the routers of
    the keys that came before, and hydra has been handed no list, not even
    a partial one. *)
Theorem _registerRoutes_submits_last_or_never routes w :
  exists d,
    snd (_registerRoutes routes w) = set_trace (trace w ++ d) w /\
    match fst (_registerRoutes routes w) with
    | Ok _ =>
        exists ms routesList,
          d = ms ++ [EHydra (HRegisterRoutes routesList)] /\ forallb is_mount ms = true
    | Throw _ => forallb is_mount d = true
    end.
Proof.
  assert (H : exists d r w',
             _registerRoutes routes w = (r, w') /\
             w' = set_trace (trace w ++ d) w /\
             match r with
             | Ok _ =>
                 exists ms routesList,
                   d = ms ++ [EHydra (HRegisterRoutes routesList)] /\
                   forallb is_mount ms = true
             | Throw _ => forallb is_mount d = true
             end).
  { unfold _registerRoutes. unfold bind at 1.
    destruct (object_keys (w_heap w) routes) as [routePaths|e].
    2:{ exists []. eexists _, _. split; [reflexivity|]. rewrite app_nil_r.
        split; [now destruct w|reflexivity]. }
    unfold bind at 1.
    destruct (each_route_path_mounts routes routePaths [] w) as (d & Hd & Hm).
    destruct (each_route_path routes routePaths [] w) as [[routesList|e] w1];
      cbn [fst snd] in Hd; subst w1.
    - exists (d ++ [EHydra (HRegisterRoutes routesList)]). eexists _, _.
      split; [reflexivity|]. split.
      + unfold emit. cbn. now rewrite <- app_assoc.
      + exists d, routesList. auto.
    - exists d. eexists _, _. split; [reflexivity|]. auto. }
  destruct H as (d & r & w' & -> & -> & Hr). exists d. auto.
Qed.

Lemma _registerRoutes_submits_last_or_never_witness :
  (exists e, fst (_registerRoutes (VRef 0) (new_instance half_routes_heap)) = Throw e) /\
  exists d,
    snd (_registerRoutes (VRef 0) (new_instance half_routes_heap))
      = set_trace (trace (new_instance half_routes_heap) ++ d)
          (new_instance half_routes_heap) /\
    forallb is_mount d = true.
Proof.
  split; [eexists; reflexivity|].
  destruct (_registerRoutes_submits_last_or_never (VRef 0) (new_instance half_routes_heap))
    as (d & Hd & Hm).
  exists d. split; [exact Hd|exact Hm].
Defined.

(** ** Promises handed out earlier are left alone *)

Lemma kept_silent n w w' : promises w' = promises w -> kept n w w'.
Proof. intros H _. split; now rewrite H. Qed.

Lemma kept_frame n : frame (kept n).
Proof.
  split.
  - intros w. now apply kept_silent.
  - intros a b c H1 H2 Hn. destruct (H1 Hn) as [L1 K1].
    destruct H2 as [L2 K2]; [lia|]. split; [lia|].
    intros q Hq. now rewrite K2, K1.
  - intros h w. now apply kept_silent.
Qed.

Lemma kept_settle n p s w : n <= p -> kept n w (settle p s w).
Proof.
  intros Hp. unfold settle. destruct (promises w !! p) as [[]|];
    try (now apply kept_silent).
  intros _. split; cbn.
  - now rewrite length_insert.
  - intros q Hq. apply list_lookup_insert_ne. lia.
Qed.

Lemma kept_reject n p e w : n <= p -> kept n w (reject p e w).
Proof.
  intros Hp. unfold reject.
  apply (frame_trans _ (kept_frame n)) with (emit (EReject p e) w);
    [now apply kept_silent | now apply kept_settle].
Qed.

Lemma kept_resolve n p v w : n <= p -> kept n w (resolve p v w).
Proof.
  intros Hp. unfold resolve.
  apply (frame_trans _ (kept_frame n)) with (emit (EResolve p v) w);
    [now apply kept_silent | now apply kept_settle].
Qed.

Lemma kept_append n w w' extra : promises w' = promises w ++ extra -> kept n w w'.
Proof.
  intros H Hn. split; rewrite H.
  - rewrite length_app. lia.
  - intros q Hq. apply lookup_app_l. lia.
Qed.

Lemma kept_process_emit_cleanup n w : kept n w (process_emit_cleanup w).
Proof. rewrite process_emit_cleanup_spec. eapply kept_append. reflexivity. Qed.

Lemma kept_ready_settle n s w : kept n w (ready_settle s w).
Proof. apply kept_silent. unfold ready_settle. now destruct (this_ready w). Qed.

Lemma kept_start n c p w : n <= p -> kept n w (start c p w).
Proof.
  intros Hp. unfold start.
  destruct (phases_quiet c w) as (Hpr & _ & _).
  destruct (phases c w) as [[serviceInfo|err|] w1]; cbn [snd] in Hpr.
  - apply (frame_trans _ (kept_frame n)) with w1; [now apply kept_silent|].
    apply (frame_trans _ (kept_frame n)) with (resolve p serviceInfo w1);
      [now apply kept_resolve|].
    unfold ready_resolve.
    apply (frame_trans _ (kept_frame n))
      with (emit (EReadyResolve VUndef) (resolve p serviceInfo w1));
      [now apply kept_silent | apply kept_ready_settle].
  - apply (frame_trans _ (kept_frame n)) with w1; [now apply kept_silent|].
    apply (frame_trans _ (kept_frame n)) with (ready_reject err w1).
    { unfold ready_reject.
      apply (frame_trans _ (kept_frame n)) with (emit (EReadyReject err) w1);
        [now apply kept_silent | apply kept_ready_settle]. }
    apply (frame_trans _ (kept_frame n)) with (process_emit_cleanup (ready_reject err w1));
      [apply kept_process_emit_cleanup | now apply kept_reject].
  - now apply kept_silent.
Qed.

Ltac kept_act :=
  first [ now apply kept_silent
        | apply kept_reject; assumption
        | apply kept_start; assumption ].

Lemma init_executor_kept n c config p :
  n <= p -> keeps (kept n) (init_executor c config p).
Proof.
  intros Hp.
  unfold init_executor, apply_defaults, default_hydra_field, init_checked,
    capture_and_start, capture.
  frame_steps (kept_frame n) kept_act.
Qed.

Lemma _init_kept c config w : kept (length (promises w)) w (snd (_init c config w)).
Proof.
  unfold _init, new_promise.
  pose proof (init_executor_kept (length (promises w)) c config (length (promises w))
                (le_n _) (set_promises (promises w ++ [Pending]) w)) as H.
  destruct (init_executor _ _ _ _) as [[[]|e] w1]; cbn [snd] in H |- *.
  - apply (frame_trans _ (kept_frame _)) with (set_promises (promises w ++ [Pending]) w);
      [eapply kept_append; reflexivity | exact H].
  - apply (frame_trans _ (kept_frame _)) with (set_promises (promises w ++ [Pending]) w);
      [eapply kept_append; reflexivity|].
    apply (frame_trans _ (kept_frame _)) with w1; [exact H|].
    now apply kept_reject.
Qed.

Lemma init_object_kept c config version routes mw w :
  kept (length (promises w)) w (snd (init_object c config version routes mw w)).
Proof.
  unfold init_object. unfold bind at 1, prop at 1.
  destruct (get_prop (w_heap w) config "testMode") as [testMode|];
    [|now apply kept_silent].
  unfold bind at 1.
  set (w1 := snd ((if strict_eq testMode (VBool true) then act (set_testMode true)
                   else ret tt) w)).
  assert (H1 : promises w1 = promises w)
    by (subst w1; now destruct (strict_eq testMode (VBool true))).
  assert (E : (if strict_eq testMode (VBool true) then act (set_testMode true)
               else ret tt) w = (Ok tt, w1))
    by (subst w1; now destruct (strict_eq testMode (VBool true))).
  rewrite E.
  pose proof (_init_kept c (VRef (length (w_heap w1)))
                (set_heap (w_heap w1 ++ [Obj (merged_props (w_heap w1) config
                                                (init_inner version routes mw))]) w1)) as K.
  destruct (_init _ _ _) as [p w2]. cbn [snd] in K |- *.
  cbn [promises set_heap] in K. rewrite H1 in K.
  apply (frame_trans _ (kept_frame _)) with
    (set_heap (w_heap w1 ++ [Obj (merged_props (w_heap w1) config
                                    (init_inner version routes mw))]) w1);
    [now apply kept_silent | exact K].
Qed.

Lemma init_object_missing_block c w lc psc version routes mw :
  heap_wf (w_heap w) = true ->
  w_heap w !! lc = Some (Obj psc) ->
  has_registry_block (w_heap w) (VRef lc) = false ->
  exists e w', init c (VRef lc) version routes mw w = (Ok (length (promises w)), w') /\
               promises w' = promises w ++ [Rejected e].
Proof.
  intros Hwf Hl Hmiss.
  destruct (merged_registry_block (w_heap w) lc psc version routes mw Hwf Hl)
    as [Hb Hm].
  rewrite (init_object_run c lc psc version routes mw w Hl).
  set (latch := strict_eq _ _).
  set (w1 := if latch then set_testMode true w else w).
  set (merged := Obj (merged_props _ _ _)) in *.
  assert (Hp1 : promises w1 = promises w) by (subst w1; now destruct latch).
  set (w2 := set_heap (w_heap w ++ [merged]) w1).
  rewrite (_init_missing_block c (length (w_heap w)) w2)
    by (subst w2; cbn [w_heap set_heap]; now rewrite Hb).
  replace (promises w2) with (promises w) by (now rewrite <- Hp1).
  destruct (reject_fresh
              (Error (missing_block_message (w_heap w2) (VRef (length (w_heap w)))))
              (snd (new_promise w2)) (promises w)) as [Hp _].
  { unfold new_promise. cbn [snd promises set_promises]. subst w2.
    cbn [promises set_heap]. now rewrite Hp1. }
  eexists _, _. split; [reflexivity|exact Hp].
Qed.

Lemma settle_pending p s w :
  promises w !! p = Some Pending -> promises (settle p s w) !! p = Some s.
Proof.
  intros H. unfold settle. rewrite H. cbn.
  apply list_lookup_insert_eq. eapply lookup_lt_Some; eauto.
Qed.

(** X12. [init] given a path answers with a promise that is pending,
    fulfilled, or rejected with 'Unable to load config from ' followed by
    the path, and with nothing else: a failure of the config helper, and
    equally any failure of the [init] that runs on the loaded object, is
    reported as that one error. In particular a loaded configuration
    without the registry connection block is reported as a load failure,
    not as a missing block. *)
Theorem init_from_path_reports_load_failure c path version routes mw w :
  let r := init c (VStr path) version routes mw w in
  let outer := length (promises w) in
  fst r = Ok outer /\
  (promises (snd r) !! outer = Some Pending \/
   (exists v, promises (snd r) !! outer = Some (Fulfilled v)) \/
   promises (snd r) !! outer = Some (Rejected (load_failure path))) /\
  (forall e, configHelper_init c path = Rejects e ->
     promises (snd r) !! outer = Some (Rejected (load_failure path))) /\
  (forall l psc, configHelper_init c path = Fulfils (VRef l) ->
     heap_wf (w_heap w) = true -> w_heap w !! l = Some (Obj psc) ->
     has_registry_block (w_heap w) (VRef l) = false ->
     promises (snd r) !! outer = Some (Rejected (load_failure path))).
Proof.
  intros r outer. subst r outer. unfold init, bind, act, new_promise.
  cbn [promises emit set_trace].
  set (w0 := emit (EHydra (HConfigHelperInit path)) (emit (EHydra HGetConfigHelper) w)).
  set (w1 := set_promises (promises w ++ [Pending]) w0).
  fold (load_failure path).
  assert (Hmid : promises w1 !! length (promises w) = Some Pending)
    by (subst w1; cbn; now apply list_lookup_middle).
  assert (Hrej : forall w', promises w' !! length (promises w) = Some Pending ->
            promises (reject (length (promises w)) (load_failure path) w')
              !! length (promises w) = Some (Rejected (load_failure path)))
    by (intros w' H; unfold reject; now apply settle_pending).
  assert (Hobj : forall l,
            promises (snd (init_object c (VRef l) version routes mw w1))
              !! length (promises w) = Some Pending).
  { assert (Hlen : length (promises w1) = S (length (promises w)))
      by (subst w1; cbn [promises set_promises]; rewrite length_app; cbn; lia).
    intros l. destruct (init_object_kept c (VRef l) version routes mw w1) as [_ K];
      [lia|]. rewrite K; [exact Hmid|]. lia. }
  assert (Hmask : forall l psc p w2,
            heap_wf (w_heap w) = true -> w_heap w !! l = Some (Obj psc) ->
            has_registry_block (w_heap w) (VRef l) = false ->
            init_object c (VRef l) version routes mw w1 = (Ok p, w2) ->
            exists e, promises w2 !! p = Some (Rejected e)).
  { intros l psc p w2 Hwf Hl Hb Eo.
    destruct (init_object_missing_block c w1 l psc version routes mw Hwf Hl Hb)
      as (e & w' & Hrun & Hp).
    unfold init in Hrun. rewrite Eo in Hrun.
    injection Hrun as Hfst Hw. subst p w'. rewrite Hp. exists e.
    now apply list_lookup_middle. }
  destruct (configHelper_init c path) as [loaded|e|] eqn:Eh; cbn [fst snd].
  - destruct loaded; cbn [fst snd];
      try (split; [reflexivity|]; split; [right; right; now apply Hrej|];
           split; [intros; now apply Hrej|intros; congruence]).
    specialize (Hobj l).
    destruct (init_object c (VRef l) version routes mw w1) as [[p|e] w2] eqn:Eo;
      cbn [snd] in Hobj.
    + destruct (promises w2 !! p) as [[|v|e]|] eqn:Ep; cbn [fst snd];
        (split; [reflexivity|]).
      * split; [left; exact Hobj|]. split; [congruence|].
        intros l' psc [= <-] Hwf Hl Hb. exfalso.
        destruct (Hmask l psc p w2 Hwf Hl Hb Eo) as [e He]. congruence.
      * split; [right; left; exists v; unfold resolve; now apply settle_pending|].
        split; [congruence|].
        intros l' psc [= <-] Hwf Hl Hb. exfalso.
        destruct (Hmask l psc p w2 Hwf Hl Hb Eo) as [e He]. congruence.
      * split; [right; right; now apply Hrej|].
        split; [congruence|]. intros; now apply Hrej.
      * split; [left; exact Hobj|]. split; [congruence|].
        intros l' psc [= <-] Hwf Hl Hb. exfalso.
        destruct (Hmask l psc p w2 Hwf Hl Hb Eo) as [e He]. congruence.
    + split; [reflexivity|]. split; [right; right; now apply Hrej|].
      split; [congruence|]. intros; now apply Hrej.
  - split; [reflexivity|]. split; [right; right; now apply Hrej|].
    split; [intros; now apply Hrej|congruence].
  - split; [reflexivity|]. split; [left; exact Hmid|]. split; congruence.
Qed.

Lemma init_from_path_reports_load_failure_witness :
  configHelper_init (loading VNull) "config.json" = Fulfils (VRef 0) /\
  has_registry_block test_only_heap (VRef 0) = false /\
  promises (snd (init (loading VNull) (VStr "config.json") VUndef VUndef VUndef
                   (new_instance test_only_heap))) !! 0
    = Some (Rejected (Error "Unable to load config from config.json")).
Proof.
  split; [reflexivity|]. split; [reflexivity|].
  exact (proj2 (proj2 (proj2 (init_from_path_reports_load_failure (loading VNull)
           "config.json" VUndef VUndef VUndef (new_instance test_only_heap))))
           0 [("testMode", VBool true)] eq_refl eq_refl eq_refl eq_refl).
Defined.

(** ** How [start] settles *)

Lemma signal_free_silent w w' : trace w' = trace w -> signal_free w w'.
Proof. intros Ht. exists []. now rewrite app_nil_r. Qed.

Lemma signal_free_event e w w' :
  trace w' = trace w ++ [e] -> is_emit e = false -> signal_free w w'.
Proof. intros Ht He. exists [e]. simpl. now rewrite He. Qed.

Lemma signal_free_frame : frame signal_free.
Proof.
  split.
  - intros w. now apply signal_free_silent.
  - intros a b c (d1 & Ht1 & Hd1) (d2 & Ht2 & Hd2).
    exists (d1 ++ d2). rewrite Ht2, Ht1, <- app_assoc. split; auto.
    now rewrite existsb_app, Hd1, Hd2.
  - intros h w. now apply signal_free_silent.
Qed.

Ltac signal_free_act :=
  first [ now apply signal_free_silent
        | now (eapply signal_free_event; [reflexivity | reflexivity]) ].

Lemma initService_signal_free c : keeps signal_free (initService c).
Proof. unfold initService. frame_steps signal_free_frame signal_free_act. Qed.

Lemma call_plugins_signal_free method sel plugins proms :
  keeps signal_free (call_plugins method sel plugins proms).
Proof.
  revert proms. induction plugins as [|pl rest IH]; intros proms; simpl.
  - apply (keeps_ret _ signal_free_frame).
  - apply (keeps_bind _ signal_free_frame);
      [apply keeps_act; intros; signal_free_act|intros _].
    destruct (sel pl); [apply IH|apply (keeps_throw _ signal_free_frame)].
Qed.

Lemma phases_signal_free c : keepsP signal_free (phases c).
Proof.
  unfold phases.
  apply (keepsP_and_then _ signal_free_frame).
  { intros w. destruct (hydra_init c _ _); simpl; signal_free_act. }
  intros config. apply (keepsP_and_then _ signal_free_frame).
  { apply keepsP_sync.
    apply (keeps_bind _ signal_free_frame);
      [apply keeps_act; intros; signal_free_act|intros _].
    apply (keeps_bind _ signal_free_frame);
      [apply (keeps_read _ signal_free_frame)|intros plugins].
    apply call_plugins_signal_free. }
  intros proms. apply (keepsP_and_then _ signal_free_frame).
  { apply (keepsP_await _ signal_free_frame). }
  intros _. apply (keepsP_and_then _ signal_free_frame).
  { intros w. destruct (hydra_registerService c); simpl; signal_free_act. }
  intros serviceInfo. apply (keepsP_and_then _ signal_free_frame).
  { apply keepsP_sync.
    apply (keeps_bind _ signal_free_frame); [apply initService_signal_free|intros _].
    apply (keeps_bind _ signal_free_frame);
      [apply (keeps_read _ signal_free_frame)|intros plugins].
    apply call_plugins_signal_free. }
  intros proms'. apply (keepsP_and_then _ signal_free_frame).
  { apply (keepsP_await _ signal_free_frame). }
  intros _ w. apply (frame_refl _ signal_free_frame).
Qed.

(** The value the chain hands to its last [then] is the answer of
    [hydra.registerService()]. *)
Lemma phases_done_registers c w info :
  fst (phases c w) = Done info -> hydra_registerService c = Fulfils info.
Proof.
  unfold phases, and_then.
  destruct (hydra_init c _ _) as [config| |]; cbn [await]; try discriminate.
  destruct (sync _ _) as [[proms|e|] w1]; try discriminate.
  destruct (await (q_all proms) w1) as [[?|?|] w2]; try discriminate.
  destruct (hydra_registerService c) as [serviceInfo| |]; cbn [await]; try discriminate.
  destruct (sync _ _) as [[proms'|e|] w3]; try discriminate.
  destruct (await (q_all proms') w3) as [[?|?|] w4]; try discriminate.
  cbn [fst]. congruence.
Qed.

Lemma filter_not_exists {A} (f : A -> bool) (l : list A) :
  existsb f l = false -> List.filter f l = [].
Proof.
  induction l as [|a l IH]; [reflexivity|]. cbn.
  destruct (f a); [discriminate|exact IH].
Qed.

Lemma not_in_not_exists {A} (f : A -> bool) (l : list A) (a : A) :
  existsb f l = false -> f a = true -> ~ In a l.
Proof.
  intros He Ha Hin.
  assert (existsb f l = true) by (apply existsb_exists; eauto). congruence.
Qed.

Lemma ready_settle_promises s w : promises (ready_settle s w) = promises w.
Proof. unfold ready_settle. now destruct (this_ready w). Qed.

Lemma ready_settle_pending s w :
  this_ready w = Pending -> this_ready (ready_settle s w) = s.
Proof. intros H. unfold ready_settle. now rewrite H. Qed.

Lemma settle_listeners p s w : cleanup_listeners (settle p s w) = cleanup_listeners w.
Proof. unfold settle. destruct (promises w !! p) as [[]|]; reflexivity. Qed.

Lemma drain_events_settle n : existsb is_settle (drain_events n) = false.
Proof.
  unfold drain_events. induction n as [|k IH]; [reflexivity|].
  cbn [replicate concat]. rewrite existsb_app. exact IH.
Qed.


Lemma bind_read {A B} (f : world -> A) (k : A -> M B) w : bind (read f) k w = k (f w) w.
Proof. reflexivity. Qed.

Lemma call_if_set_returns c name f w :
  truthy f = false \/ (exists id, f = VFun id /\ callback_raises c id = None) ->
  call_if_set c name f w = (Ok tt, if truthy f then emit (ECallback f) w else w).
Proof.
  unfold call_if_set. intros [H|(id & -> & H)].
  - now rewrite H.
  - cbn. unfold bind, act. now rewrite H.
Qed.

(** The callback of [server.listen] when the route callback is absent or
    returns: it adds its mounts to the trace and nothing else. *)
Lemma listening_callback_returns c u :
  truthy (this_registerRoutesCallback u) = false \/
  (exists id, this_registerRoutesCallback u = VFun id /\ callback_raises c id = None) ->
  run_task c TListening u =
    set_trace (trace u
               ++ (if truthy (this_registerRoutesCallback u)
                   then [ECallback (this_registerRoutesCallback u)] else [])
               ++ [EAppUse MwCatchAll; EAppUse MwNotFound; EAppUse MwErrorHandler]) u.
Proof.
  intros H. cbn [run_task]. unfold uncaught, listening_callback.
  rewrite bind_read. cbn beta. erewrite bind_ok by (apply call_if_set_returns; exact H).
  unfold bind, act, emit.
  destruct (truthy (this_registerRoutesCallback u)); cbn [trace set_trace];
    rewrite <- ?app_assoc; destruct u; reflexivity.
Qed.

(** How [start] settles, the callback of [server.listen] left aside. *)
Lemma start_outcome c p w :
  promises w !! p = Some Pending ->
  this_ready w = Pending ->
  let w' := start c p w in
  exists d,
    trace w' = trace w ++ d /\
    match fst (phases c w) with
    | Done info =>
        hydra_registerService c = Fulfils info /\
        promises w' !! p = Some (Fulfilled info) /\
        this_ready w' = Fulfilled VUndef /\
        List.filter is_settle d = [EResolve p info; EReadyResolve VUndef] /\
        ~ In (EEmit "cleanup") d
    | Failed err =>
        promises w' !! p = Some (Rejected err) /\
        this_ready w' = Rejected err /\
        List.filter is_settle d = [EReadyReject err; EReject p err] /\
        In (EEmit "cleanup") d /\
        Forall (fun fired => fired = true) (cleanup_listeners w')
    | Stuck =>
        promises w' !! p = Some Pending /\
        this_ready w' = Pending /\
        List.filter is_settle d = [] /\
        ~ In (EEmit "cleanup") d
    end.
Proof.
  intros Hp Hr w'.
  pose proof (start_trace c p w) as Ht. fold w' in Ht.
  pose proof (phases_done_registers c w) as Hreg.
  destruct (phases_quiet c w) as (Hpq & Hrq & d1 & Hd1 & Hq).
  destruct (phases_signal_free c w) as (d1' & Hd1' & Hs).
  assert (d1' = d1) by (rewrite Hd1 in Hd1'; now apply app_inv_head in Hd1').
  subst d1'. clear Hd1'.
  subst w'. unfold start in *.
  destruct (phases c w) as [[info|err|] w1]; cbn [fst snd] in *.
  - exists (d1 ++ [EResolve p info; EReadyResolve VUndef]).
    split; [rewrite Ht, Hd1; now rewrite <- app_assoc|].
    split; [now apply Hreg|].
    split.
    { unfold ready_resolve. rewrite ready_settle_promises.
      unfold resolve. apply settle_pending. cbn. now rewrite Hpq. }
    split.
    { unfold ready_resolve. apply ready_settle_pending.
      unfold resolve. cbn. rewrite settle_ready. cbn. now rewrite Hrq. }
    split.
    { rewrite List.filter_app, (filter_not_exists _ _ Hq). reflexivity. }
    intros Hin. apply in_app_or in Hin. destruct Hin as [Hin|Hin].
    + now apply (not_in_not_exists is_emit d1 (EEmit "cleanup") Hs eq_refl) in Hin.
    + cbn in Hin. intuition discriminate.
  - set (n := unfired (cleanup_listeners (ready_reject err w1))) in *.
    assert (En : n = unfired (cleanup_listeners w1))
      by (subst n; unfold ready_reject; now rewrite ready_settle_listeners).
    exists (d1 ++ EReadyReject err :: EEmit "cleanup" :: drain_events n ++ [EReject p err]).
    split; [rewrite Ht, Hd1, <- app_assoc, En; reflexivity|].
    split.
    { unfold reject. apply settle_pending.
      rewrite process_emit_cleanup_spec. cbn.
      unfold ready_reject. rewrite ready_settle_promises. cbn. rewrite Hpq.
      apply lookup_app_l_Some. exact Hp. }
    split.
    { unfold reject. rewrite settle_ready.
      rewrite process_emit_cleanup_spec. cbn.
      unfold ready_reject. apply ready_settle_pending. cbn. now rewrite Hrq. }
    split.
    { rewrite List.filter_app, (filter_not_exists _ _ Hq). cbn.
      rewrite List.filter_app, (filter_not_exists _ _ (drain_events_settle n)).
      reflexivity. }
    split.
    { apply in_or_app. right. right. left. reflexivity. }
    unfold reject. rewrite settle_listeners.
    rewrite process_emit_cleanup_spec. cbn.
    apply List.Forall_forall. intros x Hx. apply in_map_iff in Hx.
    now destruct Hx as (? & <- & _).
  - exists d1. split; [exact Hd1|].
    split; [now rewrite Hpq|]. split; [now rewrite Hrq|].
    split; [now apply filter_not_exists|].
    apply (not_in_not_exists is_emit d1 (EEmit "cleanup") Hs eq_refl).
Qed.


(** With a route callback that is absent or returns, the callback of
    [server.listen] settles nothing, raises no signal and leaves no error
    uncaught. *)
Lemma listening_callback_harmless c u :
  truthy (this_registerRoutesCallback u) = false \/
  (exists id, this_registerRoutesCallback u = VFun id /\ callback_raises c id = None) ->
  let u' := run_task c TListening u in
  promises u' = promises u /\
  this_ready u' = this_ready u /\
  exists d',
    trace u' = trace u ++ d' /\
    List.filter is_settle d' = [] /\
    ~ In (EEmit "cleanup") d' /\
    forall e, ~ In (EUncaught e) d'.
Proof.
  intros H u'. subst u'. rewrite listening_callback_returns by exact H.
  split; [reflexivity|]. split; [reflexivity|]. eexists. split; [reflexivity|].
  destruct (truthy (this_registerRoutesCallback u)).
  - split; [reflexivity|]. split; [|intros e]; cbn; intuition discriminate.
  - split; [reflexivity|]. split; [|intros e]; cbn; intuition discriminate.
Qed.

(** X13. A run of [start] with its promise and the ready signal still
    pending, and a route callback that is absent or returns, settles each
    of the two at most once, and both the same way. When every phase
    completes, the promise is fulfilled with the answer of
    [hydra.registerService()] and the ready signal is then resolved with
    [undefined]; no cleanup signal is raised. When a phase fails, the
    ready signal is rejected with the error first, the cleanup signal is
    raised (so that every installed listener has fired), and the promise
    is rejected with the same error last. When a phase hangs, nothing is
    settled and no signal is raised. The route callback runs from the
    callback of [server.listen], which fires while the chain is still in
    flight; what it throws there is uncaught and ends the run, which is
    why it is taken to return: the listen callback then settles nothing,
    raises no signal and leaves no error uncaught, wherever it falls in
    the run. *)
Theorem start_settles_promise_and_ready c p w :
  promises w !! p = Some Pending ->
  this_ready w = Pending ->
  truthy (this_registerRoutesCallback w) = false \/
  (exists id, this_registerRoutesCallback w = VFun id /\ callback_raises c id = None) ->
  let w' := start c p w in
  (exists d,
     trace w' = trace w ++ d /\
     match fst (phases c w) with
     | Done info =>
         hydra_registerService c = Fulfils info /\
         promises w' !! p = Some (Fulfilled info) /\
         this_ready w' = Fulfilled VUndef /\
         List.filter is_settle d = [EResolve p info; EReadyResolve VUndef] /\
         ~ In (EEmit "cleanup") d
     | Failed err =>
         promises w' !! p = Some (Rejected err) /\
         this_ready w' = Rejected err /\
         List.filter is_settle d = [EReadyReject err; EReject p err] /\
         In (EEmit "cleanup") d /\
         Forall (fun fired => fired = true) (cleanup_listeners w')
     | Stuck =>
         promises w' !! p = Some Pending /\
         this_ready w' = Pending /\
         List.filter is_settle d = [] /\
         ~ In (EEmit "cleanup") d
     end) /\
  (forall u,
     this_registerRoutesCallback u = this_registerRoutesCallback w ->
     let u' := run_task c TListening u in
     promises u' = promises u /\
     this_ready u' = this_ready u /\
     exists d',
       trace u' = trace u ++ d' /\
       List.filter is_settle d' = [] /\
       ~ In (EEmit "cleanup") d' /\
       forall e, ~ In (EUncaught e) d').
Proof.
  intros Hp Hr Hcb w'. split; [exact (start_outcome c p w Hp Hr)|].
  intros u Hu. apply listening_callback_harmless. now rewrite Hu.
Qed.

Lemma start_settles_promise_and_ready_witness :
  let w := snd (new_promise blocked_world) in
  promises w !! 0 = Some Pending /\
  this_ready w = Pending /\
  promises (start (friendly descriptor) 0 w) !! 0 = Some (Rejected (Error "no database")) /\
  this_ready (start (friendly descriptor) 0 w) = Rejected (Error "no database").
Proof.
  intros w. split; [reflexivity|]. split; [reflexivity|].
  destruct (start_settles_promise_and_ready (friendly descriptor) 0 w eq_refl eq_refl
              (or_introl eq_refl)) as ((d & _ & H) & _).
  assert (E : fst (phases (friendly descriptor) w) = Failed (Error "no database"))
    by (vm_compute; reflexivity).
  rewrite E in H. destruct H as (H1 & H2 & _).
  split; [exact H1|exact H2].
Defined.

(** ** [shutdown] without a listener *)

Lemma pick_Forall (Q : Z * task -> Prop) ts x rest :
  pick ts = Some (x, rest) -> Forall Q ts -> Q x /\ Forall Q rest.
Proof.
  revert x rest. induction ts as [|a ts IH]; intros x rest Hpick HQ; [discriminate|].
  cbn in Hpick. inversion HQ as [|? ? Ha Hts]; subst.
  destruct (pick ts) as [[y r']|] eqn:E.
  - destruct (IH y r' eq_refl Hts) as [Hy Hr'].
    destruct (fst y <? fst a)%Z; injection Hpick as <- <-; auto.
  - injection Hpick as <- <-. auto.
Qed.

Lemma settle_other p q s w :
  q <> p -> promises (settle q s w) !! p = promises w !! p.
Proof.
  intros Hq. unfold settle. destruct (promises w !! q) as [[]|]; try reflexivity.
  cbn. now apply list_lookup_insert_ne.
Qed.

Lemma settle_server p s w : this_server (settle p s w) = this_server w.
Proof. unfold settle. destruct (promises w !! p) as [[]|]; reflexivity. Qed.

Lemma settle_timers p s w : timers (settle p s w) = timers w.
Proof. unfold settle. destruct (promises w !! p) as [[]|]; reflexivity. Qed.

Lemma listening_callback_stranded c p w :
  stranded p w -> stranded p (uncaught (listening_callback c) w).
Proof.
  intros H. unfold uncaught, listening_callback, call_if_set, bind, read, act, ret, throw.
  destruct (truthy (this_registerRoutesCallback w)); [|exact H].
  destruct (this_registerRoutesCallback w); try exact H.
  destruct (callback_raises c f); exact H.
Qed.

Lemma tick_stranded c p w : stranded p w -> stranded p (tick c w).
Proof.
  intros (Hs & Hp & Ht). unfold tick. destruct (exited w); [now repeat split|].
  destruct (pick (timers w)) as [[[due t] rest]|] eqn:E; [|now repeat split].
  destruct (pick_Forall _ _ _ _ E Ht) as [Hx Hrest]. cbn [snd] in Hx.
  set (w1 := set_now _ _).
  assert (H1 : stranded p w1) by (subst w1; now repeat split).
  destruct t as [q|q| |]; cbn [run_task].
  - unfold uncaught, drain, bind, read. destruct H1 as (Hs1 & Hp1 & Ht1).
    rewrite Hs1. cbn. now repeat split.
  - assert (Hq : q <> p) by congruence.
    destruct H1 as (Hs1 & Hp1 & Ht1).
    unfold closed. set (w2 := emit _ (log _ _ w1)).
    assert (H2 : stranded p w2).
    { subst w2. unfold log. cbn. now repeat split. }
    destruct H2 as (Hs2 & Hp2 & Ht2).
    destruct (hydra_shutdown c) as [v|e|]; [| |now repeat split];
      unfold resolve, reject; repeat split;
      rewrite ?settle_server, ?settle_timers, ?(settle_other p q) by exact Hq;
      assumption.
  - destruct H1 as (Hs1 & Hp1 & Ht1). now repeat split.
  - now apply listening_callback_stranded.
Qed.

Lemma iter_tick_stranded c p n w : stranded p w -> stranded p (Nat.iter n (tick c) w).
Proof.
  intros H. induction n as [|n IH]; [exact H|].
  rewrite Nat.iter_succ. now apply tick_stranded.
Qed.








(** ** A startup that fails before the listener exists *)

Lemma call_plugins_fulfil method sel plugins proms w :
  Forall (fun pl => exists v, sel pl = PReturns (Fulfils v)) plugins ->
  exists os,
    call_plugins method sel plugins proms w
      = (Ok (proms ++ os), set_trace (trace w ++ plugin_events method plugins) w) /\
    q_all os = Fulfils VUndef.
Proof.
  intros H. revert proms w. induction H as [|pl rest [v Hv] _ IH]; intros proms w.
  - exists []. cbn. rewrite !app_nil_r. split; [now destruct w|reflexivity].
  - cbn [call_plugins]. unfold bind, act. rewrite Hv.
    destruct (IH (proms ++ [Fulfils v]) (emit (EPlugin (plugin_id pl) method) w))
      as (os & Hrun & Hq).
    exists (Fulfils v :: os). rewrite Hrun. split; [|exact Hq].
    unfold emit. cbn. now rewrite <- !app_assoc.
Qed.

Lemma set_trace_set_trace a b w : set_trace a (set_trace b w) = set_trace a w.
Proof. reflexivity. Qed.

Lemma set_trace_listeners_trace a x b w :
  set_trace a (set_cleanup_listeners x (set_trace b w))
  = set_trace a (set_cleanup_listeners x w).
Proof. reflexivity. Qed.

Lemma initService_middleware_raises c w l ps id e :
  this_config w = VRef l ->
  w_heap w !! l = Some (Obj ps) ->
  this_registerMiddlewareCallback w = VFun id ->
  callback_raises c id = Some e ->
  exists d,
    initService c w =
      (Throw e,
       set_trace (trace w ++ d) (set_cleanup_listeners (cleanup_listeners w ++ [false]) w)) /\
    In (EOn "cleanup") d /\ ~ In ECreateServer d.
Proof.
  intros Hc Hl Hm He.
  destruct w as [h cfg server tm plugins ready routes mw listeners tms t ex proms tr].
  cbn in Hc, Hl, Hm. subst cfg mw.
  unfold initService, bind, act, read, prop, call_if_set, emit, throw.
  cbn -[lookup]. rewrite !Hl. cbn -[lookup]. rewrite He.
  set (cors := truthy (default VUndef (assoc "cors" ps))).
  set (body := truthy (default VUndef (assoc "bodyParser" ps))).
  exists [ EAppUse MwProcessId; EOn "cleanup"; EAppUse MwHelmet;
           EHydra HGetServiceName; EHydra HGetInstanceVersion;
           EAppUse MwHidePoweredBy; EAppUse (MwHsts ninetyDaysInMilliseconds);
           EAppUse (MwCors cors); EAppUse (MwCorsOptions cors);
           EAppUse (MwBodyJson body); EAppUse (MwBodyUrlencoded body);
           ECallback (VFun id) ].
  split.
  - rewrite !set_trace_set_trace, set_trace_listeners_trace.
    cbn [trace cleanup_listeners]. rewrite <- !app_assoc. reflexivity.
  - split; [right; left; reflexivity|].
    intros H. repeat (destruct H as [H|H]; [discriminate H|]). exact H.
Qed.

Lemma and_then_done {A B} (m : P A) (k : A -> P B) w a w' :
  m w = (Done a, w') -> and_then m k w = k a w'.
Proof. intros H. unfold and_then. now rewrite H. Qed.

Lemma and_then_failed {A B} (m : P A) (k : A -> P B) w e w' :
  m w = (Failed e, w') -> and_then m k w = (Failed e, w').
Proof. intros H. unfold and_then. now rewrite H. Qed.

Lemma phases_middleware_raises c w l ps info id e :
  hydra_init c (this_config w) (this_testMode w) = Fulfils (VRef l) ->
  w_heap w !! l = Some (Obj ps) ->
  Forall (fun pl => exists v, setConfig pl = PReturns (Fulfils v))
         (this_registeredPlugins w) ->
  hydra_registerService c = Fulfils info ->
  this_registerMiddlewareCallback w = VFun id ->
  callback_raises c id = Some e ->
  exists w2,
    phases c w = (Failed e, w2) /\
    this_server w2 = this_server w /\
    cleanup_listeners w2 = cleanup_listeners w ++ [false] /\
    timers w2 = timers w.
Proof.
  intros Hinit Hl Hplugins Hreg Hmw Hraise.
  unfold phases.
  set (wa := emit (EHydra (HInit (this_config w) (this_testMode w))) w).
  erewrite and_then_done with (a := VRef l) (w' := wa)
    by (subst wa; now rewrite Hinit).
  destruct (call_plugins_fulfil "setConfig" setConfig (this_registeredPlugins w) []
              (set_config (VRef l) wa) Hplugins) as (os & Hrun & Hq).
  set (wb := set_trace _ _) in Hrun.
  erewrite and_then_done with (a := [] ++ os) (w' := wb).
  2:{ unfold sync, bind, act, read. cbn beta iota.
      change (this_registeredPlugins (set_config (VRef l) wa))
        with (this_registeredPlugins w).
      now rewrite Hrun. }
  erewrite and_then_done with (a := VUndef) (w' := wb)
    by (cbn [app]; rewrite Hq; reflexivity).
  set (wc := emit (EHydra HRegisterService) wb).
  erewrite and_then_done with (a := info) (w' := wc)
    by (subst wc; now rewrite Hreg).
  destruct (initService_middleware_raises c wc l ps id e eq_refl Hl Hmw Hraise)
    as (d & Hd & _).
  set (w2 := set_trace _ _) in Hd.
  erewrite and_then_failed with (e := e) (w' := w2)
    by (unfold sync, bind; now rewrite Hd).
  exists w2. repeat split; reflexivity.
Qed.

Lemma ready_settle_timers s w : timers (ready_settle s w) = timers w.
Proof. unfold ready_settle. now destruct (this_ready w). Qed.

Lemma settle_length p s w : length (promises (settle p s w)) = length (promises w).
Proof.
  unfold settle. destruct (promises w !! p) as [[]|]; try reflexivity.
  cbn. apply length_insert.
Qed.

Lemma unfired_snoc flags : unfired (flags ++ [false]) = S (unfired flags).
Proof. unfold unfired. rewrite List.filter_app, length_app. cbn. lia. Qed.

Lemma drain_timers_not_closed t first n q :
  Forall (fun dt : Z * task => snd dt <> TClosed q) (drain_timers t first n).
Proof.
  unfold drain_timers. apply List.Forall_forall. intros x Hx.
  apply in_flat_map in Hx as (i & _ & [<-|[<-|[]]]); discriminate.
Qed.

(** X15. When the middleware callback throws during startup (hydra
    initialised, every plugin configured, the service registered), the
    promise of the run is rejected with that error and the cleanup signal
    is raised; by then [initService] has installed its cleanup listener
    but created no listener to close. So the listener fires, along with
    any installed earlier that had not, and each starts a shutdown whose
    promise is never settled, however long the event loop runs:
    [this.server] stays null, and the 1000 ms callback can only throw. *)
Theorem middleware_failure_strands_shutdown c p w l ps info id e :
  hydra_init c (this_config w) (this_testMode w) = Fulfils (VRef l) ->
  w_heap w !! l = Some (Obj ps) ->
  Forall (fun pl => exists v, setConfig pl = PReturns (Fulfils v))
         (this_registeredPlugins w) ->
  hydra_registerService c = Fulfils info ->
  this_registerMiddlewareCallback w = VFun id ->
  callback_raises c id = Some e ->
  this_server w = None ->
  Forall (fun dt => forall j, length (promises w) <= j -> snd dt <> TClosed j)
         (timers w) ->
  promises w !! p = Some Pending ->
  let w1 := start c p w in
  let k := S (unfired (cleanup_listeners w)) in
  promises w1 !! p = Some (Rejected e) /\
  length (promises w1) = length (promises w) + k /\
  cleanup_listeners w1 = map (fun _ => true) (cleanup_listeners w) ++ [true] /\
  forall n i, i < k ->
    stranded (length (promises w) + i) (Nat.iter n (tick c) w1).
Proof.
  intros Hinit Hl Hplugins Hreg Hmw Hraise Hsrv Htm Hp w1 k.
  destruct (phases_middleware_raises c w l ps info id e Hinit Hl Hplugins Hreg Hmw Hraise)
    as (w2 & Hph & Hs2 & Hc2 & Ht2).
  destruct (phases_quiet c w) as (Hp2 & _). rewrite Hph in Hp2. cbn [snd] in Hp2.
  subst w1. unfold start. rewrite Hph.
  set (w3 := ready_reject e w2).
  assert (Hp3 : promises w3 = promises w)
    by (subst w3; unfold ready_reject; now rewrite ready_settle_promises).
  assert (Hs3 : this_server w3 = None)
    by (subst w3; unfold ready_reject; now rewrite ready_settle_server, <- Hsrv).
  assert (Hc3 : cleanup_listeners w3 = cleanup_listeners w ++ [false])
    by (subst w3; unfold ready_reject; now rewrite ready_settle_listeners).
  assert (Ht3 : timers w3 = timers w)
    by (subst w3; unfold ready_reject; now rewrite ready_settle_timers).
  rewrite process_emit_cleanup_spec. rewrite Hc3, unfired_snoc, Hp3, Ht3. fold k.
  set (w4 := set_cleanup_listeners _ _).
  assert (Hp4 : promises w4 = promises w ++ replicate k Pending) by reflexivity.
  assert (Hs4 : this_server w4 = None) by exact Hs3.
  assert (Ht4 : timers w4 = timers w ++ drain_timers (now w3) (length (promises w)) k)
    by reflexivity.
  assert (Hlt : p < length (promises w)) by (eapply lookup_lt_Some; eauto).
  split.
  { unfold reject. apply settle_pending. cbn [promises emit set_trace].
    change (promises (set_trace (trace w4 ++ [EReject p e]) w4)) with (promises w4).
    rewrite Hp4. now apply lookup_app_l_Some. }
  split.
  { unfold reject. rewrite settle_length.
    change (promises (emit (EReject p e) w4)) with (promises w4).
    rewrite Hp4, length_app, length_replicate. reflexivity. }
  split.
  { unfold reject. rewrite settle_listeners.
    change (cleanup_listeners (emit (EReject p e) w4))
      with (map (fun _ : bool => true) (cleanup_listeners w ++ [false])).
    now rewrite map_app. }
  intros n i Hi. apply iter_tick_stranded.
  unfold reject. split; [|split].
  - rewrite settle_server. exact Hs4.
  - rewrite settle_other by lia.
    change (promises (emit (EReject p e) w4)) with (promises w4).
    rewrite Hp4, lookup_app_r by lia.
    replace (length (promises w) + i - length (promises w)) with i by lia.
    now apply lookup_replicate_2.
  - rewrite settle_timers.
    change (timers (emit (EReject p e) w4)) with (timers w4).
    rewrite Ht4. apply Forall_app. split.
    + eapply Forall_impl; [exact Htm|]. intros dt H. apply H. lia.
    + apply drain_timers_not_closed.
Qed.

Lemma middleware_failure_strands_shutdown_witness :
  let c := throwing_middleware descriptor in
  let w1 := start c 0 middleware_world in
  promises middleware_world !! 0 = Some Pending /\
  this_server middleware_world = None /\
  promises w1 !! 0 = Some (Rejected (Error "no session store")) /\
  stranded 1 (Nat.iter 3 (tick c) w1).
Proof.
  intros c w1. split; [reflexivity|]. split; [reflexivity|].
  destruct (middleware_failure_strands_shutdown c 0 middleware_world 0
              [("hydra", VRef 1); ("registerRoutesCallback", VFun 7)]
              descriptor 9 (Error "no session store")
              eq_refl eq_refl (List.Forall_nil _) eq_refl eq_refl eq_refl eq_refl
              (List.Forall_nil _) eq_refl) as (H1 & _ & _ & H2).
  split; [exact H1|]. exact (H2 3 0 (le_n 1)).
Defined.

(** ** What [_init] captures before it starts *)

Lemma bind_assign {B} v k x (f : unit -> M B) w h' :
  set_prop (w_heap w) v k x = Ok h' -> bind (assign v k x) f w = f tt (set_heap h' w).
Proof. intros H. unfold bind, assign. now rewrite H. Qed.

Lemma agree_off_weaken ks ks' h h' :
  (forall k, In k ks -> In k ks') -> agree_off ks h h' -> agree_off ks' h h'.
Proof. intros Hsub [L G]. split; [exact L|]. intros v k Hk. apply G. auto. Qed.

Lemma get_prop_insert_same h l ps k x :
  h !! l = Some (Obj ps) ->
  get_prop (<[l := Obj (assoc_set k x ps)]> h) (VRef l) k = Ok x.
Proof.
  intros Hl. unfold get_prop.
  rewrite list_lookup_insert_eq by (eapply lookup_lt_Some; eauto).
  now rewrite assoc_set_same.
Qed.

Lemma insert_keeps_object (h : heap) l ps' lc psc :
  h !! lc = Some (Obj psc) ->
  exists psc1, <[l := Obj ps']> h !! lc = Some (Obj psc1).
Proof.
  intros Hlc. destruct (decide (l = lc)) as [->|Hne].
  - exists ps'. apply list_lookup_insert_eq. eapply lookup_lt_Some; eauto.
  - exists psc. now rewrite list_lookup_insert_ne.
Qed.

Lemma capture_run config w :
  has_registry_block (w_heap w) config = true ->
  exists h5 routes mw,
    capture config w =
      (Ok tt, emit (EHydra HOnLog)
                (set_callbacks routes mw (set_config config (set_heap h5 w)))) /\
    agree_off ["serviceVersion"; "environment"] (w_heap w) h5 /\
    get_prop (w_heap w) config "registerRoutesCallback" = Ok routes /\
    get_prop (w_heap w) config "registerMiddlewareCallback" = Ok mw /\
    (exists env, get_prop h5 config "environment" = Ok env /\ truthy env = true) /\
    (exists hy, get_prop h5 config "hydra" = Ok hy /\
                get_prop h5 hy "serviceVersion" = get_prop (w_heap w) config "version").
Proof.
  intros H. destruct (has_registry_block_inv _ _ H) as (l & ps & r & Hhy & Hl & _).
  destruct (get_prop_truthy_object (w_heap w) config "hydra" (VRef l))
    as (lc & psc & -> & Hlc & _); auto; try discriminate.
  { simpl. intros [E|[E|[E|[E|[E|[E|[E|[E|[E|[E|[]]]]]]]]]]]; discriminate. }
  set (h := w_heap w) in *.
  destruct (get_prop_ref h lc "version") as [ver Hver].
  set (h1 := <[l := Obj (assoc_set "serviceVersion" ver ps)]> h).
  assert (A1 : agree_off ["serviceVersion"; "environment"] h h1)
    by (apply agree_off_insert; [assumption | simpl; tauto]).
  destruct (insert_keeps_object h l (assoc_set "serviceVersion" ver ps) lc psc Hlc)
    as [psc1 Hlc1]. fold h1 in Hlc1.
  destruct (get_prop_ref h1 lc "environment") as [env Henv].
  set (env' := js_or env (VStr "development")).
  set (h2 := <[lc := Obj (assoc_set "environment" env' psc1)]> h1).
  assert (A2 : agree_off ["serviceVersion"; "environment"] h1 h2)
    by (apply agree_off_insert; [assumption | simpl; tauto]).
  assert (A : agree_off ["serviceVersion"; "environment"] h h2)
    by (eapply agree_off_trans; eauto).
  destruct (get_prop_ref h lc "registerRoutesCallback") as [routes Hroutes].
  destruct (get_prop_ref h lc "registerMiddlewareCallback") as [mw Hmw].
  assert (Hne : forall k, In k ["registerRoutesCallback"; "registerMiddlewareCallback";
                                "hydra"; "version"] ->
                          ~ In k ["serviceVersion"; "environment"]).
  { simpl. intros k [<-|[<-|[<-|[<-|[]]]]] [E|[E|[]]]; discriminate. }
  exists h2, routes, mw. split.
  { unfold capture.
    rewrite (bind_prop _ _ ver) by exact Hver.
    rewrite (bind_prop _ _ (VRef l)) by exact Hhy.
    rewrite (bind_assign _ _ _ _ _ h1) by (unfold set_prop; fold h; now rewrite Hl).
    unfold bind at 1, act at 1. unfold bind at 1, read at 1.
    unfold bind at 1, read at 1.
    cbn [this_config set_config].
    rewrite (bind_prop _ _ env) by exact Henv.
    rewrite (bind_assign _ _ _ _ _ h2)
      by (unfold set_prop; cbn [w_heap set_config set_heap]; now rewrite Hlc1).
    rewrite (bind_prop _ _ routes)
      by (cbn [w_heap set_config set_heap]; destruct A as [_ G]; rewrite G;
          [exact Hroutes | apply Hne; simpl; tauto]).
    rewrite (bind_prop _ _ mw)
      by (cbn [w_heap set_config set_heap]; destruct A as [_ G]; rewrite G;
          [exact Hmw | apply Hne; simpl; tauto]).
    unfold bind, act. reflexivity. }
  split; [exact A|]. split; [exact Hroutes|]. split; [exact Hmw|]. split.
  - exists env'. split.
    + subst h2. now apply get_prop_insert_same.
    + subst env'. unfold js_or. now destruct (truthy env) eqn:E.
  - exists (VRef l). split.
    + destruct A as [_ G]. rewrite G; [exact Hhy|apply Hne; simpl; tauto].
    + rewrite Hver. subst h2.
      rewrite (get_prop_insert_other h1 lc psc1) by (auto; discriminate).
      subst h1. now apply get_prop_insert_same.
Qed.

(** The first thing the startup chain does is call [hydra.init] with the
    captured configuration and the test-mode flag. *)
Lemma phases_first c w :
  exists d, trace (snd (phases c w))
            = trace w ++ EHydra (HInit (this_config w) (this_testMode w)) :: d.
Proof.
  unfold phases. unfold and_then at 1.
  set (wa := emit (EHydra (HInit (this_config w) (this_testMode w))) w).
  destruct (hydra_init c (this_config w) (this_testMode w)) as [config| |];
    cbn [await fst snd]; try (now exists []).
  match goal with
  | |- exists d, trace (snd (?m wa)) = _ =>
      assert (K : keepsP signal_free m); [|destruct (K wa) as (d & Hd & _)]
  end.
  { apply (keepsP_and_then _ signal_free_frame).
    { apply keepsP_sync.
      apply (keeps_bind _ signal_free_frame);
        [apply keeps_act; intros; signal_free_act|intros _].
      apply (keeps_bind _ signal_free_frame);
        [apply (keeps_read _ signal_free_frame)|intros plugins].
      apply call_plugins_signal_free. }
    intros proms. apply (keepsP_and_then _ signal_free_frame).
    { apply (keepsP_await _ signal_free_frame). }
    intros _. apply (keepsP_and_then _ signal_free_frame).
    { intros w0. destruct (hydra_registerService c); simpl; signal_free_act. }
    intros serviceInfo. apply (keepsP_and_then _ signal_free_frame).
    { apply keepsP_sync.
      apply (keeps_bind _ signal_free_frame); [apply initService_signal_free|intros _].
      apply (keeps_bind _ signal_free_frame);
        [apply (keeps_read _ signal_free_frame)|intros plugins].
      apply call_plugins_signal_free. }
    intros proms'. apply (keepsP_and_then _ signal_free_frame).
    { apply (keepsP_await _ signal_free_frame). }
    intros _ w0. apply (frame_refl _ signal_free_frame). }
  exists d. rewrite Hd. subst wa. unfold emit. cbn [trace set_trace].
  now rewrite <- app_assoc.
Qed.

(** X16. A configuration that passes every check is captured before
    anything is started: [_init] hands out a fresh promise, fills in the
    defaults, stores the configuration and the two callbacks as they were
    passed, and registers one listener for hydra's log events, which is
    the only event so far; on the way it writes [hydra.serviceVersion]
    (the configuration's [version]) and [environment] (truthy afterwards:
    the old value, or 'development'), and apart from these two keys and
    the three defaults every property of every object reads as before.
    [start] then runs on that state, and the first thing it does is call
    [hydra.init] with the stored configuration and the test-mode flag. *)
Theorem _init_captures_then_starts c config w :
  passes_validation (w_heap w) config = true ->
  let p := length (promises w) in
  let w0 := snd (init_prepare config (snd (new_promise w))) in
  _init c config w = (p, start c p w0) /\
  this_config w0 = config /\
  trace w0 = trace w ++ [EHydra HOnLog] /\
  promises w0 = promises w ++ [Pending] /\
  agree_off (defaulted_keys ++ captured_keys) (w_heap w) (w_heap w0) /\
  Ok (this_registerRoutesCallback w0) = get_prop (w_heap w) config "registerRoutesCallback" /\
  Ok (this_registerMiddlewareCallback w0)
    = get_prop (w_heap w) config "registerMiddlewareCallback" /\
  (exists env, get_prop (w_heap w0) config "environment" = Ok env /\ truthy env = true) /\
  (exists hy, get_prop (w_heap w0) config "hydra" = Ok hy /\
              get_prop (w_heap w0) hy "serviceVersion" = get_prop (w_heap w) config "version") /\
  exists d, trace (start c p w0)
            = trace w0 ++ EHydra (HInit config (this_testMode w)) :: d.
Proof.
  intros Hpass p w0.
  split; [now apply _init_valid|].
  assert (H : has_registry_block (w_heap w) config = true)
    by (unfold passes_validation in Hpass; now apply andb_true_iff in Hpass as [? _]).
  set (w1 := snd (new_promise w)) in *.
  destruct (apply_defaults_run config w1 H) as (h3 & Hrun & Hag).
  change (w_heap w1) with (w_heap w) in Hag.
  assert (H3 : has_registry_block (w_heap (set_heap h3 w1)) config = true).
  { cbn [w_heap set_heap].
    rewrite (has_registry_block_agree defaulted_keys (w_heap w) h3); auto;
      apply defaulted_not_checked; simpl; tauto. }
  destruct (capture_run config (set_heap h3 w1) H3)
    as (h5 & routes & mw & Hcap & Hag5 & Hroutes & Hmw & Henv & Hver).
  cbn [w_heap set_heap] in Hag5, Hroutes, Hmw, Hver.
  assert (Hne : forall k, In k ["registerRoutesCallback"; "registerMiddlewareCallback";
                                "version"] -> ~ In k defaulted_keys).
  { unfold defaulted_keys. simpl.
    intros k [<-|[<-|[<-|[]]]] [E|[E|[E|[]]]]; discriminate. }
  assert (E0 : w0 = emit (EHydra HOnLog)
                      (set_callbacks routes mw
                         (set_config config (set_heap h5 (set_heap h3 w1))))).
  { subst w0. unfold init_prepare, bind. rewrite Hrun, Hcap. reflexivity. }
  assert (Hcfg : this_config w0 = config) by (rewrite E0; reflexivity).
  assert (Htm : this_testMode w0 = this_testMode w) by (rewrite E0; reflexivity).
  split; [exact Hcfg|].
  split; [rewrite E0; reflexivity|].
  split; [rewrite E0; reflexivity|].
  split.
  { rewrite E0. cbn [w_heap emit set_trace set_callbacks set_config set_heap].
    eapply agree_off_trans.
    - eapply agree_off_weaken; [|exact Hag]. intros k Hk. apply in_or_app. now left.
    - eapply agree_off_weaken; [|exact Hag5]. intros k Hk. apply in_or_app. now right. }
  destruct Hag as [_ G].
  split.
  { rewrite E0. cbn [this_registerRoutesCallback emit set_trace set_callbacks].
    rewrite <- Hroutes. apply G. apply Hne. simpl. tauto. }
  split.
  { rewrite E0. cbn [this_registerMiddlewareCallback emit set_trace set_callbacks].
    rewrite <- Hmw. apply G. apply Hne. simpl. tauto. }
  split; [rewrite E0; exact Henv|].
  split.
  { rewrite E0. destruct Hver as (hy & Hhy & Hsv). exists hy. split; [exact Hhy|].
    cbn [w_heap emit set_trace set_callbacks set_config set_heap].
    rewrite Hsv. apply G. apply Hne. simpl. tauto. }
  destruct (phases_first c w0) as [d Hd]. rewrite Hcfg, Htm in Hd.
  rewrite start_trace, Hd. eexists. rewrite <- app_assoc. reflexivity.
Qed.

Lemma _init_captures_then_starts_witness :
  passes_validation complete_heap (VRef 0) = true /\
  this_config (snd (init_prepare (VRef 0) (snd (new_promise (new_instance complete_heap)))))
    = VRef 0.
Proof.
  split; [reflexivity|].
  exact (proj1 (proj2 (_init_captures_then_starts (friendly descriptor) (VRef 0)
                         (new_instance complete_heap) eq_refl))).
Defined.

(** ** [initService]: the pipeline and the listener *)



(** ** C6: two cleanup signals in a row *)










(** ** C1: how [init] settles *)












(** ** C4: a startup that fails *)






